(** * Tabular-to-columnar conversion: a shallow embedding of
    [src/patentsview_gbq/tasks/task_02_extract_to_parquet.py].

    The development follows the Python module top to bottom: the module
    constants, the row normaliser, the type coercer, the chunked writer, the
    per-member conversion and the per-archive job.  Library calls (pandas,
    pyarrow, zipfile, pathlib) are given the small functional meaning the
    module relies on; every such place is marked. *)

From Stdlib Require Import ZArith QArith Qabs Qround Lia Ascii.
From stdpp Require Import gmap strings list pretty.

Close Scope Q_scope.
Local Open Scope Z_scope.

(** ** Python strings *)

Module PyStr.

(** The double-quote character, code point 34. *)
Definition dquote : ascii := Ascii.ascii_of_nat 34.
Definition dquote_str : string := String dquote EmptyString.

(** [s.startswith(p)]. *)
Definition startswith (p s : string) : bool := String.prefix p s.

(** [s.endswith(p)]: [p] is a prefix of [s] read backwards. *)
Definition endswith (p s : string) : bool :=
  String.prefix (String.rev p) (String.rev s).

(** The slice [s[1:-1]]: the characters from index 1 up to, and not
    including, index [len(s) - 1].  On a string of length 0 or 1 the slice
    is empty, which the truncated subtraction gives. *)
Definition slice_1_m1 (s : string) : string :=
  String.substring 1 (String.length s - 2) s.

(** [p in s] for strings. *)
Fixpoint contains (p s : string) : bool :=
  String.prefix p s ||
  match s with
  | EmptyString => false
  | String _ r => contains p r
  end.

(** [Path.name]: the component after the last slash. *)
Fixpoint name_from (acc s : string) : string :=
  match s with
  | EmptyString => acc
  | String c r =>
      if Ascii.eqb c "/"%char then name_from EmptyString r
      else name_from (acc +:+ String c EmptyString) r
  end.
Definition path_name (p : string) : string := name_from EmptyString p.

(** [Path.parent]: everything before the last slash. *)
Definition path_parent (p : string) : string :=
  String.substring 0 (String.length p - String.length (path_name p) - 1) p.

End PyStr.

(** ** Module constants *)

(** [N_COLUMNS = None]. *)
Definition N_COLUMNS : option nat := None.

(** [SIZE_THRESHOLD_BYTES = 200 * 1024 * 1024]. *)
Definition SIZE_THRESHOLD_BYTES : Z := 200 * 1024 * 1024.

(** [DEFAULT_CHUNKSIZE = 500_000]. *)
Definition DEFAULT_CHUNKSIZE : Z := 500000.

(** From [config.py]; paths are kept relative to the project root. *)
Definition BLD : string := "bld".
Definition RESOURCES : string := "resources".

(** ** Exceptions and results *)

Inductive exn :=
| ValueError (msg : string)
| TypeError (msg : string)
| OSError (msg : string)
| BadZipFile (msg : string)
| ReaderError (msg : string).

(** [str(e)]. *)
Definition exn_str (e : exn) : string :=
  match e with
  | ValueError m | TypeError m | OSError m | BadZipFile m | ReaderError m => m
  end.

Inductive result (A : Type) :=
| Ok (a : A)
| Raise (e : exn).
Arguments Ok {A} a.
Arguments Raise {A} e.

(** ** Data model *)

(** A [datetime.date]: a calendar day, with no time of day. *)
Record date := Date { year : Z; month : Z; day : Z }.

(** A float64 that is not [NaN]: a finite value, given by the rational it
    denotes, or an infinity. *)
Inductive float64 :=
| Finite (q : Q)
| Inf (negative : bool).

(** The range of a signed 64-bit integer. *)
Definition INT64_MIN : Z := - 2 ^ 63.
Definition INT64_MAX : Z := 2 ^ 63 - 1.

(** A pandas column.  [read_csv] is always called with [dtype=str],
    [keep_default_na=False] and [na_values=[]], so a column starts as an
    object column of [str] values ([SStr]).  [SDate] is an object column of
    [datetime.date] values and [NaT], [SNaT n] a [datetime64[ns]] column of
    [n] values that are all [NaT], [SFloat64] a float64 column with [NaN] as
    [None], and [SInt64] the nullable [Int64] extension type with [<NA>] as
    [None]; the values of an [SInt64] column that the module builds lie
    between [INT64_MIN] and [INT64_MAX]. *)
Inductive Series :=
| SStr (l : list string)
| SDate (l : list (option date))
| SNaT (n : nat)
| SFloat64 (l : list (option float64))
| SInt64 (l : list (option Z)).

(** The column type that [pa.Table.from_pandas] records in the schema.  For
    a float64, an [Int64] and a [datetime64[ns]] column it is the type of
    the column.  For an object column Arrow infers it from the values: a
    column of [str] is a string column and a column with a
    [datetime.date] in it is a date32 column, while an object column that
    holds no value at all, one without rows among them, is typed [null]. *)
Inductive dtype := TString | TDate32 | TTimestamp | TFloat64 | TInt64 | TNull.

Definition dtype_of (s : Series) : dtype :=
  match s with
  | SStr [] => TNull
  | SStr (_ :: _) => TString
  | SDate l => if existsb (λ v : option date, bool_decide (is_Some v)) l
               then TDate32 else TNull
  | SNaT _ => TTimestamp
  | SFloat64 _ => TFloat64
  | SInt64 _ => TInt64
  end.

Definition series_len (s : Series) : nat :=
  match s with
  | SStr l => length l
  | SDate l => length l
  | SNaT n => n
  | SFloat64 l => length l
  | SInt64 l => length l
  end.

(** A DataFrame: its columns in header order, each with its name. *)
Abbreviation DataFrame := (list (string * Series)).

(** [table.schema]: column names, their order and their types. *)
Abbreviation Schema := (list (string * dtype)).

Definition schema_of (df : DataFrame) : Schema :=
  map (λ cs, (cs.1, dtype_of cs.2)) df.

(** [df.columns]. *)
Definition columns (df : DataFrame) : list string := map fst df.

(** [col in df.columns]. *)
Definition has_column (col : string) (df : DataFrame) : bool :=
  bool_decide (col ∈ columns df).

(** [df[col]]. *)
Fixpoint get_column (col : string) (df : DataFrame) : option Series :=
  match df with
  | [] => None
  | (c, s) :: rest => if decide (c = col) then Some s else get_column col rest
  end.

(** [df[col] = f(df[col])] for a column that exists: the column keeps its
    place in the header. *)
Definition set_column (col : string) (f : Series → Series) (df : DataFrame)
  : DataFrame :=
  map (λ cs, if decide (cs.1 = col) then (cs.1, f cs.2) else cs) df.

(** [df[col] = f(df[col])] when computing the new column can raise: the
    frame is left as it was and the error goes up. *)
Fixpoint set_column_try (col : string) (f : Series → result Series)
    (df : DataFrame) : result DataFrame :=
  match df with
  | [] => Ok []
  | (c, s) :: rest =>
      if decide (c = col) then
        match f s with
        | Raise e => Raise e
        | Ok s' =>
            match set_column_try col f rest with
            | Raise e => Raise e
            | Ok rest' => Ok ((c, s') :: rest')
            end
        end
      else
        match set_column_try col f rest with
        | Raise e => Raise e
        | Ok rest' => Ok ((c, s) :: rest')
        end
  end.

(** [df.shape[0]]. *)
Definition nrows (df : DataFrame) : nat :=
  match df with
  | [] => 0%nat
  | (_, s) :: _ => series_len s
  end.

(** ** The two pandas parsers

    [pd.to_numeric(column, errors='coerce')] looks at the column as a whole
    and gives a numpy column of one type: int64, uint64 or float64.  In a
    float64 column [None] is [NaN]; the two integer types have no null. *)
Inductive int_kind := Kint64 | Kuint64.

Inductive Numeric :=
| NInt (k : int_kind) (l : list Z)
| NFloat (l : list (option float64)).

Definition numeric_len (n : Numeric) : nat :=
  match n with
  | NInt _ l => length l
  | NFloat l => length l
  end.

(** The parsers are pandas' own.  [to_numeric] is handed whatever column
    the frame has under a declared INTEGER name and keeps its length.
    [to_datetime] is [pd.to_datetime(..., format='%Y-%m-%d',
    errors='coerce')] on one [str] followed by [.date()]: with a format
    every value is parsed on its own, and [None] is [NaT]. *)
Class PandasParsers := {
  to_numeric : Series → Numeric;
  to_datetime : string → option date;
  to_numeric_len : ∀ s, numeric_len (to_numeric s) = series_len s
}.

(** ** Row normaliser *)

(** The lambda of [_strip_outer_quotes], on a [str]. *)
Definition strip_cell (x : string) : string :=
  if PyStr.startswith PyStr.dquote_str x && PyStr.endswith PyStr.dquote_str x
  then PyStr.slice_1_m1 x
  else x.

(** The [apply] over one column, guarded by [dtype == "object"].  A column
    of dates is an object column too, but none of its elements passes
    [isinstance(x, str)]. *)
Definition strip_series (s : Series) : Series :=
  match s with
  | SStr l => SStr (map strip_cell l)
  | SDate l => SDate l
  | SNaT n => SNaT n
  | SFloat64 l => SFloat64 l
  | SInt64 l => SInt64 l
  end.

Definition _strip_outer_quotes (df : DataFrame) : DataFrame :=
  map (λ cs, (cs.1, strip_series cs.2)) df.

(** ** Column limit *)

Definition apply_column_limit_with (n_columns : option nat) (df : DataFrame)
  : result DataFrame :=
  match n_columns with
  | Some n =>
      if (length df <? n)%nat
      then Raise (ValueError ("Expected at least " +:+ pretty n +:+
                              " columns, but got " +:+ pretty (length df)))
      else Ok (take n df)
  | None => Ok df
  end.

Definition _apply_column_limit : DataFrame → result DataFrame :=
  apply_column_limit_with N_COLUMNS.

(** ** Type coercer *)

Section Coercer.
Context `{PandasParsers}.

(** What [.dt.date] leaves in the frame.  The accessor hands back an object
    column of [datetime.date] values and [NaT]; on its way into the frame
    pandas looks at the values of an object column, and a column with rows
    whose values are all [NaT] becomes a [datetime64[ns]] column.  A column
    with a date in it, and a column without rows, stay object columns. *)
Definition dt_date (l : list (option date)) : Series :=
  match l with
  | [] => SDate []
  | _ :: _ =>
      if existsb (λ v : option date, bool_decide (is_Some v)) l
      then SDate l
      else SNaT (length l)
  end.

(** [pd.to_datetime(df[col], format='%Y-%m-%d', errors='coerce').dt.date].
    The frames this module builds hand only [str] columns to it; a column
    that already holds dates keeps them, and a numeric column, which has no
    value in the format, would come out all [NaT]. *)
Definition date_series (s : Series) : Series :=
  match s with
  | SStr l => dt_date (map to_datetime l)
  | SDate l => dt_date l
  | SNaT n => dt_date (replicate n None)
  | SFloat64 l => dt_date (map (λ _, None) l)
  | SInt64 l => dt_date (map (λ _, None) l)
  end.

Definition _parse_date_columns (df : DataFrame)
    (date_columns : option (gset string)) : DataFrame :=
  match date_columns with
  | None => df
  | Some cols =>
      set_fold (λ col df,
                  if has_column col df
                  then set_column col date_series df
                  else df)
               df cols
  end.

(** The values of a numeric column, read as float64 values; an integer
    column has no null. *)
Definition numeric_values (n : Numeric) : list (option float64) :=
  match n with
  | NInt _ l => map (λ z, Some (Finite (inject_Z z))) l
  | NFloat l => l
  end.

(** [round()] of one finite float64: to the nearest integer, a tie to the
    even one. *)
Definition round_half_even (q : Q) : Z :=
  let f := Qfloor q in
  match Qcompare (q - inject_Z f) (1 # 2) with
  | Lt => f
  | Gt => f + 1
  | Eq => if Z.even f then f else f + 1
  end.

(** [round()] of one float64; an infinity stays what it is. *)
Definition float_round (x : float64) : float64 :=
  match x with
  | Finite q => Finite (inject_Z (round_half_even q))
  | Inf b => Inf b
  end.

(** [numeric_series.round()]; an integer column is returned as it is. *)
Definition numeric_round (n : Numeric) : Numeric :=
  match n with
  | NInt k l => NInt k l
  | NFloat l => NFloat (map (option_map float_round) l)
  end.

(** [values.dtype] as it prints. *)
Definition dtype_name (n : Numeric) : string :=
  match n with
  | NInt Kint64 _ => "int64"
  | NInt Kuint64 _ => "uint64"
  | NFloat _ => "float64"
  end.

Definition fits_int64 (z : Z) : bool := (INT64_MIN <=? z) && (z <=? INT64_MAX).

(** One value of a float64 column cast to int64: the cast is accepted when
    the value it gives equals the value that went in, which a whole number
    between [INT64_MIN] and [INT64_MAX] does and no other value does. *)
Definition int64_of_float (x : float64) : option Z :=
  match x with
  | Finite q =>
      let z := Qfloor q in
      if Qeq_bool q (inject_Z z) && fits_int64 z then Some z else None
  | Inf _ => None
  end.

(** [astype('Int64')] on a numeric column.  pandas casts the values to
    int64 and raises [TypeError] unless every value that is not [NaN]
    comes out equal to what went in; [NaN] becomes [<NA>].  The values of an
    int64 column always pass. *)
Definition astype_Int64 (n : Numeric) : result (list (option Z)) :=
  let cast_error :=
    TypeError ("cannot safely cast non-equivalent " +:+ dtype_name n +:+
               " to int64") in
  match n with
  | NInt _ l =>
      if forallb fits_int64 l then Ok (map Some l) else Raise cast_error
  | NFloat l =>
      if forallb (λ v : option float64,
                    match v with
                    | None => true
                    | Some x => bool_decide (is_Some (int64_of_float x))
                    end) l
      then Ok (map (λ v : option float64, v ≫= int64_of_float) l)
      else Raise cast_error
  end.

(** The tolerance [1e-10]. *)
Definition TOLERANCE : Q := 1 # 10000000000.

Definition Qlt_bool (a b : Q) : bool := negb (Qle_bool b a).

(** One element of [(non_null_values - non_null_values.round()).abs() < 1e-10].
    For an infinity the difference is [NaN], and [NaN < 1e-10] is [False]. *)
Definition is_whole (x : float64) : bool :=
  match x with
  | Finite q => Qlt_bool (Qabs (q - inject_Z (round_half_even q))) TOLERANCE
  | Inf _ => false
  end.

(** The body of the loop of [_parse_integer_columns] for one column.  In
    the branch that keeps [numeric_series] the column is a float64 column:
    the values of an integer column are all whole. *)
Definition integer_series (s : Series) : result Series :=
  let numeric_series := to_numeric s in
  let non_null_mask :=
    map (λ v : option float64, bool_decide (is_Some v))
        (numeric_values numeric_series) in
  if existsb id non_null_mask then
    let non_null_values := omap id (numeric_values numeric_series) in
    if forallb is_whole non_null_values
    then match astype_Int64 (numeric_round numeric_series) with
         | Ok l => Ok (SInt64 l)
         | Raise e => Raise e
         end
    else Ok (SFloat64 (numeric_values numeric_series))
  else match astype_Int64 numeric_series with
       | Ok l => Ok (SInt64 l)
       | Raise e => Raise e
       end.

(** The loop stops at the first column whose cast raises. *)
Definition _parse_integer_columns (df : DataFrame)
    (integer_columns : option (gset string)) : result DataFrame :=
  match integer_columns with
  | None => Ok df
  | Some cols =>
      set_fold (λ col acc,
                  match acc with
                  | Raise e => Raise e
                  | Ok df =>
                      if has_column col df
                      then set_column_try col integer_series df
                      else Ok df
                  end)
               (Ok df) cols
  end.

(** The four steps applied to every chunk and to the whole frame alike. *)
Definition coerce_frame (date_columns integer_columns : option (gset string))
    (df : DataFrame) : result DataFrame :=
  match _apply_column_limit df with
  | Raise e => Raise e
  | Ok df =>
      let df := _strip_outer_quotes df in
      let df := _parse_date_columns df date_columns in
      _parse_integer_columns df integer_columns
  end.

End Coercer.

(** ** The world outside the module

    Files are kept in one store per kind; the paths of the kinds differ by
    their extensions ([.parquet], [.txt], [.zip], [.json]). *)

(** A Parquet file: the schema it was created with and the tables written
    to it so far, oldest first. *)
Record ParquetFile := { pf_schema : Schema; pf_tables : list DataFrame }.

(** What [read_csv] finds in a member: the header and the well-formed rows
    as columns of strings, and the error, if any, that the parser raises
    when it reads past them (a malformed line, a truncated stream). *)
Record Content := { table : DataFrame; defect : option exn }.

(** A [zipfile.ZipInfo] with the text behind it; [file_size] is the
    uncompressed size the archive records, and [open_error] is the error
    that [zip_ref.open(member)] raises for a member the archive lists and
    cannot hand out (a damaged local header, an encrypted member, a
    compression method the library does not have). *)
Record Member := {
  filename : string;
  file_size : Z;
  open_error : option exn;
  content : Content
}.

(** One object of the JSON array of a schema file; [field_type] is
    [field.get("type")]. *)
Record SchemaField := { field_name : string; field_type : option string }.

Record World := {
  parquet_files : gmap string ParquetFile;
  (** text files: what was written to each, one entry for each write, in
      order; the newline that ends every write of the module is left out *)
  text_files : gmap string (list string);
  (** archives; [None] is a file that is not a readable zip *)
  zip_files : gmap string (option (list Member));
  (** schema files; [None] is a file whose content does not load *)
  schema_files : gmap string (option (list SchemaField));
  directories : gset string;
  (** paths with an open Parquet writer handle *)
  open_writers : list string;
  (** paths of the archives opened so far, latest first *)
  zip_reads : list string;
  stdout : list string;
  (** how many more tables the disk takes; [None] is no limit *)
  disk_quota : option nat;
  (** paths that the file system refuses to create or to open, each with
      the error it raises for it *)
  denied : gmap string exn
}.

Definition with_parquet (f : gmap string ParquetFile → gmap string ParquetFile)
    (w : World) : World :=
  {| parquet_files := f (parquet_files w); text_files := text_files w;
     zip_files := zip_files w; schema_files := schema_files w;
     directories := directories w; open_writers := open_writers w;
     zip_reads := zip_reads w; stdout := stdout w;
     disk_quota := disk_quota w; denied := denied w |}.

Definition with_text (f : gmap string (list string) → gmap string (list string))
    (w : World) : World :=
  {| parquet_files := parquet_files w; text_files := f (text_files w);
     zip_files := zip_files w; schema_files := schema_files w;
     directories := directories w; open_writers := open_writers w;
     zip_reads := zip_reads w; stdout := stdout w;
     disk_quota := disk_quota w; denied := denied w |}.

Definition with_directories (f : gset string → gset string) (w : World) : World :=
  {| parquet_files := parquet_files w; text_files := text_files w;
     zip_files := zip_files w; schema_files := schema_files w;
     directories := f (directories w); open_writers := open_writers w;
     zip_reads := zip_reads w; stdout := stdout w;
     disk_quota := disk_quota w; denied := denied w |}.

Definition with_open_writers (f : list string → list string) (w : World) : World :=
  {| parquet_files := parquet_files w; text_files := text_files w;
     zip_files := zip_files w; schema_files := schema_files w;
     directories := directories w; open_writers := f (open_writers w);
     zip_reads := zip_reads w; stdout := stdout w;
     disk_quota := disk_quota w; denied := denied w |}.

Definition with_zip_reads (f : list string → list string) (w : World) : World :=
  {| parquet_files := parquet_files w; text_files := text_files w;
     zip_files := zip_files w; schema_files := schema_files w;
     directories := directories w; open_writers := open_writers w;
     zip_reads := f (zip_reads w); stdout := stdout w;
     disk_quota := disk_quota w; denied := denied w |}.

Definition with_stdout (f : list string → list string) (w : World) : World :=
  {| parquet_files := parquet_files w; text_files := text_files w;
     zip_files := zip_files w; schema_files := schema_files w;
     directories := directories w; open_writers := open_writers w;
     zip_reads := zip_reads w; stdout := f (stdout w);
     disk_quota := disk_quota w; denied := denied w |}.

Definition with_disk_quota (f : option nat → option nat) (w : World) : World :=
  {| parquet_files := parquet_files w; text_files := text_files w;
     zip_files := zip_files w; schema_files := schema_files w;
     directories := directories w; open_writers := open_writers w;
     zip_reads := zip_reads w; stdout := stdout w;
     disk_quota := f (disk_quota w); denied := denied w |}.

(** ** Effects: state passing with exceptions

    A computation runs on a world and gives a value or raises; what it did
    to the world before raising stays done. *)
Definition M (A : Type) : Type := World → result A * World.

Definition ret {A} (a : A) : M A := λ w, (Ok a, w).
Definition raise {A} (e : exn) : M A := λ w, (Raise e, w).
Definition bind {A B} (m : M A) (k : A → M B) : M B :=
  λ w, match m w with
       | (Ok a, w') => k a w'
       | (Raise e, w') => (Raise e, w')
       end.

Global Instance M_ret : MRet M := @ret.
Global Instance M_bind : MBind M := λ A B k m, bind m k.

(** [print(line)]. *)
Definition print (line : string) : M unit :=
  λ w, (Ok tt, with_stdout (λ out, out ++ [line]) w).

(** [path.mkdir(parents=True, exist_ok=True)]: the file system can refuse
    the directory. *)
Definition mkdir (path : string) : M unit :=
  λ w, match denied w !! path with
       | Some e => (Raise e, w)
       | None => (Ok tt, with_directories (λ d, {[path]} ∪ d) w)
       end.

(** [parquet.exists()]. *)
Definition parquet_exists (path : string) (w : World) : bool :=
  bool_decide (is_Some (parquet_files w !! path)).

(** [open(log_path, "a")]: the file is created when it is not there; the
    file system can refuse to open it. *)
Definition open_append (path : string) : M unit :=
  λ w, match denied w !! path with
       | Some e => (Raise e, w)
       | None => (Ok tt, with_text (λ t, match t !! path with
                                         | Some _ => t
                                         | None => <[path := []]> t
                                         end) w)
       end.

(** [log_file.write(line)] on a file opened for appending; a full disk
    takes no more text. *)
Definition log_write (path line : string) : M unit :=
  λ w, match disk_quota w with
       | Some O => (Raise (OSError "No space left on device"), w)
       | _ => (Ok tt,
               with_text (λ t, <[path := default [] (t !! path) ++ [line]]> t) w)
       end.

(** [zip_ref.open(member)]. *)
Definition open_member (member : Member) : M unit :=
  λ w, match open_error member with
       | Some e => (Raise e, w)
       | None => (Ok tt, w)
       end.

(** ** Schema resolver *)

(** The set comprehension [{field["name"] for field in schema if
    field.get("type") == ty}]. *)
Definition names_of_type (ty : string) (schema : list SchemaField) : gset string :=
  list_to_set (map field_name
                 (filter (λ f, field_type f = Some ty) schema)).

(** [s if s else None]. *)
Definition nonempty_or_None (s : gset string) : option (gset string) :=
  if decide (s = ∅) then None else Some s.

Definition schema_file_path (table_name dataset : string) : string :=
  RESOURCES +:+ "/patentsview_schemas/" +:+ dataset +:+
  "/schema_" +:+ table_name +:+ ".json".

Definition _get_column_types (table_name dataset : string) (w : World)
  : option (gset string) * option (gset string) :=
  match schema_files w !! schema_file_path table_name dataset with
  | None => (None, None)
  | Some None => (None, None)
  | Some (Some schema) =>
      (nonempty_or_None (names_of_type "DATE" schema),
       nonempty_or_None (names_of_type "INTEGER" schema))
  end.

(** ** Reading a member *)

Definition series_take (n : nat) (s : Series) : Series :=
  match s with
  | SStr l => SStr (take n l)
  | SDate l => SDate (take n l)
  | SNaT k => SNaT (k `min` n)
  | SFloat64 l => SFloat64 (take n l)
  | SInt64 l => SInt64 (take n l)
  end.

Definition series_drop (n : nat) (s : Series) : Series :=
  match s with
  | SStr l => SStr (drop n l)
  | SDate l => SDate (drop n l)
  | SNaT k => SNaT (k - n)
  | SFloat64 l => SFloat64 (drop n l)
  | SInt64 l => SInt64 (drop n l)
  end.

(** The first [n] rows, and the rows after them. *)
Definition frame_take (n : nat) (df : DataFrame) : DataFrame :=
  map (λ cs, (cs.1, series_take n cs.2)) df.
Definition frame_drop (n : nat) (df : DataFrame) : DataFrame :=
  map (λ cs, (cs.1, series_drop n cs.2)) df.

(** [pd.read_csv(...)] without [chunksize]: the whole member at once. *)
Definition read_csv (c : Content) : result DataFrame :=
  match defect c with
  | Some e => Raise e
  | None => Ok (table c)
  end.

(** What the chunked reader hands to the loop at each step. *)
Inductive item :=
| Chunk (df : DataFrame)
| Fail (e : exn).

(** Successive chunks of [size] rows while rows remain. *)
Fixpoint chunks_of (fuel size : nat) (df : DataFrame) : list DataFrame :=
  match fuel with
  | O => []
  | S fuel' =>
      if (nrows df =? 0)%nat then []
      else frame_take size df :: chunks_of fuel' size (frame_drop size df)
  end.

(** Iterating [pd.read_csv(..., chunksize=chunksize)].  A member with a
    header and no rows gives one empty chunk.  When the parser meets a
    defect, the chunks it completed before are delivered and the error is
    raised in place of the chunk it was reading. *)
Definition read_csv_chunks (chunksize : Z) (c : Content) : list item :=
  let size := Z.to_nat chunksize in
  let n := nrows (table c) in
  match defect c with
  | Some e =>
      map Chunk (chunks_of n size (frame_take (n / size * size) (table c)))
      ++ [Fail e]
  | None =>
      if (n =? 0)%nat then [Chunk (table c)]
      else map Chunk (chunks_of n size (table c))
  end.

(** ** Columnar writer *)

Global Instance dtype_eq_dec : EqDecision dtype.
Proof. solve_decision. Defined.

(** A [pq.ParquetWriter]: the path it writes to and the schema it was
    created with. *)
Record ParquetWriter := { w_path : string; w_schema : Schema }.

(** [pq.ParquetWriter(path, schema)]: the file is created, or emptied, and
    the handle is open. *)
Definition ParquetWriter_new (path : string) (schema : Schema) (w : World)
  : ParquetWriter * World :=
  ({| w_path := path; w_schema := schema |},
   with_open_writers (cons path)
     (with_parquet (insert path {| pf_schema := schema; pf_tables := [] |}) w)).

(** Appending one table to the file behind a path. *)
Definition append_table (path : string) (t : DataFrame)
    (files : gmap string ParquetFile) : gmap string ParquetFile :=
  match files !! path with
  | Some f => <[path := {| pf_schema := pf_schema f;
                          pf_tables := pf_tables f ++ [t] |}]> files
  | None => files
  end.

(** [writer.write_table(table)].  pyarrow compares the schema of the table
    with the schema of the writer and raises [ValueError] when they differ;
    the disk may refuse the write.  Of the message of the [ValueError] the
    opening clause is kept; pyarrow goes on with its own rendering of the
    two schemas. *)
Definition write_table (wr : ParquetWriter) (t : DataFrame) : M unit :=
  λ w,
    if decide (schema_of t = w_schema wr) then
      match disk_quota w with
      | Some O => (Raise (OSError "No space left on device"), w)
      | q => (Ok tt,
              with_disk_quota (λ _, pred <$> q)
                (with_parquet (append_table (w_path wr) t) w))
      end
    else (Raise (ValueError "Table schema does not match schema used to create file"), w).

(** [writer.close()]: the handle is released. *)
Definition writer_close (wr : ParquetWriter) : M unit :=
  λ w, (Ok tt, with_open_writers (λ hs, list_difference hs [w_path wr]) w).

(** [df.to_parquet(path, index=False)]: one table, written whole; when the
    write fails pyarrow removes what it created. *)
Definition to_parquet (df : DataFrame) (path : string) : M unit :=
  λ w,
    match disk_quota w with
    | Some O => (Raise (OSError "No space left on device"),
                 with_parquet (delete path) w)
    | q => (Ok tt,
            with_disk_quota (λ _, pred <$> q)
              (with_parquet (insert path {| pf_schema := schema_of df;
                                            pf_tables := [df] |}) w))
    end.

(** [chunk.shape] as it prints. *)
Definition shape_str (df : DataFrame) : string :=
  "(" +:+ pretty (nrows df) +:+ ", " +:+ pretty (length df) +:+ ")".

Section Writer.
Context `{PandasParsers}.

(** The [for] loop of [_write_parquet_streaming] from chunk number [i] on,
    with the local variable [writer].  The variable is returned along
    with the outcome because the [finally] clause reads it whichever way
    the loop ends. *)
Fixpoint streaming_loop (items : list item) (i : nat)
    (parquet_path log_prefix : string)
    (date_columns integer_columns : option (gset string))
    (writer : option ParquetWriter) (w : World)
  : result unit * option ParquetWriter * World :=
  match items with
  | [] => (Ok tt, writer, w)
  | Fail e :: _ => (Raise e, writer, w)
  | Chunk chunk :: rest =>
      let w := (print (log_prefix +:+ " â€“ chunk " +:+ pretty i +:+
                       ", shape=" +:+ shape_str chunk) w).2 in
      match coerce_frame date_columns integer_columns chunk with
      | Raise e => (Raise e, writer, w)
      | Ok chunk =>
          let table := chunk in
          let '(opened, w) :=
            match writer with
            | None =>
                match mkdir (PyStr.path_parent parquet_path) w with
                | (Raise e, w) => (Raise e, w)
                | (Ok _, w) =>
                    let '(wr, w) :=
                      ParquetWriter_new parquet_path (schema_of table) w in
                    (Ok wr, w)
                end
            | Some wr => (Ok wr, w)
            end in
          match opened with
          | Raise e => (Raise e, writer, w)
          | Ok wr =>
              match write_table wr table w with
              | (Raise e, w) => (Raise e, Some wr, w)
              | (Ok _, w) =>
                  streaming_loop rest (S i) parquet_path log_prefix
                    date_columns integer_columns (Some wr) w
              end
          end
      end
  end.

(** [_write_parquet_streaming]: the reader, the loop inside [try], and the
    [finally] clause that closes the writer when there is one. *)
Definition _write_parquet_streaming (tsv_stream : Content)
    (parquet_path log_prefix : string) (chunksize : Z)
    (date_columns integer_columns : option (gset string)) : M unit :=
  λ w,
    if chunksize <? 1
    then (Raise (ValueError "'chunksize' must be an integer >=1"), w)
    else
      let reader := read_csv_chunks chunksize tsv_stream in
      let '(r, writer, w) :=
        streaming_loop reader 0 parquet_path log_prefix
          date_columns integer_columns None w in
      match writer with
      | Some wr => (r, (writer_close wr w).2)
      | None => (r, w)
      end.

End Writer.

(** ** Converting one member *)

(** The strategy the size classifier picks. *)
Inductive Strategy := STREAMING | BUFFERED.

(** [use_streaming = member.file_size >= SIZE_THRESHOLD_BYTES]. *)
Definition use_streaming (member : Member) : bool :=
  SIZE_THRESHOLD_BYTES <=? file_size member.

Definition strategy_of (member : Member) : Strategy :=
  if use_streaming member then STREAMING else BUFFERED.

(** [100_000 if "abstract" in table_name else DEFAULT_CHUNKSIZE]. *)
Definition lower_chunksize (table_name : string) : Z :=
  if PyStr.contains "abstract" table_name then 100000 else DEFAULT_CHUNKSIZE.

Definition streaming_log_line (table_name : string) (member : Member) : string :=
  table_name +:+ ": STREAMING (size=" +:+ pretty (file_size member) +:+
  " bytes, chunksize=" +:+ pretty (lower_chunksize table_name) +:+ ")".

Definition in_memory_log_line (table_name : string) (member : Member)
    (df : DataFrame) : string :=
  table_name +:+ ": IN_MEMORY (size=" +:+ pretty (file_size member) +:+
  " bytes, rows=" +:+ pretty (nrows df) +:+ ", cols=" +:+ pretty (length df) +:+ ")".

(** [repr(s)] of a [str], as the elements of a list print.  The quote is
    the single quote unless the string has a single quote and no double
    quote in it; the backslash, the quote in use and the control characters
    are escaped.  Characters outside ASCII are copied as they are. *)
Module PyRepr.

Definition squote : ascii := "'"%char.
Definition backslash : ascii := Ascii.ascii_of_nat 92.

Definition hex_digit (n : nat) : ascii :=
  Ascii.ascii_of_nat (if (n <? 10)%nat then 48 + n else 87 + n).

Definition has_char (c : ascii) (s : string) : bool :=
  existsb (Ascii.eqb c) (String.list_ascii_of_string s).

Definition quote_of (s : string) : ascii :=
  if has_char squote s && negb (has_char PyStr.dquote s)
  then PyStr.dquote else squote.

Definition escape_char (quote c : ascii) : list ascii :=
  let n := Ascii.nat_of_ascii c in
  if Ascii.eqb c quote || Ascii.eqb c backslash then [backslash; c]
  else if (n =? 9)%nat then [backslash; "t"%char]
  else if (n =? 10)%nat then [backslash; "n"%char]
  else if (n =? 13)%nat then [backslash; "r"%char]
  else if (n <? 32)%nat || (n =? 127)%nat
       then [backslash; "x"%char; hex_digit (n / 16); hex_digit (n mod 16)]
  else [c].

Definition repr (s : string) : string :=
  let quote := quote_of s in
  String.string_of_list_ascii
    ([quote] ++ concat (map (escape_char quote) (String.list_ascii_of_string s))
     ++ [quote]).

End PyRepr.

(** [print(f"Columns: {df.columns.tolist()}")]: a list prints the [repr]
    of its elements. *)
Definition columns_str (df : DataFrame) : string :=
  "Columns: [" +:+ String.concat ", " (map PyRepr.repr (columns df)) +:+ "]".

(** [BLD / "converted" / dataset] and the log inside it. *)
Definition converted_dir (dataset : string) : string :=
  BLD +:+ "/converted/" +:+ dataset.
Definition conversion_log_path (dataset : string) : string :=
  converted_dir dataset +:+ "/conversion_log.txt".

Section Convert.
Context `{PandasParsers}.

(** The two branches of [_convert_member_to_parquet].  Both run inside
    [with zip_ref.open(member) as tsv_file], so each starts by opening the
    member. *)

(** The [else] branch: the member is read whole, coerced and written in
    one piece. *)
Definition convert_in_memory (member : Member)
    (table_name parquet_path log_file : string)
    (date_columns integer_columns : option (gset string)) : M unit :=
  open_member member;;
  match read_csv (content member) with
  | Raise e => raise e
  | Ok df =>
      print ("Loaded DataFrame with shape " +:+ shape_str df);;
      print (columns_str df);;
      match coerce_frame date_columns integer_columns df with
      | Raise e => raise e
      | Ok df =>
          mkdir (PyStr.path_parent parquet_path);;
          to_parquet df parquet_path;;
          log_write log_file (in_memory_log_line table_name member df);;
          print ("Converted " +:+ filename member +:+ " to " +:+
                 parquet_path +:+ " (in-memory)")
      end
  end.

(** The [if] branch: a log line, then the chunked writer. *)
Definition convert_streaming (member : Member)
    (table_name parquet_path log_file : string)
    (date_columns integer_columns : option (gset string)) : M unit :=
  let log_prefix := filename member in
  open_member member;;
  print (log_prefix +:+ ": using streaming conversion (size=" +:+
         pretty (file_size member) +:+ " bytes).");;
  log_write log_file (streaming_log_line table_name member);;
  _write_parquet_streaming (content member) parquet_path log_prefix
    (lower_chunksize table_name) date_columns integer_columns;;
  print ("Converted " +:+ filename member +:+ " (streaming) to " +:+
         parquet_path).

Definition _convert_member_to_parquet (member : Member)
    (table_name parquet_path log_file dataset : string) : M unit :=
  λ w,
    let '(date_columns, integer_columns) :=
      _get_column_types table_name dataset w in
    if use_streaming member
    then convert_streaming member table_name parquet_path log_file
           date_columns integer_columns w
    else convert_in_memory member table_name parquet_path log_file
           date_columns integer_columns w.

(** ** The job for one archive *)

(** [for member in members: _convert_member_to_parquet(...)]. *)
Fixpoint convert_members (members : list Member)
    (table parquet log_file dataset : string) : M unit :=
  match members with
  | [] => ret tt
  | member :: rest =>
      _convert_member_to_parquet member table parquet log_file dataset;;
      convert_members rest table parquet log_file dataset
  end.

(** [zipfile.ZipFile(zip_path, "r")]: the opening is recorded. *)
Definition open_zip (zip_path : string) : M (list Member) :=
  λ w,
    let w := with_zip_reads (cons zip_path) w in
    match zip_files w !! zip_path with
    | Some (Some members) => (Ok members, w)
    | Some None => (Raise (BadZipFile "File is not a zip file"), w)
    | None => (Raise (OSError ("No such file or directory: " +:+ zip_path)), w)
    end.

(** The body of the [try] of [convert_zip]. *)
Definition convert_zip_body (zip_path table parquet dataset log_path : string)
  : M unit :=
  infolist ← open_zip zip_path;
  let members := filter (λ m, PyStr.endswith ".tsv" (filename m) = true) infolist in
  match members with
  | [] => raise (ValueError ("No TSV members found in " +:+ zip_path))
  | _ => convert_members members table parquet log_path dataset
  end;;
  print ("Conversion complete: " +:+ parquet).

(** [except Exception as e: log_file.write(...); print(...); raise].  An
    error raised by the write of the handler takes the place of [e]. *)
Definition try_except_log (body : M unit) (zip_path dataset log_path : string)
  : M unit :=
  λ w,
    match body w with
    | (Ok a, w) => (Ok a, w)
    | (Raise e, w) =>
        match log_write log_path
                (PyStr.path_name zip_path +:+ ": ERROR - " +:+ exn_str e) w with
        | (Raise e', w) => (Raise e', w)
        | (Ok _, w) =>
            let w := (print ("[" +:+ dataset +:+ "] Failed to convert " +:+
                             zip_path +:+ ": " +:+ exn_str e) w).2 in
            (Raise e, w)
        end
    end.

Definition convert_zip (zip_path table parquet dataset : string) : M unit :=
  λ w,
    if parquet_exists parquet w then
      print ("Skipping " +:+ PyStr.path_name parquet +:+ " (already converted)") w
    else
      let dataset_converted_dir := converted_dir dataset in
      let log_path := conversion_log_path dataset in
      (mkdir dataset_converted_dir;;
       open_append log_path;;
       print ("[" +:+ dataset +:+ "] Extracting and converting " +:+
              PyStr.path_name zip_path);;
       try_except_log (convert_zip_body zip_path table parquet dataset log_path)
         zip_path dataset log_path) w.

End Convert.

(** ** Concrete parsers

    The parsers are not part of the module.  For the examples they are
    read off what pandas does on the values that occur in them: the
    patterns of [strptime] and the range of nanosecond timestamps for a
    DATE value, plain decimal literals and the typing of a whole column for
    an INTEGER column.  The properties of the coercer are proved for every
    parser; only the examples run these. *)

Module Parsers.

Definition digit_val (c : ascii) : option Z :=
  let n := Z.of_nat (Ascii.nat_of_ascii c) in
  if (48 <=? n) && (n <=? 57) then Some (n - 48) else None.

Definition is_digit (c : ascii) : bool := bool_decide (is_Some (digit_val c)).

(** The value of a run of decimal digits, most significant first. *)
Fixpoint digits_val (acc : Z) (l : list ascii) : option Z :=
  match l with
  | [] => Some acc
  | c :: rest =>
      match digit_val c with
      | Some d => digits_val (10 * acc + d) rest
      | None => None
      end
  end.

(** Splitting a run of characters at the first hyphen. *)
Fixpoint split_hyphen (l : list ascii) : list ascii * option (list ascii) :=
  match l with
  | [] => ([], None)
  | c :: rest =>
      if Ascii.eqb c "-"%char then ([], Some rest)
      else let '(a, b) := split_hyphen rest in (c :: a, b)
  end.

(** The fields of [%Y-%m-%d]: a year of four digits; a month of one or two
    digits; a day of one or two digits, or of a blank and one digit. *)
Definition year_field (l : list ascii) : option Z :=
  match l with
  | [_; _; _; _] => digits_val 0 l
  | _ => None
  end.

Definition month_field (l : list ascii) : option Z :=
  match l with
  | [_] | [_; _] =>
      match digits_val 0 l with
      | Some m => if (1 <=? m) && (m <=? 12) then Some m else None
      | None => None
      end
  | _ => None
  end.

Definition day_field (l : list ascii) : option Z :=
  let digits :=
    match l with
    | [c; d] => if Ascii.eqb c " "%char then [d] else l
    | _ => l
    end in
  match digits with
  | [_] | [_; _] =>
      match digits_val 0 digits with
      | Some d => if (1 <=? d) && (d <=? 31) then Some d else None
      | None => None
      end
  | _ => None
  end.

Definition is_leap (y : Z) : bool :=
  ((y mod 4 =? 0) && negb (y mod 100 =? 0)) || (y mod 400 =? 0).

Definition days_in_month (y m : Z) : Z :=
  if m =? 2 then (if is_leap y then 29 else 28)
  else if (m =? 4) || (m =? 6) || (m =? 9) || (m =? 11) then 30
  else 31.

(** A day of the calendar. *)
Definition valid_date (y m d : Z) : bool :=
  (1 <=? y) && (1 <=? m) && (m <=? 12) && (1 <=? d) && (d <=? days_in_month y m).

(** A day whose midnight is a nanosecond timestamp: from 1677-09-22 to
    2262-04-11. *)
Definition in_timestamp_range (y m d : Z) : bool :=
  let key := y * 10000 + m * 100 + d in
  (16770922 <=? key) && (key <=? 22620411).

(** One DATE value: a string that does not have the fields, the empty
    string among them, names no day of the calendar or lies outside the
    range of timestamps has no value. *)
Definition strptime_Ymd (s : string) : option date :=
  match split_hyphen (String.list_ascii_of_string s) with
  | (ys, Some rest) =>
      match split_hyphen rest with
      | (ms, Some ds) =>
          match year_field ys, month_field ms, day_field ds with
          | Some y, Some m, Some d =>
              if valid_date y m d && in_timestamp_range y m d
              then Some (Date y m d) else None
          | _, _, _ => None
          end
      | (_, None) => None
      end
  | (_, None) => None
  end.

(** The power of two with exponent [k]. *)
Definition pow2 (k : Z) : Q :=
  if 0 <=? k then inject_Z (2 ^ k) else 1 # Z.to_pos (2 ^ (- k)).

Fixpoint trailing_zeros (p : positive) : Z :=
  match p with
  | xO p' => 1 + trailing_zeros p'
  | _ => 0
  end.

(** [m * 2 ^ u] in lowest terms, for a positive [m]. *)
Definition dyadic (m u : Z) : Q :=
  if 0 <=? u then inject_Z (Z.shiftl m u)
  else
    let zeros := match m with Zpos p => trailing_zeros p | _ => 0 end in
    let k := Z.min zeros (- u) in
    Z.shiftr m k # Z.to_pos (2 ^ (- u - k)).

(** The float64 nearest to a rational, a tie to the even one: 53 bits
    down to the exponent of the subnormal numbers, and an infinity from
    [2 ^ 1024] on. *)
Definition binary64_of_Q (q : Q) : float64 :=
  if Qnum q =? 0 then Finite 0
  else
    let negative := Qnum q <? 0 in
    let a := Qabs q in
    let e0 := Z.log2 (Z.abs (Qnum q)) - Z.log2 (Zpos (Qden q)) in
    let e := if Qle_bool (pow2 e0) a then e0 else e0 - 1 in
    let u := Z.max (e - 52) (- 1074) in
    let m := round_half_even (a / pow2 u) in
    if m =? 0 then Finite 0
    else if (0 <=? u) && (1024 <=? Z.log2 m + u) then Inf negative
    else Finite (if negative then - dyadic m u else dyadic m u).

(** What one [str] of a column is read as: an integer literal, with its
    value, or a float64, [None] being [NaN]; a string that is no number is
    coerced to [NaN]. *)
Inductive cell :=
| CInt (z : Z)
| CFloat (x : option float64).

Definition lower (c : ascii) : ascii :=
  let n := Ascii.nat_of_ascii c in
  if ((65 <=? n) && (n <=? 90))%nat then Ascii.ascii_of_nat (n + 32) else c.

Definition split_sign (l : list ascii) : bool * list ascii :=
  match l with
  | c :: rest =>
      if Ascii.eqb c "-"%char then (true, rest)
      else if Ascii.eqb c "+"%char then (false, rest)
      else (false, l)
  | [] => (false, [])
  end.

(** The longest run of digits a list of characters starts with, and what
    follows it. *)
Fixpoint span_digits (l : list ascii) : list ascii * list ascii :=
  match l with
  | c :: rest =>
      if is_digit c
      then let '(a, b) := span_digits rest in (c :: a, b)
      else ([], l)
  | [] => ([], [])
  end.

(** An optional exponent: [e] or [E], a sign, digits. *)
Definition exponent (l : list ascii) : option (option Z * list ascii) :=
  match l with
  | c :: rest =>
      if Ascii.eqb (lower c) "e"%char then
        let '(negative, rest) := split_sign rest in
        let '(ds, rest) := span_digits rest in
        match ds, digits_val 0 ds with
        | _ :: _, Some n => Some (Some (if negative then - n else n), rest)
        | _, _ => None
        end
      else Some (None, l)
  | [] => Some (None, [])
  end.

Definition scale (mantissa exp10 : Z) : Q :=
  if 0 <=? exp10 then inject_Z (mantissa * 10 ^ exp10)
  else mantissa # Z.to_pos (10 ^ (- exp10)).

(** A decimal literal: a sign, digits with a dot somewhere among them or
    none, an exponent.  Without a dot and without an exponent it is an
    integer literal. *)
Definition decimal (l : list ascii) : option cell :=
  let '(negative, l) := split_sign l in
  let '(ip, l) := span_digits l in
  let '(fp, l, has_dot) :=
    match l with
    | c :: rest =>
        if Ascii.eqb c "."%char
        then let '(fp, rest) := span_digits rest in (fp, rest, true)
        else ([], l, false)
    | [] => ([], [], false)
    end in
  match ip ++ fp, digits_val 0 (ip ++ fp), exponent l with
  | _ :: _, Some mantissa, Some (ex, []) =>
      let mantissa := if negative then - mantissa else mantissa in
      match has_dot, ex with
      | false, None => Some (CInt mantissa)
      | _, _ =>
          let q := scale mantissa (default 0 ex - Z.of_nat (length fp)) in
          Some (CFloat (Some (binary64_of_Q q)))
      end
  | _, _, _ => None
  end.

(** The names of the infinities and of [NaN], in any case and with a
    sign. *)
Definition special (l : list ascii) : option cell :=
  let '(negative, l) := split_sign l in
  let name := String.string_of_list_ascii (map lower l) in
  if bool_decide (name = "inf") || bool_decide (name = "infinity")
  then Some (CFloat (Some (Inf negative)))
  else if bool_decide (name = "nan") then Some (CFloat None)
  else None.

Definition parse_cell (s : string) : cell :=
  let l := String.list_ascii_of_string s in
  match special l with
  | Some c => c
  | None => default (CFloat None) (decimal l)
  end.

Definition UINT64_MAX : Z := 2 ^ 64 - 1.

Definition cell_float (c : cell) : option float64 :=
  match c with
  | CInt z => Some (binary64_of_Q (inject_Z z))
  | CFloat x => x
  end.

Definition cell_int (c : cell) : Z :=
  match c with
  | CInt z => z
  | CFloat _ => 0
  end.

(** A column of [str] values, typed as a whole: float64 as soon as one
    value is not an integer literal, lies outside both integer ranges, or
    the column has a negative value beside one above [INT64_MAX]; uint64
    when a value lies above [INT64_MAX]; int64 otherwise. *)
Definition numeric_of_strings (l : list string) : Numeric :=
  let cells := map parse_cell l in
  let floating (c : cell) :=
    match c with
    | CInt z => (z <? INT64_MIN) || (UINT64_MAX <? z)
    | CFloat _ => true
    end in
  let above (c : cell) :=
    match c with CInt z => INT64_MAX <? z | CFloat _ => false end in
  let below (c : cell) :=
    match c with CInt z => z <? 0 | CFloat _ => false end in
  if existsb floating cells || (existsb above cells && existsb below cells)
  then NFloat (map cell_float cells)
  else if existsb above cells
       then NInt Kuint64 (map cell_int cells)
       else NInt Kint64 (map cell_int cells).

(** [pd.to_numeric(column, errors='coerce')].  A column of dates has no
    number in it, a [datetime64[ns]] column is read as the integers that
    stand for its values, [INT64_MIN] for [NaT], and a numeric column
    keeps its values. *)
Definition numeric_of_series (s : Series) : Numeric :=
  match s with
  | SStr l => numeric_of_strings l
  | SDate l => NFloat (map (λ _, None) l)
  | SNaT n => NInt Kint64 (replicate n INT64_MIN)
  | SFloat64 l => NFloat l
  | SInt64 l => NFloat (map (option_map (λ z, Finite (inject_Z z))) l)
  end.

End Parsers.

Global Instance spec_parsers : PandasParsers.
Proof.
  refine {| to_numeric := Parsers.numeric_of_series;
            to_datetime := Parsers.strptime_Ymd |}.
  intros [l|l|n|l|l]; simpl;
    rewrite ?length_map, ?length_replicate; try reflexivity.
  unfold Parsers.numeric_of_strings.
  repeat case_match; simpl; by rewrite !length_map.
Defined.

(** An empty world with no limit on the disk. *)
Definition empty_world : World :=
  {| parquet_files := ∅; text_files := ∅; zip_files := ∅; schema_files := ∅;
     directories := ∅; open_writers := []; zip_reads := []; stdout := [];
     disk_quota := None; denied := ∅ |}.

(** ** What the coercion loops compute

    Both loops visit the declared names in the order of a Python set and
    rewrite the column of each name that the header has.  The outcome does
    not depend on the order: every column whose name is declared is
    rewritten once, in place. *)
Definition map_declared (declared : gset string) (f : Series → Series)
    (df : DataFrame) : DataFrame :=
  map (λ cs, if decide (cs.1 ∈ declared) then (cs.1, f cs.2) else cs) df.

(** The same for a column function that can raise.  The columns are taken
    in header order; the loop takes them in the order of the set, so the
    two agree on the frame when no column raises and on raising when one
    does, but not on which error is raised when several columns do. *)
Fixpoint try_map_declared (declared : gset string) (f : Series → result Series)
    (df : DataFrame) : result DataFrame :=
  match df with
  | [] => Ok []
  | (c, s) :: rest =>
      match (if decide (c ∈ declared) then f s else Ok s) with
      | Raise e => Raise e
      | Ok s' =>
          match try_map_declared declared f rest with
          | Raise e => Raise e
          | Ok rest' => Ok ((c, s') :: rest')
          end
      end
  end.

(** Two outcomes that are the same value, or both an error. *)
Definition same_outcome {A} (r1 r2 : result A) : Prop :=
  match r1, r2 with
  | Ok a, Ok b => a = b
  | Raise _, Raise _ => True
  | _, _ => False
  end.

(** A file that carries one schema throughout. *)
Definition uniform_file (schema : Schema) (f : ParquetFile) : Prop :=
  pf_schema f = schema ∧ Forall (λ t, schema_of t = schema) (pf_tables f).

(** What a Parquet file holds, in short: its schema and the number of rows
    of each table written to it. *)
Definition written_summary (path : string) (w : World)
  : option (Schema * list Z) :=
  (λ f, (pf_schema f, map (λ t, Z.of_nat (nrows t)) (pf_tables f)))
    <$> parquet_files w !! path.

(** The schema of every chunk as the loop of [_write_parquet_streaming]
    hands it to the writer. *)
Definition chunk_schemas `{PandasParsers}
    (date_columns integer_columns : option (gset string))
    (items : list item) : list (option Schema) :=
  map (λ it, match it with
             | Chunk chunk =>
                 match coerce_frame date_columns integer_columns chunk with
                 | Ok table => Some (schema_of table)
                 | Raise _ => None
                 end
             | Fail _ => None
             end) items.

(** A parsed value counts as whole when it is finite and lies within the
    tolerance of its own rounded value. *)
Definition near_integer (x : float64) : Prop :=
  match x with
  | Finite q => (Qabs (q - inject_Z (round_half_even q)) < TOLERANCE)%Q
  | Inf _ => False
  end.

(** ** Inputs used in the examples below *)

Module Examples.

(** A member at the threshold and a member one byte short of it. *)
Definition tiny_content : Content :=
  {| table := [("id", SStr ["1"])]; defect := None |}.
Definition member_at_threshold : Member :=
  {| filename := "g_patent.tsv"; file_size := SIZE_THRESHOLD_BYTES;
     open_error := None; content := tiny_content |}.
Definition member_below_threshold : Member :=
  {| filename := "g_patent.tsv"; file_size := SIZE_THRESHOLD_BYTES - 1;
     open_error := None; content := tiny_content |}.

(** A frame whose only cell is the one-character string made of a double
    quote. *)
Definition lone_quote_frame : DataFrame := [("title", SStr [PyStr.dquote_str])].

(** Chunks with one declared INTEGER column and one declared DATE
    column. *)
Definition whole_chunk : DataFrame := [("num_claims", SStr ["1"; "2"; "3"])].
Definition fractional_chunk : DataFrame :=
  [("num_claims", SStr ["1"; "2.5"; "3"])].
Definition blank_chunk : DataFrame := [("num_claims", SStr [""; "n/a"])].
Definition date_chunk : DataFrame :=
  [("patent_date", SStr ["2020-01-05"; "01/05/2020"; ""])].

(** A member of 100001 rows whose declared INTEGER column holds whole
    numbers in its first 100000 rows and [2.5] in the last one, once with
    a recorded size at the threshold and once with a recorded size below
    it.  Only the declared column is shown; the text columns that make up
    the bulk of such a member pass through both strategies as strings.
    The name of the table contains [abstract], so the member is read in
    chunks of 100000 rows. *)
Definition abstract_table : string := "g_abstract".
Definition abstract_content : Content :=
  {| table := [("word_count",
                SStr (replicate (Z.to_nat 100000) "1" ++ ["2.5"]))];
     defect := None |}.
Definition abstract_streamed : Member :=
  {| filename := "g_abstract.tsv"; file_size := SIZE_THRESHOLD_BYTES;
     open_error := None; content := abstract_content |}.
Definition abstract_buffered : Member :=
  {| filename := "g_abstract.tsv"; file_size := SIZE_THRESHOLD_BYTES - 1;
     open_error := None; content := abstract_content |}.
Definition abstract_parquet : string :=
  "bld/converted/granted/g_abstract_20251209.parquet".
Definition abstract_log : string := "bld/converted/granted/conversion_log.txt".
(** The schema file of the table declares the column INTEGER. *)
Definition abstract_world : World :=
  {| parquet_files := ∅; text_files := ∅; zip_files := ∅;
     schema_files :=
       {[ schema_file_path abstract_table "granted" :=
            Some [ {| field_name := "word_count";
                      field_type := Some "INTEGER" |} ] ]};
     directories := ∅; open_writers := []; zip_reads := []; stdout := [];
     disk_quota := None; denied := ∅ |}.

(** The two conversions of the member, each from the same world. *)
Definition abstract_streamed_run : result unit * World :=
  _convert_member_to_parquet abstract_streamed abstract_table
    abstract_parquet abstract_log "granted" abstract_world.
Definition abstract_buffered_run : result unit * World :=
  _convert_member_to_parquet abstract_buffered abstract_table
    abstract_parquet abstract_log "granted" abstract_world.

(** A chunk whose declared INTEGER column holds a whole number that no
    64-bit integer can hold. *)
Definition huge_chunk : DataFrame :=
  [("num_claims", SStr ["1"; "99999999999999999999"])].

(** A member of 100001 rows whose declared DATE column holds a date in its
    first 100000 rows and nothing in the last one, once with a recorded
    size at the threshold and once with a recorded size below it. *)
Definition dated_content : Content :=
  {| table := [("filing_date",
                SStr (replicate (Z.to_nat 100000) "2020-01-05" ++ [""]))];
     defect := None |}.
Definition dated_streamed : Member :=
  {| filename := "g_abstract.tsv"; file_size := SIZE_THRESHOLD_BYTES;
     open_error := None; content := dated_content |}.
Definition dated_buffered : Member :=
  {| filename := "g_abstract.tsv"; file_size := SIZE_THRESHOLD_BYTES - 1;
     open_error := None; content := dated_content |}.
(** The schema file of the table declares the column DATE. *)
Definition dated_world : World :=
  {| parquet_files := ∅; text_files := ∅; zip_files := ∅;
     schema_files :=
       {[ schema_file_path abstract_table "granted" :=
            Some [ {| field_name := "filing_date";
                      field_type := Some "DATE" |} ] ]};
     directories := ∅; open_writers := []; zip_reads := []; stdout := [];
     disk_quota := None; denied := ∅ |}.
Definition dated_streamed_run : result unit * World :=
  _convert_member_to_parquet dated_streamed abstract_table
    abstract_parquet abstract_log "granted" dated_world.
Definition dated_buffered_run : result unit * World :=
  _convert_member_to_parquet dated_buffered abstract_table
    abstract_parquet abstract_log "granted" dated_world.

(** A member whose parser fails after two rows. *)
Definition broken_content : Content :=
  {| table := [("id", SStr ["1"; "2"])];
     defect := Some (ReaderError "Expected 1 fields in line 4, saw 2") |}.

Definition table_name : string := "g_patent".
Definition dataset : string := "granted".
Definition zip_path : string := "bld/raw/granted/g_patent.tsv.zip".
Definition parquet_path : string := "bld/converted/granted/g_patent_20251209.parquet".
Definition log_path : string := "bld/converted/granted/conversion_log.txt".

(** An archive that holds a read-me and no [.tsv] member. *)
Definition readme : Member :=
  {| filename := "README.txt"; file_size := 12; open_error := None;
     content := tiny_content |}.
Definition world_without_tsv : World :=
  {| parquet_files := ∅; text_files := ∅;
     zip_files := {[ zip_path := Some [readme] ]}; schema_files := ∅;
     directories := ∅; open_writers := []; zip_reads := []; stdout := [];
     disk_quota := None; denied := ∅ |}.

(** The same archive when the target of its job is already there. *)
Definition earlier_output : ParquetFile :=
  {| pf_schema := [("id", TString)]; pf_tables := [[("id", SStr ["1"])]] |}.
Definition world_already_converted : World :=
  with_parquet (insert parquet_path earlier_output) world_without_tsv.

End Examples.

(** ** Notions used to state further properties *)

(** Wrapping a value in one pair of double quotes. *)
Definition quoted (v : string) : string :=
  PyStr.dquote_str +:+ v +:+ PyStr.dquote_str.

(** The lengths of the columns, in header order. *)
Definition column_lengths (df : DataFrame) : list nat :=
  map (λ cs, series_len cs.2) df.

(** Every column is a column of strings, as [read_csv] delivers them. *)
Definition all_str (df : DataFrame) : Prop :=
  Forall (λ cs : string * Series, ∃ l, cs.2 = SStr l) df.

(** Every column has as many values as the frame has rows. *)
Definition rectangular (df : DataFrame) : Prop :=
  Forall (λ cs : string * Series, series_len cs.2 = nrows df) df.

(** The names a schema file declares with a given type. *)
Definition declares (schema : list SchemaField) (name ty : string) : Prop :=
  ∃ f, f ∈ schema ∧ field_name f = name ∧ field_type f = Some ty.

(** One step of the two coercion loops, for a column function [f]. *)
Definition coercion_step (f : Series → Series) (col : string) (df : DataFrame)
  : DataFrame :=
  if has_column col df then set_column col f df else df.

(** The same for a column function that can raise: once a step has raised
    the loop is over. *)
Definition coercion_step_try (f : Series → result Series) (col : string)
    (acc : result DataFrame) : result DataFrame :=
  match acc with
  | Raise e => Raise e
  | Ok df => if has_column col df then set_column_try col f df else Ok df
  end.

(** A name is among the names a resolver result declares. *)
Definition declared_in (o : option (gset string)) (name : string) : Prop :=
  ∃ s, o = Some s ∧ name ∈ s.

(** Wrapping every value of the string columns of a frame. *)
Definition quote_series (s : Series) : Series :=
  match s with
  | SStr l => SStr (map quoted l)
  | other => other
  end.
Definition quote_frame (df : DataFrame) : DataFrame :=
  map (λ cs, (cs.1, quote_series cs.2)) df.

(** The names of an optional set of declared columns. *)
Definition names_in (o : option (gset string)) : gset string := default ∅ o.

(** What the coercion does to a column named [c] that is not declared
    INTEGER. *)
Definition date_coercion `{PandasParsers} (dc : option (gset string))
    (c : string) (s : Series) : Series :=
  let s := strip_series s in
  if decide (c ∈ names_in dc) then date_series s else s.

(** What the three steps of the coercion do to the column named [c]. *)
Definition column_coercion `{PandasParsers} (dc ic : option (gset string))
    (c : string) (s : Series) : result Series :=
  let s := strip_series s in
  let s := if decide (c ∈ names_in dc) then date_series s else s in
  if decide (c ∈ names_in ic) then integer_series s else Ok s.

(** The chunks of a stream after coercion, when every item is a chunk and
    every coercion succeeds. *)
Fixpoint coerced_chunks `{PandasParsers}
    (dc ic : option (gset string)) (items : list item)
  : option (list DataFrame) :=
  match items with
  | [] => Some []
  | Chunk chunk :: rest =>
      match coerce_frame dc ic chunk with
      | Ok t => cons t <$> coerced_chunks dc ic rest
      | Raise _ => None
      end
  | Fail _ :: _ => None
  end.

(** Joining two columns of one kind, and two frames with one header. *)
Definition series_app (a b : Series) : Series :=
  match a, b with
  | SStr x, SStr y => SStr (x ++ y)
  | SDate x, SDate y => SDate (x ++ y)
  | SNaT x, SNaT y => SNaT (x + y)
  | SFloat64 x, SFloat64 y => SFloat64 (x ++ y)
  | SInt64 x, SInt64 y => SInt64 (x ++ y)
  | _, _ => a
  end.
Definition frame_app (a b : DataFrame) : DataFrame :=
  zip_with (λ x y : string * Series, (x.1, series_app x.2 y.2)) a b.

(** Reading a Parquet file back: its tables joined in the order they were
    written. *)
Fixpoint frame_concat (tables : list DataFrame) : DataFrame :=
  match tables with
  | [] => []
  | t :: rest =>
      match rest with
      | [] => t
      | _ :: _ => frame_app t (frame_concat rest)
      end
  end.
Definition read_parquet (f : ParquetFile) : DataFrame :=
  frame_concat (pf_tables f).

(** Every column has [n] values. *)
Definition uniform_len (n : nat) (df : DataFrame) : Prop :=
  Forall (λ cs : string * Series, series_len cs.2 = n) df.

(** One value of an INTEGER column as it is cast: rounded, and kept when
    the rounded value is a 64-bit integer. *)
Definition rounded_int64 (x : float64) : option Z :=
  int64_of_float (float_round x).

(** What a job may touch: of the Parquet files only the one at [path], of
    the text files only the log at [log], and that one by appending; the
    archives and the schema files not at all; and no writer handle is open
    afterwards that was not open before. *)
Definition untouched_outside (path log : string) (w w' : World) : Prop :=
  zip_files w' = zip_files w ∧
  schema_files w' = schema_files w ∧
  (∀ p, p ≠ path → parquet_files w' !! p = parquet_files w !! p) ∧
  (∀ p, p ≠ log → text_files w' !! p = text_files w !! p) ∧
  default [] (text_files w !! log) `prefix_of` default [] (text_files w' !! log) ∧
  (∀ p, p ∈ open_writers w' → p ∈ open_writers w).

(** A computation that touches no more than that, from every world. *)
Definition keeps {A} (path log : string) (m : M A) : Prop :=
  ∀ w, untouched_outside path log w (m w).2.

(** What has been written to the conversion log: one entry for each
    write, in order.  The text of an error, and with it the entry, can run
    over several lines. *)
Definition log_lines (log : string) (w : World) : list string :=
  default [] (text_files w !! log).

(** The log can be opened and written: the file system refuses neither
    its directory nor the file, and the disk is not full. *)
Definition log_available (dataset : string) (w : World) : Prop :=
  denied w !! converted_dir dataset = None ∧
  denied w !! conversion_log_path dataset = None ∧
  disk_quota w ≠ Some O.

(** The entry the job appends to the log when it fails with [e]. *)
Definition error_log_line (zip_path : string) (e : exn) : string :=
  PyStr.path_name zip_path +:+ ": ERROR - " +:+ exn_str e.

(** ** Naming the table and the target ([task_extract_to_parquet]) *)

Module OsPath.

(** [p.rfind(c)] with the search state spelled out: the index of the last
    occurrence seen so far. *)
Fixpoint rfind_from (c : ascii) (l : list ascii) (i : nat) (found : option nat)
  : option nat :=
  match l with
  | [] => found
  | x :: rest =>
      rfind_from c rest (S i) (if Ascii.eqb x c then Some i else found)
  end.

(** [p.rfind(c)]: [-1] when [c] does not occur. *)
Definition rfind (c : ascii) (l : list ascii) : Z :=
  match rfind_from c l 0 None with
  | Some i => Z.of_nat i
  | None => -1
  end.

Definition is_not_dot (x : ascii) : bool := negb (Ascii.eqb x "."%char).

(** [os.path.splitext(p)]: the extension starts at the last dot of the last
    component, unless only dots come before it in that component. *)
Definition splitext (p : string) : string * string :=
  let l := String.list_ascii_of_string p in
  let sepIndex := rfind "/"%char l in
  let dotIndex := rfind "."%char l in
  if sepIndex <? dotIndex then
    let filenameIndex := Z.to_nat (sepIndex + 1) in
    let d := Z.to_nat dotIndex in
    if existsb is_not_dot (take (d - filenameIndex) (drop filenameIndex l))
    then (String.string_of_list_ascii (take d l),
          String.string_of_list_ascii (drop d l))
    else (p, EmptyString)
  else (p, EmptyString).

End OsPath.

(** The table name of an archive, from its file name: without [.zip], and
    without [.tsv] when that is what then ends the name. *)
Definition table_name_of_zip (zip_name : string) : string :=
  let table_name := (OsPath.splitext zip_name).1 in
  if PyStr.endswith ".tsv" table_name
  then (OsPath.splitext table_name).1
  else table_name.

(** [converted_dir / f"{table_name}_{VERSION}.parquet"]. *)
Definition parquet_path_of (version dataset zip_name : string) : string :=
  converted_dir dataset +:+ "/" +:+
  table_name_of_zip zip_name +:+ "_" +:+ version +:+ ".parquet".

(** The characters of a file name. *)
Definition chars (s : string) : list ascii := String.list_ascii_of_string s.

(** A file name that is the name of a file in a directory and has a
    character that is not a dot. *)
Definition plain_name (base : string) : Prop :=
  ("/"%char ∉ chars base) ∧ ∃ x, x ∈ chars base ∧ x ≠ "."%char.

(** ** Inputs used in the further examples *)

Module MoreExamples.

(** A schema file with one DATE, one INTEGER and one STRING field. *)
Definition patent_schema : list SchemaField :=
  [ {| field_name := "patent_date"; field_type := Some "DATE" |};
    {| field_name := "num_claims"; field_type := Some "INTEGER" |};
    {| field_name := "patent_title"; field_type := Some "STRING" |} ].
Definition world_with_schema : World :=
  {| parquet_files := ∅; text_files := ∅; zip_files := ∅;
     schema_files := {[ schema_file_path "g_patent" "granted" := Some patent_schema ]};
     directories := ∅; open_writers := []; zip_reads := []; stdout := [];
     disk_quota := None; denied := ∅ |}.

(** Three rows, read two at a time. *)
Definition three_rows : Content :=
  {| table := [("id", SStr ["1"; "2"; "3"]); ("kind", SStr ["B1"; "B2"; "A1"])];
     defect := None |}.
Definition three_rows_run : result unit * World :=
  _write_parquet_streaming three_rows "out/t.parquet" "t.tsv" 2 None None
    empty_world.

(** A member of 100001 rows with a date in every row of its declared
    DATE column, at the threshold and below it. *)
Definition all_dated_content : Content :=
  {| table := [("filing_date",
                SStr (replicate (Z.to_nat 100000) "2020-01-05"
                      ++ ["2021-03-04"]))];
     defect := None |}.
Definition all_dated_streamed : Member :=
  {| filename := "g_abstract.tsv"; file_size := SIZE_THRESHOLD_BYTES;
     open_error := None; content := all_dated_content |}.
Definition all_dated_buffered : Member :=
  {| filename := "g_abstract.tsv"; file_size := SIZE_THRESHOLD_BYTES - 1;
     open_error := None; content := all_dated_content |}.
Definition all_dated_streamed_run : result unit * World :=
  _convert_member_to_parquet all_dated_streamed Examples.abstract_table
    Examples.abstract_parquet Examples.abstract_log "granted"
    Examples.dated_world.
Definition all_dated_buffered_run : result unit * World :=
  _convert_member_to_parquet all_dated_buffered Examples.abstract_table
    Examples.abstract_parquet Examples.abstract_log "granted"
    Examples.dated_world.

(** An archive with two small [.tsv] members and a read-me. *)
Definition first_member : Member :=
  {| filename := "a.tsv"; file_size := 8;
     open_error := None; content := {| table := [("id", SStr ["1"; "2"])]; defect := None |} |}.
Definition second_member : Member :=
  {| filename := "b.tsv"; file_size := 4;
     open_error := None; content := {| table := [("id", SStr ["9"])]; defect := None |} |}.
Definition world_two_members : World :=
  {| parquet_files := ∅; text_files := ∅;
     zip_files := {[ Examples.zip_path :=
                       Some [first_member; Examples.readme; second_member] ]};
     schema_files := ∅;
     directories := ∅; open_writers := []; zip_reads := []; stdout := [];
     disk_quota := None; denied := ∅ |}.
Definition two_members_run : result unit * World :=
  convert_zip Examples.zip_path Examples.table_name Examples.parquet_path
    Examples.dataset world_two_members.

(** The job of the archive without [.tsv] members. *)
Definition no_tsv_run : result unit * World :=
  convert_zip Examples.zip_path Examples.table_name Examples.parquet_path
    Examples.dataset Examples.world_without_tsv.

(** The same job when the file system refuses the directory of the
    log. *)
Definition world_log_refused : World :=
  {| parquet_files := ∅; text_files := ∅;
     zip_files := {[ Examples.zip_path := Some [Examples.readme] ]};
     schema_files := ∅;
     directories := ∅; open_writers := []; zip_reads := []; stdout := [];
     disk_quota := None;
     denied := {[ converted_dir Examples.dataset :=
                    OSError "Permission denied" ]} |}.
Definition log_refused_run : result unit * World :=
  convert_zip Examples.zip_path Examples.table_name Examples.parquet_path
    Examples.dataset world_log_refused.

(** A large member that the archive lists and cannot hand out. *)
Definition damaged_member : Member :=
  {| filename := "c.tsv"; file_size := SIZE_THRESHOLD_BYTES;
     open_error := Some (BadZipFile "Bad magic number for file header");
     content := Examples.tiny_content |}.

End MoreExamples.

(** * Properties *)

(** ** Size classifier *)

Lemma use_streaming_spec (m : Member) :
  use_streaming m = true ↔ SIZE_THRESHOLD_BYTES ≤ file_size m.
Proof. unfold use_streaming. apply Z.leb_le. Qed.

(** C7: a member whose uncompressed size is at least the threshold is
    converted by the STREAMING branch and a member strictly below it by the
    BUFFERED branch; the size equal to the threshold is STREAMING and one
    byte less is BUFFERED. *)
Theorem size_classifier_threshold `{PandasParsers} (m : Member)
    (table_name parquet_path log_file dataset : string) (w : World) :
  (SIZE_THRESHOLD_BYTES ≤ file_size m →
     strategy_of m = STREAMING ∧
     _convert_member_to_parquet m table_name parquet_path log_file dataset w =
       convert_streaming m table_name parquet_path log_file
         (_get_column_types table_name dataset w).1
         (_get_column_types table_name dataset w).2 w) ∧
  (file_size m < SIZE_THRESHOLD_BYTES →
     strategy_of m = BUFFERED ∧
     _convert_member_to_parquet m table_name parquet_path log_file dataset w =
       convert_in_memory m table_name parquet_path log_file
         (_get_column_types table_name dataset w).1
         (_get_column_types table_name dataset w).2 w) ∧
  (file_size m = SIZE_THRESHOLD_BYTES → strategy_of m = STREAMING) ∧
  (file_size m = SIZE_THRESHOLD_BYTES - 1 → strategy_of m = BUFFERED).
Proof.
  assert (Hge : SIZE_THRESHOLD_BYTES ≤ file_size m → use_streaming m = true)
    by apply use_streaming_spec.
  assert (Hlt : file_size m < SIZE_THRESHOLD_BYTES → use_streaming m = false).
  { intros Hlt. destruct (use_streaming m) eqn:E; [|done].
    apply use_streaming_spec in E. lia. }
  unfold strategy_of, _convert_member_to_parquet.
  destruct (_get_column_types table_name dataset w) as [dc ic]. simpl.
  split; [|split; [|split]]; intros Hsz.
  - by rewrite Hge.
  - by rewrite Hlt.
  - rewrite Hge; [done | lia].
  - rewrite Hlt; [done | lia].
Qed.

Lemma size_classifier_threshold_witness :
  strategy_of Examples.member_at_threshold = STREAMING ∧
  strategy_of Examples.member_below_threshold = BUFFERED.
Proof.
  split.
  - apply (size_classifier_threshold Examples.member_at_threshold
             "" "" "" "" empty_world).
    reflexivity.
  - apply (size_classifier_threshold Examples.member_below_threshold
             "" "" "" "" empty_world).
    reflexivity.
Defined.

(** ** Row normaliser *)

(** A value that does not both start and end with a double quote is left
    as it is. *)
Lemma strip_cell_unchanged (x : string) :
  PyStr.startswith PyStr.dquote_str x && PyStr.endswith PyStr.dquote_str x = false →
  strip_cell x = x.
Proof. unfold strip_cell. by intros ->. Qed.

(** C4: the one-character value made of a single double quote starts and
    ends with a double quote, so the slice is taken and the cell becomes
    the empty string: the value is not left unchanged. *)
Theorem strip_lone_quote_gives_empty :
  strip_cell PyStr.dquote_str = EmptyString ∧
  strip_cell PyStr.dquote_str ≠ PyStr.dquote_str ∧
  _strip_outer_quotes Examples.lone_quote_frame = [("title", SStr [EmptyString])].
Proof. repeat split. vm_compute. discriminate. Qed.

(** Facts about Python's string operations. *)

Lemma string_app_cons (x : ascii) (a b : string) :
  String x a +:+ b = String x (a +:+ b).
Proof. reflexivity. Qed.

Lemma string_app_nil (b : string) : "" +:+ b = b.
Proof. reflexivity. Qed.

Lemma string_length_app (a b : string) :
  String.length (a +:+ b) = (String.length a + String.length b)%nat.
Proof.
  induction a as [|c a IH]; [done|].
  rewrite string_app_cons. simpl. by rewrite IH.
Qed.

Lemma string_app_assoc (a b c : string) : (a +:+ b) +:+ c = a +:+ b +:+ c.
Proof.
  induction a as [|x a IH]; [done|].
  by rewrite !string_app_cons, IH.
Qed.

Lemma string_app_empty_r (a : string) : a +:+ "" = a.
Proof.
  induction a as [|x a IH]; [done|].
  by rewrite string_app_cons, IH.
Qed.

Lemma rev_app_spec (a b : string) : String.rev_app a b = String.rev a +:+ b.
Proof.
  unfold String.rev. revert b.
  induction a as [|x a IH]; intros b; simpl; [done|].
  rewrite (IH (String x b)), (IH (String x "")), string_app_assoc. done.
Qed.

Lemma string_rev_cons (x : ascii) (a : string) :
  String.rev (String x a) = String.rev a +:+ String x "".
Proof. unfold String.rev at 1. simpl. apply rev_app_spec. Qed.

Lemma string_rev_app (a b : string) :
  String.rev (a +:+ b) = String.rev b +:+ String.rev a.
Proof.
  induction a as [|x a IH].
  - by rewrite string_app_nil, string_app_empty_r.
  - by rewrite string_app_cons, !string_rev_cons, IH, string_app_assoc.
Qed.

Lemma string_rev_involutive (a : string) : String.rev (String.rev a) = a.
Proof.
  induction a as [|x a IH]; [done|].
  by rewrite string_rev_cons, string_rev_app, IH.
Qed.

Lemma substring_0_app (a b : string) :
  String.substring 0 (String.length a) (a +:+ b) = a.
Proof.
  induction a as [|x a IH].
  - by destruct b.
  - rewrite string_app_cons. simpl. by rewrite IH.
Qed.

Lemma prefix_single (c : ascii) (s : string) :
  String.prefix (String c "") s = true ↔ ∃ r, s = String c r.
Proof.
  destruct s as [|x s]; simpl.
  - split; [done | by intros [r Hr]].
  - destruct (ascii_dec c x) as [->|Hne].
    + split; [eauto | by destruct s].
    + split; [done | intros [r Hr]; congruence].
Qed.

(** A value wrapped in a pair of double quotes loses exactly that pair. *)
Lemma strip_cell_wrapped (s : string) :
  strip_cell (PyStr.dquote_str +:+ s +:+ PyStr.dquote_str) = s.
Proof.
  unfold strip_cell.
  assert (PyStr.startswith PyStr.dquote_str
            (PyStr.dquote_str +:+ s +:+ PyStr.dquote_str) = true) as ->.
  { apply prefix_single. by eexists. }
  assert (PyStr.endswith PyStr.dquote_str
            (PyStr.dquote_str +:+ s +:+ PyStr.dquote_str) = true) as ->.
  { unfold PyStr.endswith. rewrite !string_rev_app.
    apply prefix_single. by eexists. }
  simpl. unfold PyStr.slice_1_m1, PyStr.dquote_str.
  rewrite string_app_cons, string_app_nil. simpl.
  rewrite string_length_app. simpl.
  replace (String.length s + 1 - 1)%nat with (String.length s) by lia.
  apply substring_0_app.
Qed.

(** A value that starts and ends with a double quote is either the lone
    quote or a value wrapped in a pair of quotes. *)
Lemma wrapped_inv (v : string) :
  PyStr.startswith PyStr.dquote_str v = true →
  PyStr.endswith PyStr.dquote_str v = true →
  v = PyStr.dquote_str ∨ ∃ s, v = PyStr.dquote_str +:+ s +:+ PyStr.dquote_str.
Proof.
  intros [r ->]%prefix_single Hend.
  unfold PyStr.endswith in Hend. rewrite string_rev_cons in Hend.
  destruct (String.rev r) as [|b t] eqn:Hr.
  - left. apply (f_equal String.rev) in Hr.
    rewrite string_rev_involutive in Hr. by subst.
  - right. rewrite string_app_cons in Hend.
    apply prefix_single in Hend as [r' Hr'].
    injection Hr' as -> _.
    apply (f_equal String.rev) in Hr.
    rewrite string_rev_involutive, string_rev_cons in Hr. subst r.
    by exists (String.rev t).
Qed.

(** Apart from the lone quote the normaliser does what is asked of it:
    with two characters or more, a value that starts and ends with a double
    quote is its stripped value between one pair of quotes. *)
Lemma strip_cell_long (v : string) :
  PyStr.startswith PyStr.dquote_str v = true →
  PyStr.endswith PyStr.dquote_str v = true →
  (2 ≤ String.length v)%nat →
  v = PyStr.dquote_str +:+ strip_cell v +:+ PyStr.dquote_str.
Proof.
  intros Hs He Hlen.
  destruct (wrapped_inv v Hs He) as [-> | [s ->]].
  - simpl in Hlen. lia.
  - by rewrite strip_cell_wrapped.
Qed.

(** ** The job for one archive *)

Section Job.
Context `{PandasParsers}.

(** With the target in place the job is the one [print]. *)
Lemma convert_zip_skip
    (zip_path table parquet dataset : string) (w : World) :
  parquet_exists parquet w = true →
  convert_zip zip_path table parquet dataset w
  = print ("Skipping " +:+ PyStr.path_name parquet +:+ " (already converted)") w.
Proof. intros Hex. unfold convert_zip. by rewrite Hex. Qed.

(** C6: when the target of a job is already there, the job returns
    normally after printing one line: the Parquet files, the logs, the
    directories, the writer handles and the disk are as they were and no
    archive has been opened. *)
Theorem convert_zip_skips_existing_output
    (zip_path table parquet dataset : string) (w : World) :
  parquet_exists parquet w = true →
  let '(r, w') := convert_zip zip_path table parquet dataset w in
  r = Ok tt ∧
  parquet_files w' = parquet_files w ∧
  text_files w' = text_files w ∧
  zip_reads w' = zip_reads w ∧
  zip_files w' = zip_files w ∧
  schema_files w' = schema_files w ∧
  directories w' = directories w ∧
  open_writers w' = open_writers w ∧
  disk_quota w' = disk_quota w ∧
  stdout w' = stdout w ++
    ["Skipping " +:+ PyStr.path_name parquet +:+ " (already converted)"].
Proof.
  intros Hex. rewrite (convert_zip_skip _ _ _ _ _ Hex). simpl. done.
Qed.

(** A second run after a run that left the target in place changes no
    Parquet file. *)
Lemma convert_zip_second_run
    (zip_path table parquet dataset : string) (w : World) :
  let w1 := (convert_zip zip_path table parquet dataset w).2 in
  parquet_exists parquet w1 = true →
  (convert_zip zip_path table parquet dataset w1).1 = Ok tt ∧
  parquet_files (convert_zip zip_path table parquet dataset w1).2
    = parquet_files w1.
Proof.
  intros w1 Hex. by rewrite (convert_zip_skip _ _ _ _ _ Hex).
Qed.

Lemma filter_none {A} (P : A → Prop) `{∀ x, Decision (P x)} (l : list A) :
  Forall (λ x, ¬ P x) l → filter P l = [].
Proof.
  induction 1 as [|x l Hx _ IH]; [done|].
  by rewrite filter_cons_False.
Qed.

(** C8, as the code has it: when the target of the job is not there yet
    and the archive opens and holds no member whose name ends in [.tsv],
    the job fails and writes no Parquet file.  Where the log can be opened
    and written, the error is the [ValueError] for the missing members, and
    before raising it the job appends the error entry to the conversion log
    of the data set. *)
Theorem convert_zip_no_tsv_member
    (zip_path table parquet dataset : string) (infolist : list Member)
    (w : World) :
  parquet_exists parquet w = false →
  zip_files w !! zip_path = Some (Some infolist) →
  Forall (λ m, PyStr.endswith ".tsv" (filename m) ≠ true) infolist →
  let log_path := conversion_log_path dataset in
  let e := ValueError ("No TSV members found in " +:+ zip_path) in
  let '(r, w') := convert_zip zip_path table parquet dataset w in
  (∃ e', r = Raise e') ∧
  parquet_files w' = parquet_files w ∧
  (log_available dataset w →
     r = Raise e ∧
     text_files w' !! log_path =
       Some (default [] (text_files w !! log_path) ++
             [PyStr.path_name zip_path +:+ ": ERROR - " +:+ exn_str e])).
Proof.
  intros Hex Hzip Hnone log_path e.
  unfold convert_zip. rewrite Hex.
  cbv [mbind M_bind bind mkdir open_append print try_except_log
       convert_zip_body open_zip log_write raise log_available]. simpl.
  fold log_path.
  destruct (denied w !! converted_dir dataset) as [e1|] eqn:Hdir; simpl.
  { split; [by eexists|]. split; [done|]. by intros [? _]. }
  destruct (denied w !! log_path) as [e2|] eqn:Hlog; simpl.
  { split; [by eexists|]. split; [done|]. by intros (_ & ? & _). }
  rewrite Hzip. rewrite (filter_none _ _ Hnone). simpl.
  destruct (disk_quota w) as [[|n]|] eqn:Hdisk; simpl.
  { split; [by eexists|]. split; [done|]. by intros (_ & _ & ?). }
  - split; [by eexists|]. split; [done|]. intros _. split; [done|].
    rewrite lookup_insert_eq. do 2 f_equal.
    destruct (text_files w !! log_path) eqn:E; simpl.
    + by rewrite E.
    + by rewrite lookup_insert_eq.
  - split; [by eexists|]. split; [done|]. intros _. split; [done|].
    rewrite lookup_insert_eq. do 2 f_equal.
    destruct (text_files w !! log_path) eqn:E; simpl.
    + by rewrite E.
    + by rewrite lookup_insert_eq.
Qed.

End Job.

Lemma convert_zip_skips_existing_output_witness :
  (convert_zip Examples.zip_path Examples.table_name Examples.parquet_path
     Examples.dataset Examples.world_already_converted).1 = Ok tt.
Proof.
  pose proof (convert_zip_skips_existing_output
                Examples.zip_path Examples.table_name Examples.parquet_path
                Examples.dataset Examples.world_already_converted) as Hskip.
  destruct (convert_zip _ _ _ _ _) as [r w'].
  apply Hskip. vm_compute. reflexivity.
Defined.

Lemma convert_zip_no_tsv_member_witness :
  (convert_zip Examples.zip_path Examples.table_name Examples.parquet_path
     Examples.dataset Examples.world_without_tsv).1
  = Raise (ValueError ("No TSV members found in " +:+ Examples.zip_path)).
Proof.
  pose proof (convert_zip_no_tsv_member
                Examples.zip_path Examples.table_name Examples.parquet_path
                Examples.dataset [Examples.readme] Examples.world_without_tsv) as Hraise.
  simpl in Hraise.
  destruct (convert_zip _ _ _ _ _) as [r w'].
  apply Hraise.
  - vm_compute. reflexivity.
  - vm_compute. reflexivity.
  - repeat constructor. vm_compute. discriminate.
  - split; [reflexivity|]. split; [reflexivity | discriminate].
Defined.

(** C8, as the claim has it, fails: the archive below holds no [.tsv]
    member, yet its job returns normally and writes nothing to any log,
    because the target of the job is already there. *)
Lemma convert_zip_no_tsv_member_but_skipped :
  zip_files Examples.world_already_converted !! Examples.zip_path
    = Some (Some [Examples.readme]) ∧
  filter (λ m, PyStr.endswith ".tsv" (filename m) = true) [Examples.readme] = [] ∧
  (convert_zip Examples.zip_path Examples.table_name Examples.parquet_path
     Examples.dataset Examples.world_already_converted).1 = Ok tt ∧
  text_files (convert_zip Examples.zip_path Examples.table_name
                Examples.parquet_path Examples.dataset
                Examples.world_already_converted).2 = ∅.
Proof. vm_compute. repeat split. Qed.

(** ** Type coercer *)

Section CoercionLoop.
Variable f : Series → Series.

Lemma columns_map_declared (X : gset string) (df : DataFrame) :
  columns (map_declared X f df) = columns df.
Proof.
  unfold columns, map_declared. rewrite map_map. apply map_ext.
  intros [c s]. simpl. by case_decide.
Qed.

Lemma columns_set_column (x : string) (df : DataFrame) :
  columns (set_column x f df) = columns df.
Proof.
  unfold columns, set_column. rewrite map_map. apply map_ext.
  intros [c s]. simpl. by case_decide.
Qed.

Lemma elem_of_added (c x : string) (X : gset string) :
  c ∈ {[x]} ∪ X ↔ c = x ∨ c ∈ X.
Proof. by rewrite elem_of_union, elem_of_singleton. Qed.

Lemma set_column_map_declared (x : string) (X : gset string) (df : DataFrame) :
  x ∉ X → set_column x f (map_declared X f df) = map_declared ({[x]} ∪ X) f df.
Proof.
  intros Hx. unfold set_column, map_declared.
  induction df as [|[c s] df IH]; [done|].
  simpl. rewrite IH. f_equal.
  destruct (decide (c ∈ X)) as [Hc|Hc]; simpl.
  - rewrite decide_False by (intros ->; done).
    rewrite decide_True by (apply elem_of_added; auto). done.
  - destruct (decide (c = x)) as [->|Hne].
    + rewrite decide_True by (apply elem_of_added; auto). done.
    + rewrite decide_False by (rewrite elem_of_added; tauto). done.
Qed.

Lemma map_declared_absent (x : string) (X : gset string) (df : DataFrame) :
  x ∉ columns df → map_declared ({[x]} ∪ X) f df = map_declared X f df.
Proof.
  unfold columns, map_declared.
  induction df as [|[c s] df IH]; [done|].
  simpl. intros Hx. apply not_elem_of_cons in Hx as [Hne Hx].
  rewrite IH by done. f_equal.
  destruct (decide (c ∈ X)).
  - rewrite decide_True by (apply elem_of_added; auto). done.
  - rewrite decide_False by (rewrite elem_of_added; intros [->|?]; done). done.
Qed.

Lemma map_declared_empty (df : DataFrame) : map_declared ∅ f df = df.
Proof.
  unfold map_declared. induction df as [|[c s] df IH]; [done|].
  simpl. rewrite IH. by rewrite decide_False by apply not_elem_of_empty.
Qed.

(** The loop over a set of declared names, whatever the order in which
    the set hands them out. *)
Lemma coercion_loop_spec (df : DataFrame) (X : gset string) :
  set_fold (λ col df, if has_column col df then set_column col f df else df)
           df X
  = map_declared X f df.
Proof.
  apply (set_fold_ind_L (λ r X, r = map_declared X f df)).
  - by rewrite map_declared_empty.
  - intros x Y r Hx ->. unfold has_column.
    rewrite columns_map_declared.
    case_bool_decide as Hin.
    + by apply set_column_map_declared.
    + by rewrite map_declared_absent.
Qed.

Lemma get_column_map_declared (c : string) (X : gset string) (df : DataFrame) :
  get_column c (map_declared X f df)
  = (if decide (c ∈ X) then f else id) <$> get_column c df.
Proof.
  unfold map_declared. induction df as [|[c' s] df IH]; [done|].
  simpl. destruct (decide (c' ∈ X)) as [Hin|Hin]; simpl.
  - destruct (decide (c' = c)) as [->|Hne]; [|done].
    by rewrite decide_True.
  - destruct (decide (c' = c)) as [->|Hne]; [|done].
    by rewrite decide_False.
Qed.

Lemma map_declared_all_absent (X : gset string) (df : DataFrame) :
  (∀ c, c ∈ X → c ∉ columns df) → map_declared X f df = df.
Proof.
  unfold columns, map_declared. intros Habs.
  induction df as [|[c s] df IH]; [done|].
  simpl. rewrite IH.
  - rewrite decide_False; [done|].
    intros Hc. apply (Habs c Hc). simpl. left.
  - intros c' Hc' Hin. apply (Habs c' Hc'). simpl. by right.
Qed.

End CoercionLoop.

(** Outcomes that agree up to the error. *)

Lemma same_outcome_refl {A} (r : result A) : same_outcome r r.
Proof. by destruct r. Qed.

Lemma same_outcome_sym {A} (r1 r2 : result A) :
  same_outcome r1 r2 → same_outcome r2 r1.
Proof. by destruct r1, r2. Qed.

Lemma same_outcome_trans {A} (r1 r2 r3 : result A) :
  same_outcome r1 r2 → same_outcome r2 r3 → same_outcome r1 r3.
Proof. destruct r1, r2, r3; simpl; try done. congruence. Qed.

Lemma same_outcome_Ok {A} (r : result A) (a : A) :
  same_outcome r (Ok a) ↔ r = Ok a.
Proof. destruct r; simpl; split; try done; congruence. Qed.

Lemma same_outcome_Ok_l {A} (r : result A) (a : A) :
  same_outcome (Ok a) r ↔ r = Ok a.
Proof. destruct r; simpl; split; try done; congruence. Qed.

(** The loop when the column function can raise. *)
Section TryLoop.
Variable f : Series → result Series.

Lemma try_map_declared_cons (X : gset string) (c : string) (s : Series)
    (df : DataFrame) (d : DataFrame) :
  try_map_declared X f ((c, s) :: df) = Ok d ↔
  ∃ s' d', (if decide (c ∈ X) then f s else Ok s) = Ok s' ∧
           try_map_declared X f df = Ok d' ∧ d = (c, s') :: d'.
Proof.
  simpl. destruct (if decide (c ∈ X) then f s else Ok s) as [s'|e].
  - destruct (try_map_declared X f df) as [d'|e].
    + split.
      * intros [= <-]. by exists s', d'.
      * intros (s1 & d1 & [= <-] & [= <-] & ->). done.
    + split; [done|]. by intros (s1 & d1 & _ & ? & _).
  - split; [done|]. by intros (s1 & d1 & ? & _).
Qed.

Lemma columns_try_map_declared (X : gset string) (df d : DataFrame) :
  try_map_declared X f df = Ok d → columns d = columns df.
Proof.
  revert d. induction df as [|[c s] df IH]; intros d.
  - by intros [= <-].
  - intros (s' & d' & _ & Hrest & ->)%try_map_declared_cons.
    simpl. f_equal. by apply IH.
Qed.

Lemma try_map_declared_empty (df : DataFrame) :
  try_map_declared ∅ f df = Ok df.
Proof.
  induction df as [|[c s] df IH]; [done|].
  simpl. rewrite decide_False by apply not_elem_of_empty. by rewrite IH.
Qed.

Lemma try_map_declared_absent (x : string) (X : gset string) (df : DataFrame) :
  x ∉ columns df →
  try_map_declared ({[x]} ∪ X) f df = try_map_declared X f df.
Proof.
  induction df as [|[c s] df IH]; [done|].
  simpl. intros Hx. apply not_elem_of_cons in Hx as [Hne Hx].
  rewrite IH by done.
  destruct (decide (c ∈ X)).
  - rewrite decide_True by (apply elem_of_added; auto). done.
  - rewrite decide_False by (rewrite elem_of_added; intros [->|?]; done). done.
Qed.

Lemma try_map_declared_all_absent (X : gset string) (df : DataFrame) :
  (∀ c, c ∈ X → c ∉ columns df) → try_map_declared X f df = Ok df.
Proof.
  intros Habs. induction df as [|[c s] df IH]; [done|].
  simpl. rewrite IH.
  - rewrite decide_False; [done|].
    intros Hc. apply (Habs c Hc). simpl. left.
  - intros c' Hc' Hin. apply (Habs c' Hc'). simpl. by right.
Qed.

(** One more name after the names of [X] have all gone through: the step
    of the loop is the map over the larger set, error and all. *)
Lemma set_column_try_step (x : string) (X : gset string) (df d : DataFrame) :
  x ∉ X →
  try_map_declared X f df = Ok d →
  set_column_try x f d = try_map_declared ({[x]} ∪ X) f df.
Proof.
  intros Hx. revert d. induction df as [|[c s] df IH]; intros d.
  - by intros [= <-].
  - intros (s' & d' & Hs & Hrest & ->)%try_map_declared_cons.
    simpl. rewrite (IH d' Hrest).
    destruct (decide (c = x)) as [->|Hne].
    + rewrite decide_False in Hs by done. injection Hs as <-.
      rewrite decide_True by (apply elem_of_added; auto). done.
    + destruct (decide (c ∈ X)) as [Hc|Hc].
      * rewrite decide_True by (apply elem_of_added; auto). by rewrite Hs.
      * rewrite decide_False by (rewrite elem_of_added; tauto).
        by injection Hs as <-.
Qed.

Lemma set_column_try_absent (x : string) (d : DataFrame) :
  x ∉ columns d → set_column_try x f d = Ok d.
Proof.
  induction d as [|[c s] d IH]; [done|].
  simpl. intros Hx. apply not_elem_of_cons in Hx as [Hne Hx].
  rewrite decide_False by done. by rewrite IH.
Qed.

(** A column that raises under [X] raises under every larger set. *)
Lemma try_map_declared_raise_mono (x : string) (X : gset string)
    (df : DataFrame) (e : exn) :
  try_map_declared X f df = Raise e →
  ∃ e', try_map_declared ({[x]} ∪ X) f df = Raise e'.
Proof.
  induction df as [|[c s] df IH]; [done|]. simpl.
  destruct (decide (c ∈ X)) as [Hc|Hc].
  - rewrite decide_True by (apply elem_of_added; auto).
    destruct (f s) as [s'|e1]; [|by eexists].
    destruct (try_map_declared X f df) as [d'|e1]; [done|].
    intros Heq. destruct (IH Heq) as [e' ->]. by eexists.
  - destruct (try_map_declared X f df) as [d'|e1]; [done|].
    intros Heq. destruct (IH Heq) as [e' ->].
    destruct (if decide (c ∈ {[x]} ∪ X) then f s else Ok s); by eexists.
Qed.

Lemma coercion_step_try_spec (x : string) (X : gset string) (df : DataFrame)
    (r : result DataFrame) :
  x ∉ X →
  same_outcome r (try_map_declared X f df) →
  same_outcome (coercion_step_try f x r) (try_map_declared ({[x]} ∪ X) f df).
Proof.
  intros Hx Hr. destruct r as [d|e]; simpl.
  - apply same_outcome_Ok_l in Hr.
    rewrite <- (set_column_try_step x X df d Hx Hr).
    unfold has_column. case_bool_decide as Hin.
    + apply same_outcome_refl.
    + rewrite set_column_try_absent by done. apply same_outcome_refl.
  - destruct (try_map_declared X f df) as [d|e1] eqn:Hm; [done|].
    by destruct (try_map_declared_raise_mono x X df e1 Hm) as [e' ->].
Qed.

(** The loop over a set of declared names agrees with the map in header
    order, up to which error is raised. *)
Lemma try_loop_spec (df : DataFrame) (X : gset string) :
  same_outcome (set_fold (coercion_step_try f) (Ok df) X)
               (try_map_declared X f df).
Proof.
  apply (set_fold_ind_L (λ r X, same_outcome r (try_map_declared X f df))).
  - rewrite try_map_declared_empty. done.
  - intros x Y r Hx Hr. by apply coercion_step_try_spec.
Qed.

Lemma get_column_try_map_declared (c : string) (X : gset string)
    (df d : DataFrame) :
  c ∉ X → try_map_declared X f df = Ok d → get_column c d = get_column c df.
Proof.
  intros Hc. revert d. induction df as [|[c' s] df IH]; intros d.
  - by intros [= <-].
  - intros (s' & d' & Hs & Hrest & ->)%try_map_declared_cons. simpl.
    destruct (decide (c' = c)) as [->|Hne]; [|by apply IH].
    rewrite decide_False in Hs by done. by injection Hs as <-.
Qed.

(** The first column of a declared name is what the column function gives
    for it. *)
Lemma get_column_try_map_declared_in (c : string) (X : gset string)
    (df d : DataFrame) (s : Series) :
  c ∈ X → get_column c df = Some s → try_map_declared X f df = Ok d →
  ∃ s', f s = Ok s' ∧ get_column c d = Some s'.
Proof.
  intros Hc. revert d. induction df as [|[c' s0] df IH]; intros d; [done|].
  simpl. intros Hcol (s' & d' & Hs & Hrest & ->)%try_map_declared_cons. simpl.
  destruct (decide (c' = c)) as [->|Hne].
  - injection Hcol as ->. rewrite decide_True in Hs by done. by exists s'.
  - by apply IH.
Qed.

(** A declared column whose function raises makes the map raise. *)
Lemma try_map_declared_raises (c : string) (X : gset string)
    (df : DataFrame) (s : Series) (e : exn) :
  c ∈ X → get_column c df = Some s → f s = Raise e →
  ∃ e', try_map_declared X f df = Raise e'.
Proof.
  intros Hc Hcol Hf.
  destruct (try_map_declared X f df) as [d|e'] eqn:Hm; [|by eexists].
  destruct (get_column_try_map_declared_in c X df d s Hc Hcol Hm) as (s' & Hs & _).
  congruence.
Qed.

End TryLoop.

Section CoercerFacts.
Context `{PandasParsers}.

Lemma _parse_date_columns_spec (df : DataFrame) (dc : gset string) :
  _parse_date_columns df (Some dc) = map_declared dc date_series df.
Proof. apply coercion_loop_spec. Qed.

Lemma _parse_integer_columns_spec (df : DataFrame) (ic : gset string) :
  same_outcome (_parse_integer_columns df (Some ic))
               (try_map_declared ic integer_series df).
Proof. apply (try_loop_spec integer_series). Qed.

Lemma _parse_integer_columns_Ok (df df' : DataFrame) (ic : gset string) :
  _parse_integer_columns df (Some ic) = Ok df' ↔
  try_map_declared ic integer_series df = Ok df'.
Proof.
  pose proof (_parse_integer_columns_spec df ic) as Hs.
  split; intros Heq; rewrite Heq in Hs.
  - by apply same_outcome_Ok_l in Hs.
  - by apply same_outcome_Ok in Hs.
Qed.

(** C10: a declared DATE or INTEGER name that the header of the chunk does
    not have raises nothing and changes nothing: the header stays as it
    is, declaring the absent name or not gives the same outcome, a frame
    none of whose columns is declared comes back as it went in, and a
    column whose name is not declared is never touched.  For the INTEGER
    loop, which can raise on a column that is present, the outcome is the
    frame or the fact that it raises. *)
Theorem coercer_frame (df : DataFrame) (dc ic : gset string) :
  columns (_parse_date_columns df (Some dc)) = columns df ∧
  (∀ df', _parse_integer_columns df (Some ic) = Ok df' →
          columns df' = columns df) ∧
  (∀ name, name ∉ columns df →
     _parse_date_columns df (Some ({[name]} ∪ dc))
       = _parse_date_columns df (Some dc) ∧
     same_outcome (_parse_integer_columns df (Some ({[name]} ∪ ic)))
                  (_parse_integer_columns df (Some ic))) ∧
  ((∀ name, name ∈ dc → name ∉ columns df) →
     _parse_date_columns df (Some dc) = df) ∧
  ((∀ name, name ∈ ic → name ∉ columns df) →
     _parse_integer_columns df (Some ic) = Ok df) ∧
  (∀ c, c ∉ dc →
     get_column c (_parse_date_columns df (Some dc)) = get_column c df) ∧
  (∀ c df', c ∉ ic →
     _parse_integer_columns df (Some ic) = Ok df' →
     get_column c df' = get_column c df).
Proof.
  rewrite !_parse_date_columns_spec.
  split; [apply columns_map_declared|].
  split.
  { intros df' Hok. apply _parse_integer_columns_Ok in Hok.
    by apply (columns_try_map_declared integer_series ic). }
  split.
  { intros name Hname. rewrite !_parse_date_columns_spec.
    split; [by rewrite map_declared_absent|].
    eapply same_outcome_trans; [apply _parse_integer_columns_spec|].
    rewrite try_map_declared_absent by done.
    apply same_outcome_sym, _parse_integer_columns_spec. }
  split; [apply map_declared_all_absent|].
  split.
  { intros Habs. apply _parse_integer_columns_Ok.
    by apply try_map_declared_all_absent. }
  split.
  - intros c Hc. rewrite get_column_map_declared, decide_False by done.
    by destruct (get_column c df).
  - intros c df' Hc Hok. apply _parse_integer_columns_Ok in Hok.
    by apply (get_column_try_map_declared integer_series c ic).
Qed.

End CoercerFacts.

Lemma coercer_frame_witness :
  _parse_date_columns Examples.date_chunk (Some {["filing_date"]})
    = Examples.date_chunk ∧
  _parse_integer_columns Examples.date_chunk (Some {["num_claims"]})
    = Ok Examples.date_chunk.
Proof.
  destruct (coercer_frame Examples.date_chunk {["filing_date"]} {["num_claims"]})
    as (_ & _ & _ & Hdate & Hint & _).
  split.
  - apply Hdate. intros name ->%elem_of_singleton. vm_compute.
    intros Hin. apply elem_of_cons in Hin as [Hin|Hin]; [discriminate|].
    by apply elem_of_nil in Hin.
  - apply Hint. intros name ->%elem_of_singleton. vm_compute.
    intros Hin. apply elem_of_cons in Hin as [Hin|Hin]; [discriminate|].
    by apply elem_of_nil in Hin.
Defined.

(** *** INTEGER columns *)

Lemma Qlt_bool_spec (a b : Q) : Qlt_bool a b = true ↔ (a < b)%Q.
Proof.
  unfold Qlt_bool. rewrite negb_true_iff.
  split.
  - intros Hle. apply Qnot_le_lt. intros Hba.
    apply Qle_bool_iff in Hba. congruence.
  - intros Hlt. destruct (Qle_bool b a) eqn:E; [|done].
    apply Qle_bool_iff in E. exfalso. by apply (Qlt_not_le a b).
Qed.

Lemma is_whole_spec (x : float64) : is_whole x = true ↔ near_integer x.
Proof. destruct x as [q|b]; [apply Qlt_bool_spec | done]. Qed.

Lemma round_half_even_cases (q : Q) :
  let f := Qfloor q in
  let m := (Qnum q mod Zpos (Qden q))%Z in
  (round_half_even q = f ∧ (2 * m <= Zpos (Qden q))%Z) ∨
  (round_half_even q = (f + 1)%Z ∧ (Zpos (Qden q) <= 2 * m)%Z).
Proof.
  destruct q as [n d]. simpl. unfold round_half_even. simpl.
  set (f := (n / Zpos d)%Z). set (m := (n mod Zpos d)%Z).
  assert (Hn : n = (Zpos d * f + m)%Z) by (apply Z.div_mod; lia).
  assert (Hcmp : ((n # d) - inject_Z f ?= 1 # 2)%Q = (2 * m ?= Zpos d)%Z).
  { unfold Qcompare, Qminus, Qplus, Qopp, inject_Z. simpl.
    rewrite Hn at 1.
    replace ((Zpos d * f + m) * 1 + - f * Zpos d)%Z with m by ring.
    rewrite Pos.mul_1_r.
    replace (m * 2)%Z with (2 * m)%Z by ring.
    replace (1 * Zpos d)%Z with (Zpos d) by ring. done. }
  rewrite Hcmp.
  destruct (Z.compare_spec (2 * m) (Zpos d)) as [Heq|Hlt|Hgt].
  - destruct (Z.even f); [left|right]; split; auto; lia.
  - left. split; auto; lia.
  - right. split; auto; lia.
Qed.

Lemma round_half_even_nearest (q : Q) (z : Z) :
  (Qabs (q - inject_Z (round_half_even q)) <= Qabs (q - inject_Z z))%Q.
Proof.
  pose proof (round_half_even_cases q) as Hc. 
  destruct q as [n d]. simpl in Hc.
  set (f := (n / Zpos d)%Z) in *. set (m := (n mod Zpos d)%Z) in *.
  assert (Hn : n = (Zpos d * f + m)%Z) by (apply Z.div_mod; lia).
  assert (Hm : (0 <= m < Zpos d)%Z) by (apply Z.mod_pos_bound; lia).
  unfold Qle, Qabs, Qminus, Qplus, Qopp, inject_Z. simpl.
  rewrite !Pos.mul_1_r, !Z.mul_1_r.
  apply Z.mul_le_mono_nonneg_r; [lia|].
  set (p := Zpos d) in *.
  assert (Hk : ∃ k, z = (f + k)%Z) by (exists (z - f)%Z; lia).
  destruct Hk as [k ->].
  assert (Hkp : (k <= 0 ∧ k * p <= 0)%Z ∨ (1 <= k ∧ p <= k * p)%Z).
  { destruct (Z_le_gt_dec k 0); [left | right]; split; nia. }
  destruct Hc as [[-> Hle] | [-> Hle]]; rewrite Hn.
  - replace (p * f + m + - f * p)%Z with m by ring.
    replace (p * f + m + - (f + k) * p)%Z with (m - k * p)%Z by ring.
    lia.
  - replace (p * f + m + - (f + 1) * p)%Z with (m - p)%Z by ring.
    replace (p * f + m + - (f + k) * p)%Z with (m - k * p)%Z by ring.
    lia.
Qed.

(** A whole number rounds to itself, and counts as whole. *)
Lemma round_half_even_Z (z : Z) : round_half_even (inject_Z z) = z.
Proof.
  unfold round_half_even. rewrite Qfloor_Z.
  replace (inject_Z z - inject_Z z ?= 1 # 2)%Q with Lt; [done|].
  symmetry. unfold Qcompare, Qminus, Qplus, Qopp, inject_Z. simpl.
  apply Z.compare_lt_iff. lia.
Qed.

Lemma is_whole_Z (z : Z) : is_whole (Finite (inject_Z z)) = true.
Proof.
  apply is_whole_spec. simpl. rewrite round_half_even_Z.
  unfold Qlt, Qabs, Qminus, Qplus, Qopp, inject_Z, TOLERANCE. simpl.
  replace (z * 1 + - z * 1)%Z with 0%Z by lia. simpl. lia.
Qed.

(** The cast of a rounded value: the rounded value when it fits. *)
Lemma int64_of_float_Z (z : Z) :
  int64_of_float (Finite (inject_Z z)) = if fits_int64 z then Some z else None.
Proof.
  unfold int64_of_float. rewrite Qfloor_Z.
  assert (Qeq_bool (inject_Z z) (inject_Z z) = true) as ->
    by (apply Qeq_bool_iff; reflexivity).
  done.
Qed.

Lemma rounded_int64_Finite (q : Q) :
  rounded_int64 (Finite q)
  = if fits_int64 (round_half_even q) then Some (round_half_even q) else None.
Proof. unfold rounded_int64. simpl. apply int64_of_float_Z. Qed.

Lemma rounded_int64_Inf (b : bool) : rounded_int64 (Inf b) = None.
Proof. reflexivity. Qed.

Lemma rounded_int64_Z (z : Z) :
  rounded_int64 (Finite (inject_Z z)) = if fits_int64 z then Some z else None.
Proof. by rewrite rounded_int64_Finite, round_half_even_Z. Qed.

Section IntegerColumns.
Context `{PandasParsers}.

Lemma forallb_is_whole (l : list (option float64)) :
  forallb is_whole (omap id l) = true ↔
  ∀ x, Some x ∈ l → near_integer x.
Proof.
  rewrite forallb_forall. split.
  - intros Hall x Hx. apply is_whole_spec, Hall.
    apply list_elem_of_In, list_elem_of_omap. by exists (Some x).
  - intros Hall x Hx. apply is_whole_spec, Hall.
    apply list_elem_of_In, list_elem_of_omap in Hx as (v & Hv & Heq).
    simpl in Heq. by subst.
Qed.

Lemma no_non_null {A} (l : list (option A)) :
  existsb id (map (λ v : option A, bool_decide (is_Some v)) l) = false ↔
  ∀ v, v ∈ l → v = None.
Proof.
  induction l as [|v l IH]; simpl.
  - split; [|done]. intros _ v Hv. by apply elem_of_nil in Hv.
  - rewrite orb_false_iff, IH. split.
    + intros [Hv Hrest] v' Hin.
      apply elem_of_cons in Hin as [Heq|Hin]; [subst v'|by apply Hrest].
      destruct v as [q|]; [|done].
      apply bool_decide_eq_false in Hv. destruct Hv. by eexists.
    + intros Hall. split.
      * rewrite (Hall v) by left. done.
      * intros v' Hv'. apply Hall. by right.
Qed.

Lemma map_all_null {A B} (g : option A → option B) (l : list (option A)) :
  g None = None → (∀ v, v ∈ l → v = None) →
  map g l = map (λ _, None) l.
Proof.
  intros Hg Hall. apply map_ext_in. intros v Hv%list_elem_of_In.
  by rewrite (Hall v Hv).
Qed.

Lemma dtype_name_round (n : Numeric) :
  dtype_name (numeric_round n) = dtype_name n.
Proof. by destruct n as [[]|]. Qed.

(** The values of a numeric column after [round()]. *)
Lemma numeric_values_round (n : Numeric) :
  map (λ v : option float64, v ≫= int64_of_float)
      (numeric_values (numeric_round n))
  = map (λ v : option float64, v ≫= rounded_int64) (numeric_values n).
Proof.
  destruct n as [k l|l]; simpl.
  - rewrite !map_map. apply map_ext. intros z. simpl.
    unfold rounded_int64. simpl. by rewrite round_half_even_Z.
  - rewrite map_map. apply map_ext. by intros [x|].
Qed.

(** The cast in terms of the values of the column. *)
Lemma astype_Int64_spec (n : Numeric) :
  let l := numeric_values n in
  ((∀ x, Some x ∈ l → is_Some (int64_of_float x)) →
     astype_Int64 n = Ok (map (λ v : option float64, v ≫= int64_of_float) l)) ∧
  ((∃ x, Some x ∈ l ∧ int64_of_float x = None) →
     astype_Int64 n
     = Raise (TypeError ("cannot safely cast non-equivalent " +:+
                         dtype_name n +:+ " to int64"))).
Proof.
  destruct n as [k l|l]; simpl.
  - assert (Hfit : forallb fits_int64 l = true ↔
                   ∀ x, Some x ∈ map (λ z, Some (Finite (inject_Z z))) l →
                        is_Some (int64_of_float x)).
    { rewrite forallb_forall. split.
      - intros Hall x Hx. apply list_elem_of_fmap in Hx as (z & [= ->] & Hz).
        rewrite int64_of_float_Z, (Hall z) by by apply list_elem_of_In.
        by eexists.
      - intros Hall z Hz%list_elem_of_In.
        specialize (Hall (Finite (inject_Z z))).
        rewrite int64_of_float_Z in Hall.
        destruct (fits_int64 z); [done|].
        destruct Hall as [? ?]; [|done].
        apply list_elem_of_fmap. by exists z. }
    split.
    + intros Hall. rewrite (proj2 Hfit Hall). f_equal.
      rewrite map_map. apply map_ext_in. intros z Hz%list_elem_of_In.
      change (Some z = int64_of_float (Finite (inject_Z z))).
      rewrite int64_of_float_Z.
      assert (Hz' : fits_int64 z = true).
      { apply (proj1 (forallb_forall _ _) (proj2 Hfit Hall)).
        by apply list_elem_of_In. }
      by rewrite Hz'.
    + intros (x & Hx & Hnone).
      destruct (forallb fits_int64 l) eqn:Hall; [|done].
      destruct (proj1 Hfit eq_refl x Hx) as [z Hz]. congruence.
  - assert (Hfit : forallb (λ v : option float64,
                      match v with
                      | None => true
                      | Some x => bool_decide (is_Some (int64_of_float x))
                      end) l = true ↔
                   ∀ x, Some x ∈ l → is_Some (int64_of_float x)).
    { rewrite forallb_forall. split.
      - intros Hall x Hx%list_elem_of_In.
        specialize (Hall (Some x) Hx). simpl in Hall.
        by apply bool_decide_eq_true in Hall.
      - intros Hall [x|] Hx%list_elem_of_In; [|done].
        apply bool_decide_eq_true. by apply Hall. }
    split.
    + intros Hall. by rewrite (proj2 Hfit Hall).
    + intros (x & Hx & Hnone).
      destruct (forallb _ l) eqn:Hall; [|done].
      destruct (proj1 Hfit eq_refl x Hx) as [z Hz]. congruence.
Qed.

Lemma elem_of_numeric_values_round (n : Numeric) (x : float64) :
  Some x ∈ numeric_values (numeric_round n) ↔
  ∃ y, Some y ∈ numeric_values n ∧ x = float_round y.
Proof.
  destruct n as [k l|l]; simpl.
  - split.
    + intros (z & [= ->] & Hz)%list_elem_of_fmap.
      exists (Finite (inject_Z z)). split.
      * apply list_elem_of_fmap. by exists z.
      * simpl. by rewrite round_half_even_Z.
    + intros (y & (z & [= ->] & Hz)%list_elem_of_fmap & ->).
      apply list_elem_of_fmap. exists z. split; [|done].
      simpl. by rewrite round_half_even_Z.
  - split.
    + intros (v & Hv & Hin)%list_elem_of_fmap.
      destruct v as [y|]; [|done]. injection Hv as ->. by exists y.
    + intros (y & Hy & ->). apply list_elem_of_fmap. by exists (Some y).
Qed.

(** What the loop body does to a column, case by case. *)
Lemma integer_series_spec (s : Series) :
  let l := numeric_values (to_numeric s) in
  ((∀ v, v ∈ l → v = None) →
     integer_series s = Ok (SInt64 (map (λ _, None) l))) ∧
  ((∃ x, Some x ∈ l ∧ ¬ near_integer x) →
     integer_series s = Ok (SFloat64 l)) ∧
  ((∀ x, Some x ∈ l → near_integer x) →
   (∀ x, Some x ∈ l → is_Some (rounded_int64 x)) →
     integer_series s
     = Ok (SInt64 (map (λ v : option float64, v ≫= rounded_int64) l))) ∧
  ((∀ x, Some x ∈ l → near_integer x) →
   (∃ x, Some x ∈ l ∧ rounded_int64 x = None) →
     integer_series s
     = Raise (TypeError ("cannot safely cast non-equivalent " +:+
                         dtype_name (to_numeric s) +:+ " to int64"))).
Proof.
  intros l. unfold integer_series. fold l.
  assert (Hround_ok :
    (∀ x, Some x ∈ l → is_Some (rounded_int64 x)) →
    astype_Int64 (numeric_round (to_numeric s))
    = Ok (map (λ v : option float64, v ≫= rounded_int64) l)).
  { intros Hfit.
    destruct (astype_Int64_spec (numeric_round (to_numeric s))) as [Hok _].
    rewrite Hok.
    - by rewrite numeric_values_round.
    - intros x (y & Hy & ->)%elem_of_numeric_values_round. by apply Hfit. }
  assert (Hround_raise :
    (∃ x, Some x ∈ l ∧ rounded_int64 x = None) →
    astype_Int64 (numeric_round (to_numeric s))
    = Raise (TypeError ("cannot safely cast non-equivalent " +:+
                        dtype_name (to_numeric s) +:+ " to int64"))).
  { intros (x & Hx & Hnone).
    destruct (astype_Int64_spec (numeric_round (to_numeric s))) as [_ Hraise].
    rewrite Hraise; [by rewrite dtype_name_round|].
    exists (float_round x). split; [|done].
    apply elem_of_numeric_values_round. by exists x. }
  assert (Hnull_cast :
    (∀ v, v ∈ l → v = None) →
    astype_Int64 (to_numeric s) = Ok (map (λ _, None) l)).
  { intros Hnull.
    destruct (astype_Int64_spec (to_numeric s)) as [Hok _].
    rewrite Hok.
    - f_equal. by apply map_all_null.
    - intros x Hx. by specialize (Hnull _ Hx). }
  destruct (existsb id _) eqn:Hany.
  - split; [|split; [|split]].
    + intros Hnull. pose proof (proj2 (no_non_null l) Hnull). congruence.
    + intros (x & Hx & Hfar).
      destruct (forallb is_whole (omap id l)) eqn:Hall; [|done].
      exfalso. apply Hfar. by apply (proj1 (forallb_is_whole l) Hall).
    + intros Hall Hfit. rewrite (proj2 (forallb_is_whole l) Hall).
      by rewrite Hround_ok.
    + intros Hall Hbad. rewrite (proj2 (forallb_is_whole l) Hall).
      by rewrite Hround_raise.
  - pose proof (proj1 (no_non_null l) Hany) as Hnone. clear Hany.
    split; [|split; [|split]].
    + intros _. by rewrite Hnull_cast.
    + intros (x & Hx & _). by specialize (Hnone _ Hx).
    + intros _ _. rewrite Hnull_cast by done. do 2 f_equal.
      symmetry. by apply map_all_null.
    + intros _ (x & Hx & _). by specialize (Hnone _ Hx).
Qed.

(** The only error of the loop body is the [TypeError] of the cast. *)
Lemma integer_series_raise (s : Series) (e : exn) :
  integer_series s = Raise e → ∃ msg, e = TypeError msg.
Proof.
  unfold integer_series.
  assert (Hcast : ∀ n, astype_Int64 n = Raise e → ∃ msg, e = TypeError msg).
  { intros n. unfold astype_Int64.
    destruct n; case_match; try done; intros [= <-]; by eexists. }
  destruct (existsb id _).
  - destruct (forallb is_whole _); [|done].
    destruct (astype_Int64 (numeric_round _)) eqn:E; [done|].
    intros [= <-]. by apply (Hcast _ E).
  - destruct (astype_Int64 (to_numeric s)) eqn:E; [done|].
    intros [= <-]. by apply (Hcast _ E).
Qed.

Lemma set_column_try_raise (f : Series → result Series) (x : string)
    (d : DataFrame) (e : exn) :
  set_column_try x f d = Raise e → ∃ s, f s = Raise e.
Proof.
  induction d as [|[c s] d IH]; [done|]. simpl.
  destruct (decide (c = x)).
  - destruct (f s) as [s'|e1] eqn:Hf.
    + destruct (set_column_try x f d); [done|]. intros [= <-]. by apply IH.
    + intros [= <-]. by exists s.
  - destruct (set_column_try x f d); [done|]. intros [= <-]. by apply IH.
Qed.

Lemma _parse_integer_columns_raise (df : DataFrame)
    (ic : option (gset string)) (e : exn) :
  _parse_integer_columns df ic = Raise e → ∃ msg, e = TypeError msg.
Proof.
  destruct ic as [X|]; [|done]. unfold _parse_integer_columns.
  revert e.
  apply (set_fold_ind_L
           (λ r _, ∀ e, r = Raise e → ∃ msg, e = TypeError msg)); [done|].
  intros x Y r Hx IH e.
  destruct r as [d|e1]; [|by apply IH].
  destruct (has_column x d); [|done].
  intros (s & Hs)%set_column_try_raise. by apply (integer_series_raise s).
Qed.

(** C3: a declared INTEGER column whose values are all whole need not come
    out as nullable integers: the code can raise instead.  A declared
    INTEGER column that is parsed as floating point, with every value that
    is not null within [1e-10] of its rounded value and one rounded value
    outside the range of a 64-bit integer, makes [_parse_integer_columns]
    raise [TypeError]: the cast to [Int64], which the branch takes for
    safe, refuses the value. *)
Theorem integer_column_out_of_range_raises
    (df : DataFrame) (ic : gset string) (c : string) (s : Series)
    (l : list (option float64)) (q : Q) :
  c ∈ ic →
  get_column c df = Some s →
  to_numeric s = NFloat l →
  (∀ x, Some x ∈ l → near_integer x) →
  Some (Finite q) ∈ l →
  fits_int64 (round_half_even q) = false →
  ∃ msg, _parse_integer_columns df (Some ic) = Raise (TypeError msg).
Proof.
  intros Hc Hcol Hnum Hall Hq Hfit.
  destruct (integer_series_spec s) as (_ & _ & _ & Hraise).
  rewrite Hnum in Hraise. simpl in Hraise.
  specialize (Hraise Hall).
  assert (Hs : ∃ e, integer_series s = Raise e).
  { eexists. apply Hraise. exists (Finite q). split; [done|].
    by rewrite rounded_int64_Finite, Hfit. }
  destruct Hs as [e Hs].
  destruct (try_map_declared_raises integer_series c ic df s e Hc Hcol Hs)
    as [e' He'].
  pose proof (_parse_integer_columns_spec df ic) as Hsame.
  rewrite He' in Hsame.
  destruct (_parse_integer_columns df (Some ic)) as [d|e1] eqn:Hloop; [done|].
  destruct (_parse_integer_columns_raise df (Some ic) e1 Hloop) as [msg ->].
  by exists msg.
Qed.

End IntegerColumns.

Lemma forall_of_Forall {A} (P : A → Prop) (l : list A) :
  Forall P l → ∀ x, x ∈ l → P x.
Proof. intros Hall. by apply Forall_forall. Qed.

Lemma integer_column_out_of_range_raises_witness :
  ∃ msg, _parse_integer_columns Examples.huge_chunk (Some {["num_claims"]})
         = Raise (TypeError msg).
Proof.
  apply (integer_column_out_of_range_raises Examples.huge_chunk
           {["num_claims"]} "num_claims" (SStr ["1"; "99999999999999999999"])
           [Some (Finite 1); Some (Finite 100000000000000000000)]
           100000000000000000000).
  - by apply elem_of_singleton.
  - reflexivity.
  - vm_compute. reflexivity.
  - intros x Hx.
    assert (Hall : Forall (λ v : option float64, ∀ x, v = Some x → near_integer x)
                     [Some (Finite 1); Some (Finite 100000000000000000000)]).
    { repeat constructor; intros x' [= <-]; vm_compute; reflexivity. }
    exact (forall_of_Forall _ _ Hall _ Hx x eq_refl).
  - apply elem_of_cons. right. apply elem_of_cons. by left.
  - vm_compute. reflexivity.
Defined.

(** The cast at the failing input, evaluated. *)
Example huge_chunk_raises :
  _parse_integer_columns Examples.huge_chunk (Some {["num_claims"]})
  = Raise (TypeError "cannot safely cast non-equivalent float64 to int64") ∧
  coerce_frame None (Some {["num_claims"]}) Examples.huge_chunk
  = Raise (TypeError "cannot safely cast non-equivalent float64 to int64").
Proof. vm_compute. split; reflexivity. Qed.

(** *** DATE columns *)

Section DateColumns.
Context `{PandasParsers}.

Lemma existsb_has_value {A} (l : list (option A)) :
  existsb (λ v : option A, bool_decide (is_Some v)) l = true ↔
  ∃ x, Some x ∈ l.
Proof.
  rewrite existsb_exists. split.
  - intros ([x|] & Hin%list_elem_of_In & Hv); [by exists x|].
    by apply bool_decide_eq_true in Hv as [? ?].
  - intros (x & Hin). exists (Some x). split; [by apply list_elem_of_In|].
    apply bool_decide_eq_true. by eexists.
Qed.

(** The three shapes of a date column: dates, among them perhaps nulls;
    no row; rows and no date. *)
Lemma dt_date_cases (l : list (option date)) :
  ((∃ d, Some d ∈ l) → dt_date l = SDate l ∧ dtype_of (dt_date l) = TDate32) ∧
  (l = [] → dt_date l = SDate [] ∧ dtype_of (dt_date l) = TNull) ∧
  (l ≠ [] → (∀ v, v ∈ l → v = None) →
     dt_date l = SNaT (length l) ∧ dtype_of (dt_date l) = TTimestamp).
Proof.
  unfold dt_date. split; [|split].
  - intros Hd. pose proof (proj2 (existsb_has_value l) Hd) as Hex.
    destruct l as [|v l]; [by destruct Hd as [d ?%elem_of_nil]|].
    rewrite Hex. unfold dtype_of. by rewrite Hex.
  - by intros ->.
  - intros Hne Hnull. destruct l as [|v l]; [done|].
    destruct (existsb _ (v :: l)) eqn:Hex; [|done].
    apply existsb_has_value in Hex as [d Hd]. by specialize (Hnull _ Hd).
Qed.

Lemma series_len_dt_date (l : list (option date)) :
  series_len (dt_date l) = length l.
Proof.
  unfold dt_date. destruct l as [|v l]; [done|].
  by destruct (existsb _ (v :: l)).
Qed.

End DateColumns.

Lemma dated_streamed_outcome :
  Examples.dated_streamed_run.1
    = Raise (ValueError "Table schema does not match schema used to create file") ∧
  written_summary Examples.abstract_parquet Examples.dated_streamed_run.2
    = Some ([("filing_date", TDate32)], [100000%Z]).
Proof. vm_compute. split; reflexivity. Qed.

Lemma dated_buffered_outcome :
  Examples.dated_buffered_run.1 = Ok tt ∧
  written_summary Examples.abstract_parquet Examples.dated_buffered_run.2
    = Some ([("filing_date", TDate32)], [100001%Z]).
Proof. vm_compute. split; reflexivity. Qed.

(** C5: a value of a declared DATE column that does not parse becomes a
    null, but the member can be aborted all the same.  The two members
    below hold the same rows: a date in the first 100000 rows of the
    declared column and the empty string in the last one.  Next to a date
    the empty string is a null of a date column; alone in its chunk it
    makes the column a timestamp column.  So the streamed member, whose
    second chunk is that one row, reaches the writer with a schema that is
    not the one of the first chunk, and the write raises; the buffered
    member is written whole, with the null in its last row. *)
Theorem empty_date_chunk_aborts_stream :
  coerce_frame (Some {["filing_date"]}) None
    [("filing_date", SStr ["2020-01-05"; ""])]
    = Ok [("filing_date", SDate [Some (Date 2020 1 5); None])] ∧
  coerce_frame (Some {["filing_date"]}) None [("filing_date", SStr [""])]
    = Ok [("filing_date", SNaT 1)] ∧
  content Examples.dated_streamed = content Examples.dated_buffered ∧
  strategy_of Examples.dated_streamed = STREAMING ∧
  strategy_of Examples.dated_buffered = BUFFERED ∧
  Examples.dated_streamed_run.1
    = Raise (ValueError "Table schema does not match schema used to create file") ∧
  written_summary Examples.abstract_parquet Examples.dated_streamed_run.2
    = Some ([("filing_date", TDate32)], [100000%Z]) ∧
  Examples.dated_buffered_run.1 = Ok tt ∧
  written_summary Examples.abstract_parquet Examples.dated_buffered_run.2
    = Some ([("filing_date", TDate32)], [100001%Z]).
Proof.
  destruct dated_streamed_outcome as [Hrs Hws].
  destruct dated_buffered_outcome as [Hrb Hwb].
  split; [vm_compute; reflexivity|].
  split; [vm_compute; reflexivity|].
  split; [reflexivity|].
  split; [reflexivity|].
  split; [reflexivity|].
  split; [exact Hrs|].
  split; [exact Hws|].
  split; [exact Hrb|].
  exact Hwb.
Qed.

(** ** Columnar writer *)

Section WriterFacts.
Context `{PandasParsers}.

Lemma list_difference_cons_same (p : string) (l : list string) :
  list_difference (p :: l) [p] = list_difference l [p].
Proof.
  simpl. destruct (decide_rel elem_of p [p]) as [|Hn]; [done|].
  destruct Hn. by left.
Qed.

Lemma list_difference_absent (p : string) (l : list string) :
  p ∉ l → list_difference l [p] = l.
Proof.
  induction l as [|x l IH]; [done|].
  intros Hp. apply not_elem_of_cons in Hp as [Hne Hp].
  simpl. destruct (decide_rel elem_of x [p]) as [Hin|_].
  - apply list_elem_of_singleton in Hin. congruence.
  - by rewrite IH.
Qed.

Lemma write_table_handles (wr : ParquetWriter) (t : DataFrame) (w : World) :
  open_writers (write_table wr t w).2 = open_writers w.
Proof.
  unfold write_table. case_decide; [|done].
  by destruct (disk_quota w) as [[|n]|].
Qed.

Lemma mkdir_handles (path : string) (w : World) :
  open_writers (mkdir path w).2 = open_writers w.
Proof. unfold mkdir. by destruct (denied w !! path). Qed.

(** The handles during the loop: a writer that exists on entry is the
    writer on exit and no handle changes; without one on entry, either
    none was created and no handle changes, or one was created for the
    output path and its handle is the only new one. *)
Lemma streaming_loop_handles (items : list item) (i : nat)
    (parquet_path log_prefix : string)
    (dc ic : option (gset string)) (writer : option ParquetWriter) (w : World) :
  let '(r, writer', w') :=
    streaming_loop items i parquet_path log_prefix dc ic writer w in
  match writer with
  | Some wr => writer' = Some wr ∧ open_writers w' = open_writers w
  | None =>
      (writer' = None ∧ open_writers w' = open_writers w) ∨
      (∃ wr, writer' = Some wr ∧ w_path wr = parquet_path ∧
             open_writers w' = parquet_path :: open_writers w)
  end.
Proof.
  Local Opaque coerce_frame write_table mkdir.
  revert i writer w.
  induction items as [|[chunk|e] rest IH]; intros i writer w; simpl.
  - destruct writer; auto.
  - destruct (coerce_frame dc ic chunk) as [table|e].
    + destruct writer as [wr|]; simpl.
      * match goal with
        | |- context [write_table wr table ?w0] =>
            pose proof (write_table_handles wr table w0) as Hw;
            destruct (write_table wr table w0) as [[[]|e] w1]
        end; simpl in Hw.
        -- specialize (IH (S i) (Some wr) w1).
           destruct (streaming_loop rest _ _ _ _ _ _ _) as [[r wr'] w'].
           destruct IH as [-> Hopen]. split; [done | congruence].
        -- auto.
      * match goal with
        | |- context [mkdir ?p ?w0] =>
            pose proof (mkdir_handles p w0) as Hm;
            destruct (mkdir p w0) as [[[]|e] wm]
        end; simpl in Hm; [|by left].
        set (wr := {| w_path := parquet_path; w_schema := schema_of table |}).
        match goal with
        | |- context [write_table wr table ?w0] =>
            pose proof (write_table_handles wr table w0) as Hw;
            destruct (write_table wr table w0) as [[[]|e] w1]
        end; simpl in Hw.
        -- specialize (IH (S i) (Some wr) w1).
           destruct (streaming_loop rest _ _ _ _ _ _ _) as [[r wr'] w'].
           destruct IH as [-> Hopen]. right. exists wr.
           split; [done|]. split; [done|]. congruence.
        -- right. exists wr. rewrite Hw. simpl. by rewrite Hm.
    + destruct writer; auto.
  - destruct writer; auto.
Qed.

(** C9: however [_write_parquet_streaming] ends, with a normal return or
    with a raised error, the handles that are open afterwards are the
    ones that were open before, less the handle of the output path when a
    writer was opened: no handle that the conversion opened stays open,
    and when the output path was not open beforehand the open handles are
    exactly those from before. *)
Theorem streaming_writer_closed (tsv_stream : Content)
    (parquet_path log_prefix : string) (chunksize : Z)
    (dc ic : option (gset string)) (w : World) :
  let '(r, w') :=
    _write_parquet_streaming tsv_stream parquet_path log_prefix chunksize
      dc ic w in
  (open_writers w' = open_writers w ∨
   open_writers w' = list_difference (open_writers w) [parquet_path]) ∧
  (∀ p, p ∈ open_writers w' → p ∈ open_writers w) ∧
  (parquet_path ∉ open_writers w → open_writers w' = open_writers w).
Proof.
  unfold _write_parquet_streaming.
  destruct (chunksize <? 1)%Z; [by auto|].
  pose proof (streaming_loop_handles (read_csv_chunks chunksize tsv_stream)
                0 parquet_path log_prefix dc ic None w) as Hloop.
  destruct (streaming_loop _ _ _ _ _ _ _ _) as [[r writer] w1].
  destruct Hloop as [[-> Hsame] | (wr & -> & Hpath & Hopen)].
  - rewrite Hsame. auto.
  - unfold writer_close. simpl.
    rewrite Hpath, Hopen, list_difference_cons_same.
    split; [by right|]. split.
    + intros p Hp. by apply list_elem_of_difference in Hp as [Hp _].
    + apply list_difference_absent.
Qed.
Local Transparent coerce_frame write_table mkdir.
End WriterFacts.

Lemma streaming_writer_closed_witness :
  open_writers
    (_write_parquet_streaming Examples.broken_content "out/t.parquet" "t.tsv"
       2 None None empty_world).2 = [].
Proof.
  pose proof (streaming_writer_closed Examples.broken_content "out/t.parquet"
                "t.tsv" 2 None None empty_world) as Hclosed.
  destruct (_write_parquet_streaming _ _ _ _ _ _ _) as [r w'].
  apply Hclosed. simpl. apply not_elem_of_nil.
Defined.

(** A stream that fails after its first chunk: the error is raised, the
    first chunk stays in the output file and the file is not left open. *)
Example streaming_failure_leaves_closed_partial_file :
  let '(r, w') :=
    _write_parquet_streaming Examples.broken_content "out/t.parquet" "t.tsv"
      2 None None empty_world in
  r = Raise (ReaderError "Expected 1 fields in line 4, saw 2") ∧
  parquet_files w' !! "out/t.parquet"
    = Some {| pf_schema := [("id", TString)];
              pf_tables := [[("id", SStr ["1"; "2"])]] |} ∧
  open_writers w' = [].
Proof. vm_compute. repeat split. Qed.

(** *** The schema of the output file *)

Section WriterSchema.
Context `{PandasParsers}.

Lemma write_table_uniform (wr : ParquetWriter) (t : DataFrame) (w : World)
    (f : ParquetFile) :
  parquet_files w !! w_path wr = Some f →
  uniform_file (w_schema wr) f →
  ∃ f', parquet_files (write_table wr t w).2 !! w_path wr = Some f' ∧
        uniform_file (w_schema wr) f'.
Proof.
  intros Hf [Hs Ht]. unfold write_table.
  case_decide as Hschema; [|by exists f].
  assert (Happ : ∃ f', append_table (w_path wr) t (parquet_files w) !! w_path wr = Some f' ∧
                       uniform_file (w_schema wr) f').
  { unfold append_table. rewrite Hf, lookup_insert_eq. eexists. split; [done|].
    split; [done|]. simpl. apply Forall_app. split; [done|]. by constructor. }
  destruct (disk_quota w) as [[|n]|]; simpl; [by exists f | done | done].
Qed.

Lemma streaming_loop_uniform (items : list item) (i : nat)
    (log_prefix : string) (dc ic : option (gset string))
    (wr : ParquetWriter) (w : World) (f : ParquetFile) :
  parquet_files w !! w_path wr = Some f →
  uniform_file (w_schema wr) f →
  ∃ f', parquet_files
          (streaming_loop items i (w_path wr) log_prefix dc ic (Some wr) w).2
          !! w_path wr = Some f' ∧
        uniform_file (w_schema wr) f'.
Proof.
  Local Opaque coerce_frame write_table.
  revert i w f.
  induction items as [|[chunk|e] rest IH]; intros i w f Hf Hu; simpl.
  - by exists f.
  - destruct (coerce_frame dc ic chunk) as [table|e]; [|by exists f].
    match goal with
    | |- context [write_table wr table ?w0] =>
        destruct (write_table_uniform wr table w0 f Hf Hu) as (f1 & Hf1 & Hu1);
        destruct (write_table wr table w0) as [[[]|e] w1]
    end; simpl in Hf1.
    + by apply (IH (S i) w1 f1).
    + by exists f1.
  - by exists f.
Qed.
Local Transparent coerce_frame write_table.

(** The writer never renegotiates: when the streamed conversion has
    opened its output, the file carries the schema of the first chunk, and
    so does every table in it, however the conversion ended. *)
Lemma streaming_file_keeps_first_schema (tsv_stream : Content)
    (parquet_path log_prefix : string) (chunksize : Z)
    (dc ic : option (gset string)) (w : World) :
  let w' := (_write_parquet_streaming tsv_stream parquet_path log_prefix
               chunksize dc ic w).2 in
  parquet_files w' = parquet_files w ∨
  ∃ first f,
    head (chunk_schemas dc ic (read_csv_chunks chunksize tsv_stream))
      = Some (Some first) ∧
    parquet_files w' !! parquet_path = Some f ∧
    uniform_file first f.
Proof.
  unfold _write_parquet_streaming.
  destruct (chunksize <? 1)%Z; [by left|].
  destruct (read_csv_chunks chunksize tsv_stream) as [|[chunk|e] rest];
    [by left | | by left].
  Local Opaque write_table coerce_frame.
  simpl.
  destruct (coerce_frame dc ic chunk) as [table|e]; [|by left].
  unfold mkdir. simpl.
  destruct (denied w !! PyStr.path_parent parquet_path); [by left|]. simpl.
  set (wr := {| w_path := parquet_path; w_schema := schema_of table |}).
  match goal with
  | |- context [write_table wr table ?w0] =>
      destruct (write_table_uniform wr table w0
                  {| pf_schema := schema_of table; pf_tables := [] |})
        as (f1 & Hf1 & Hu1);
        [by simpl; rewrite lookup_insert_eq | by split; [|constructor] |];
      destruct (write_table wr table w0) as [[[]|e] w1]
  end; simpl in Hf1.
  - destruct (streaming_loop_uniform rest 1 log_prefix dc ic wr w1 f1 Hf1 Hu1)
      as (f2 & Hf2 & Hu2).
    simpl in Hf2.
    destruct (streaming_loop rest 1 parquet_path log_prefix dc ic (Some wr) w1)
      as [[r [wr'|]] w2] eqn:Hloop; simpl in *.
    + right. exists (schema_of table), f2. auto.
    + right. exists (schema_of table), f2. auto.
  - right. exists (schema_of table), f1. auto.
Qed.
Local Transparent write_table coerce_frame.
End WriterSchema.

(** ** The two strategies on the same rows *)

Lemma summaries_differ (path : string) (w1 w2 : World)
    (a b : Schema * list Z) :
  written_summary path w1 = Some a →
  written_summary path w2 = Some b →
  a ≠ b →
  parquet_files w1 ≠ parquet_files w2.
Proof.
  unfold written_summary. intros H1 H2 Hab Heq.
  rewrite Heq, H2 in H1. by injection H1.
Qed.

Lemma abstract_streamed_outcome :
  Examples.abstract_streamed_run.1
    = Raise (ValueError "Table schema does not match schema used to create file") ∧
  written_summary Examples.abstract_parquet Examples.abstract_streamed_run.2
    = Some ([("word_count", TInt64)], [100000%Z]).
Proof. vm_compute. split; reflexivity. Qed.

Lemma abstract_buffered_outcome :
  Examples.abstract_buffered_run.1 = Ok tt ∧
  written_summary Examples.abstract_parquet Examples.abstract_buffered_run.2
    = Some ([("word_count", TFloat64)], [100001%Z]).
Proof. vm_compute. split; reflexivity. Qed.

(** C1: the two members below hold the same rows and differ in their
    recorded size only.  The one at the threshold is streamed: its first
    chunk of 100000 rows fixes the column as integer, the second chunk
    comes out as floating point and the write raises, leaving the first
    chunk alone in the file.  The one below the threshold is buffered: the
    conversion succeeds and the column is floating point over all 100001
    rows.  The outputs are not identical. *)
Theorem streaming_and_buffered_differ :
  content Examples.abstract_streamed = content Examples.abstract_buffered ∧
  strategy_of Examples.abstract_streamed = STREAMING ∧
  strategy_of Examples.abstract_buffered = BUFFERED ∧
  Examples.abstract_streamed_run.1
    = Raise (ValueError "Table schema does not match schema used to create file") ∧
  Examples.abstract_buffered_run.1 = Ok tt ∧
  written_summary Examples.abstract_parquet Examples.abstract_streamed_run.2
    = Some ([("word_count", TInt64)], [100000%Z]) ∧
  written_summary Examples.abstract_parquet Examples.abstract_buffered_run.2
    = Some ([("word_count", TFloat64)], [100001%Z]) ∧
  parquet_files Examples.abstract_streamed_run.2
    ≠ parquet_files Examples.abstract_buffered_run.2.
Proof.
  destruct abstract_streamed_outcome as [Hrs Hws].
  destruct abstract_buffered_outcome as [Hrb Hwb].
  split; [reflexivity|].
  split; [reflexivity|].
  split; [reflexivity|].
  split; [exact Hrs|].
  split; [exact Hrb|].
  split; [exact Hws|].
  split; [exact Hwb|].
  apply (summaries_differ _ _ _ _ _ Hws Hwb). discriminate.
Qed.

(** C2: in the streamed conversion of the same member the first chunk
    reaches the writer with an integer column and the second chunk with a
    floating-point column: the chunk after the first does not carry the
    schema of the first, and the writer, which keeps the schema it was
    created with, refuses it. *)
Theorem later_chunk_changes_schema :
  let items := read_csv_chunks (lower_chunksize Examples.abstract_table)
                 Examples.abstract_content in
  _get_column_types Examples.abstract_table "granted" Examples.abstract_world
    = (None, Some {["word_count"]}) ∧
  chunk_schemas None (Some {["word_count"]}) items
    = [Some [("word_count", TInt64)]; Some [("word_count", TFloat64)]] ∧
  (_write_parquet_streaming Examples.abstract_content Examples.abstract_parquet
     "g_abstract.tsv" (lower_chunksize Examples.abstract_table)
     None (Some {["word_count"]}) Examples.abstract_world).1
    = Raise (ValueError "Table schema does not match schema used to create file").
Proof. vm_compute. split; [|split]; reflexivity. Qed.

(** * Further properties *)

(** ** Further properties of the coercer *)

(** X1: with a column limit [n] the frame is refused exactly when it has
    fewer than [n] columns; otherwise its first [n] columns come back, in
    order and with every value in place.  With the limit the module sets
    ([None]) every frame comes back as it is. *)
Theorem column_limit_behaviour (n : nat) (df : DataFrame) :
  ((∃ e, apply_column_limit_with (Some n) df = Raise e) ↔ (length df < n)%nat) ∧
  ((n ≤ length df)%nat →
     ∃ df', apply_column_limit_with (Some n) df = Ok df' ∧
            length df' = n ∧ df' = take n df ∧
            columns df' = take n (columns df)) ∧
  _apply_column_limit df = Ok df.
Proof.
  unfold apply_column_limit_with.
  split; [|split].
  - destruct (length df <? n)%nat eqn:E.
    + apply Nat.ltb_lt in E. split; [done|]. intros _. by eexists.
    + apply Nat.ltb_ge in E. split; [by intros [e He] | lia].
  - intros Hn. destruct (length df <? n)%nat eqn:E.
    + apply Nat.ltb_lt in E. lia.
    + exists (take n df). split; [done|]. split; [|split; [done|]].
      * rewrite length_take. lia.
      * unfold columns. by rewrite <- firstn_map.
  - reflexivity.
Qed.

Lemma column_limit_behaviour_witness :
  ∃ df', apply_column_limit_with (Some 1%nat)
           [("id", SStr ["7"]); ("title", SStr ["x"])] = Ok df' ∧
         columns df' = ["id"].
Proof.
  destruct (column_limit_behaviour 1
              [("id", SStr ["7"]); ("title", SStr ["x"])])
    as (_ & Hok & _).
  destruct Hok as (df' & Hdf & _ & _ & Hcols); [simpl; lia|].
  exists df'. by split.
Defined.

(** ** Schema resolver *)

Lemma elem_of_names_of_type (ty name : string) (schema : list SchemaField) :
  name ∈ names_of_type ty schema ↔ declares schema name ty.
Proof.
  unfold names_of_type, declares.
  rewrite elem_of_list_to_set, list_elem_of_In, in_map_iff.
  split.
  - intros (f & Hname & Hin). apply list_elem_of_In, list_elem_of_filter in Hin.
    destruct Hin as [Hty Hin]. by exists f.
  - intros (f & Hin & Hname & Hty). exists f. split; [done|].
    apply list_elem_of_In, list_elem_of_filter. by split.
Qed.

Lemma declared_in_nonempty_or_None (s : gset string) (name : string) :
  declared_in (nonempty_or_None s) name ↔ name ∈ s.
Proof.
  unfold declared_in, nonempty_or_None. case_decide as Hs.
  - subst s. split; [by intros (s & ? & _) | intros Hin].
    by apply not_elem_of_empty in Hin.
  - split; [by intros (s' & [= <-] & Hin) | intros Hin; by exists s].
Qed.

(** X2: a name comes back as a DATE (INTEGER) column exactly when the schema
    file of the table loads and holds a field with that name whose type is
    the string [DATE] ([INTEGER]).  A set never comes back empty: a schema
    without fields of a type gives [None] for it, and a missing or
    unloadable schema file gives [None] for both. *)
Theorem resolver_declares (table_name dataset : string) (w : World) :
  let r := _get_column_types table_name dataset w in
  let file := schema_files w !! schema_file_path table_name dataset in
  (∀ name, declared_in r.1 name ↔
           ∃ schema, file = Some (Some schema) ∧ declares schema name "DATE") ∧
  (∀ name, declared_in r.2 name ↔
           ∃ schema, file = Some (Some schema) ∧ declares schema name "INTEGER") ∧
  r.1 ≠ Some ∅ ∧ r.2 ≠ Some ∅ ∧
  ((file = None ∨ file = Some None) → r = (None, None)).
Proof.
  intros r file. unfold r, _get_column_types. fold file.
  destruct file as [[schema|]|]; simpl.
  - split; [|split; [|split; [|split]]].
    + intros name. rewrite declared_in_nonempty_or_None, elem_of_names_of_type.
      split; [intros Hd; by exists schema | by intros (s & [= <-] & Hd)].
    + intros name. rewrite declared_in_nonempty_or_None, elem_of_names_of_type.
      split; [intros Hd; by exists schema | by intros (s & [= <-] & Hd)].
    + unfold nonempty_or_None. case_decide; congruence.
    + unfold nonempty_or_None. case_decide; congruence.
    + by intros [|].
  - repeat split; try done; try (by intros (s & ? & _)); by intros (s & ? & _).
  - repeat split; try done; try (by intros (s & ? & _)); by intros (s & ? & _).
Qed.

Lemma map_lookup_Some {A B} (f : A → B) (l : list A) (i : nat) (x : A) :
  l !! i = Some x → map f l !! i = Some (f x).
Proof.
  revert i. induction l as [|y l IH]; intros [|i]; simpl; try done.
  - by intros [= ->].
  - apply IH.
Qed.

(** X3: when no two fields of the schema file share a name, no column is
    declared both DATE and INTEGER. *)
Theorem resolver_sets_disjoint (table_name dataset : string) (w : World)
    (schema : list SchemaField) :
  schema_files w !! schema_file_path table_name dataset = Some (Some schema) →
  NoDup (map field_name schema) →
  ∀ name,
    ¬ (declared_in (_get_column_types table_name dataset w).1 name ∧
       declared_in (_get_column_types table_name dataset w).2 name).
Proof.
  intros Hfile Hnodup name [Hd Hi].
  unfold _get_column_types in Hd, Hi. rewrite Hfile in Hd, Hi. simpl in Hd, Hi.
  apply declared_in_nonempty_or_None, elem_of_names_of_type in Hd.
  apply declared_in_nonempty_or_None, elem_of_names_of_type in Hi.
  destruct Hd as (f & Hf & Hfn & Hft). destruct Hi as (g & Hg & Hgn & Hgt).
  assert (f = g); [|congruence].
  apply list_elem_of_lookup in Hf as [i Hi]. apply list_elem_of_lookup in Hg as [j Hj].
  assert (i = j); [|congruence].
  apply (NoDup_lookup (map field_name schema) i j name); [done| |].
  - rewrite <- Hfn. by apply map_lookup_Some.
  - rewrite <- Hgn. by apply map_lookup_Some.
Qed.

(** ** Row normaliser, once more *)

(** X4: wrapping every value of the string columns of a frame in one pair
    of double quotes and normalising gives the frame back, whatever its
    values are; of a value wrapped twice the inner pair stays. *)
Theorem strip_outer_quotes_unwraps (df : DataFrame) :
  _strip_outer_quotes (quote_frame df) = df ∧
  ∀ v, strip_cell (quoted (quoted v)) = quoted v.
Proof.
  split.
  - unfold _strip_outer_quotes, quote_frame. rewrite map_map.
    rewrite <- (map_id df) at 2. apply map_ext. intros [c s]. simpl. f_equal.
    destruct s as [l| | | |]; simpl; try done. f_equal.
    rewrite map_map. rewrite <- (map_id l) at 2. apply map_ext.
    intros v. apply strip_cell_wrapped.
  - intros v. apply strip_cell_wrapped.
Qed.


(** ** The coercion, column by column *)

Section CoercionShape.
Context `{PandasParsers}.

Lemma _parse_date_columns_names (df : DataFrame) (dc : option (gset string)) :
  _parse_date_columns df dc = map_declared (names_in dc) date_series df.
Proof.
  destruct dc as [cols|]; simpl.
  - apply _parse_date_columns_spec.
  - by rewrite map_declared_empty.
Qed.

Lemma _parse_integer_columns_names (df df' : DataFrame)
    (ic : option (gset string)) :
  _parse_integer_columns df ic = Ok df' ↔
  try_map_declared (names_in ic) integer_series df = Ok df'.
Proof.
  destruct ic as [cols|]; simpl.
  - apply _parse_integer_columns_Ok.
  - by rewrite try_map_declared_empty.
Qed.

(** The map over the declared columns, column by column. *)
Lemma try_map_declared_Forall2 (X : gset string) (f : Series → result Series)
    (df df' : DataFrame) :
  try_map_declared X f df = Ok df' ↔
  Forall2 (λ cs cs' : string * Series,
             cs'.1 = cs.1 ∧
             (if decide (cs.1 ∈ X) then f cs.2 else Ok cs.2) = Ok cs'.2)
          df df'.
Proof.
  revert df'. induction df as [|[c s] df IH]; intros df'.
  - simpl. split.
    + intros [= <-]. constructor.
    + intros Hall. by apply Forall2_nil_inv_l in Hall as ->.
  - rewrite try_map_declared_cons. split.
    + intros (s' & d' & Hs & Hrest & ->). constructor; [done|]. by apply IH.
    + intros Hall. apply Forall2_cons_inv_l in Hall
        as ([c' s'] & d' & [Hc Hs] & Hrest & ->).
      simpl in Hc, Hs. subst c'. exists s', d'. split; [done|].
      split; [by apply IH | done].
Qed.

(** The coercion returns a frame exactly when every column goes through,
    and then the frame holds the coerced columns under their names. *)
Lemma coerce_frame_columnwise (dc ic : option (gset string))
    (df df' : DataFrame) :
  coerce_frame dc ic df = Ok df' ↔
  Forall2 (λ cs cs' : string * Series,
             cs'.1 = cs.1 ∧ column_coercion dc ic cs.1 cs.2 = Ok cs'.2)
          df df'.
Proof.
  unfold coerce_frame. simpl.
  rewrite _parse_integer_columns_names, _parse_date_columns_names.
  rewrite try_map_declared_Forall2.
  unfold map_declared, _strip_outer_quotes. rewrite map_map.
  rewrite Forall2_fmap_l.
  split; intros Hall; (eapply Forall2_impl; [exact Hall|]);
    intros [c s] [c' s']; simpl; unfold column_coercion;
    destruct (decide (c ∈ names_in dc)); simpl; done.
Qed.

Lemma coerce_frame_raise (dc ic : option (gset string)) (df : DataFrame)
    (e : exn) :
  coerce_frame dc ic df = Raise e → ∃ msg, e = TypeError msg.
Proof. unfold coerce_frame. simpl. apply _parse_integer_columns_raise. Qed.

Lemma series_len_strip (s : Series) : series_len (strip_series s) = series_len s.
Proof. destruct s; simpl; by rewrite ?length_map. Qed.

Lemma series_len_date (s : Series) : series_len (date_series s) = series_len s.
Proof.
  destruct s; simpl;
    by rewrite series_len_dt_date, ?length_map, ?length_replicate.
Qed.

Lemma length_numeric_values (n : Numeric) :
  length (numeric_values n) = numeric_len n.
Proof. destruct n; simpl; by rewrite ?length_map. Qed.

Lemma length_astype_Int64 (n : Numeric) (l : list (option Z)) :
  astype_Int64 n = Ok l → length l = numeric_len n.
Proof.
  unfold astype_Int64. destruct n; case_match; try done;
    intros [= <-]; simpl; by rewrite length_map.
Qed.

Lemma numeric_len_round (n : Numeric) :
  numeric_len (numeric_round n) = numeric_len n.
Proof. destruct n; simpl; by rewrite ?length_map. Qed.

Lemma series_len_integer (s s' : Series) :
  integer_series s = Ok s' → series_len s' = series_len s.
Proof.
  unfold integer_series.
  destruct (existsb _ _); [destruct (forallb _ _)|].
  - destruct (astype_Int64 _) as [l|] eqn:E; [|done]. intros [= <-]. simpl.
    by rewrite (length_astype_Int64 _ _ E), numeric_len_round, to_numeric_len.
  - intros [= <-]. simpl. by rewrite length_numeric_values, to_numeric_len.
  - destruct (astype_Int64 _) as [l|] eqn:E; [|done]. intros [= <-]. simpl.
    by rewrite (length_astype_Int64 _ _ E), to_numeric_len.
Qed.

Lemma series_len_column_coercion (dc ic : option (gset string)) (c : string)
    (s s' : Series) :
  column_coercion dc ic c s = Ok s' → series_len s' = series_len s.
Proof.
  unfold column_coercion.
  destruct (decide (c ∈ names_in ic)).
  - intros Hs%series_len_integer. rewrite Hs.
    case_decide; by rewrite ?series_len_date, series_len_strip.
  - intros [= <-]. case_decide; by rewrite ?series_len_date, series_len_strip.
Qed.

Lemma coerced_columns (dc ic : option (gset string)) (df df' : DataFrame) :
  Forall2 (λ cs cs' : string * Series,
             cs'.1 = cs.1 ∧ column_coercion dc ic cs.1 cs.2 = Ok cs'.2)
          df df' →
  columns df' = columns df.
Proof.
  unfold columns. induction 1 as [|[c s] [c' s'] df df' [Hc _] _ IH]; [done|].
  cbn [map fst] in *. by rewrite Hc, IH.
Qed.

Lemma coerced_lengths (dc ic : option (gset string)) (df df' : DataFrame) :
  Forall2 (λ cs cs' : string * Series,
             cs'.1 = cs.1 ∧ column_coercion dc ic cs.1 cs.2 = Ok cs'.2)
          df df' →
  column_lengths df' = column_lengths df.
Proof.
  unfold column_lengths.
  induction 1 as [|[c s] [c' s'] df df' [_ Hs] _ IH]; [done|].
  cbn [map fst snd] in *.
  by rewrite (series_len_column_coercion _ _ _ _ _ Hs), IH.
Qed.

(** X5: the coercion of a frame never adds, drops or reorders a column or
    a row: when it returns, the header, the length of every column and the
    number of rows are those of the frame that went in.  The one error it
    can raise is the [TypeError] of the cast of an INTEGER column, and a
    frame that has no declared INTEGER column always comes back. *)
Theorem coerce_frame_keeps_shape (dc ic : option (gset string)) (df : DataFrame) :
  (∀ df', coerce_frame dc ic df = Ok df' →
          columns df' = columns df ∧
          column_lengths df' = column_lengths df ∧
          nrows df' = nrows df) ∧
  (∀ e, coerce_frame dc ic df = Raise e → ∃ msg, e = TypeError msg) ∧
  ((∀ c, c ∈ names_in ic → c ∉ columns df) →
     ∃ df', coerce_frame dc ic df = Ok df').
Proof.
  split; [|split].
  - intros df' Hok%coerce_frame_columnwise.
    split; [by apply (coerced_columns dc ic)|].
    split; [by apply (coerced_lengths dc ic)|].
    destruct Hok as [|[c s] [c' s'] df df' [_ Hs] _]; [done|].
    cbn [nrows fst snd] in *.
    by apply (series_len_column_coercion dc ic c).
  - apply coerce_frame_raise.
  - intros Habs. unfold coerce_frame. simpl.
    destruct ic as [X|]; [|by eexists]. eexists.
    apply _parse_integer_columns_Ok, try_map_declared_all_absent.
    intros c Hc. rewrite _parse_date_columns_names, columns_map_declared.
    unfold _strip_outer_quotes, columns. rewrite map_map. simpl.
    by apply Habs.
Qed.

Lemma dtype_integer_series (s s' : Series) :
  integer_series s = Ok s' → dtype_of s' = TInt64 ∨ dtype_of s' = TFloat64.
Proof.
  unfold integer_series.
  destruct (existsb _ _); [destruct (forallb _ _)|];
    try destruct (astype_Int64 _); try done; intros [= <-]; simpl; auto.
Qed.

(** The first column of a name in a frame coerced column by column. *)
Lemma get_column_Forall2 (g : string → Series → result Series) (c : string)
    (s : Series) (df df' : DataFrame) :
  Forall2 (λ cs cs' : string * Series, cs'.1 = cs.1 ∧ g cs.1 cs.2 = Ok cs'.2)
          df df' →
  get_column c df = Some s →
  ∃ s', get_column c df' = Some s' ∧ g c s = Ok s'.
Proof.
  induction 1 as [|[c0 s0] [c1 s1] df df' [Hc Hs] _ IH]; [done|].
  simpl in *. subst c1.
  destruct (decide (c0 = c)) as [->|Hne]; [|done].
  intros [= ->]. by exists s1.
Qed.

(** X6: in the coerced frame of a frame of strings the type of every column
    follows its declaration.  A declared INTEGER column is nullable integer
    or floating point.  A column declared DATE and not INTEGER holds, row
    for row, what the date parser makes of the normalised values; it is a
    date column when some value parses, and a timestamp column when it has
    rows and no value parses.  A column with neither declaration is the
    string column it was, normalised. *)
Theorem coerce_frame_types (dc ic : option (gset string)) (df df' : DataFrame)
    (c : string) (l : list string) :
  coerce_frame dc ic df = Ok df' →
  get_column c df = Some (SStr l) →
  ∃ s', get_column c df' = Some s' ∧
    (c ∈ names_in ic → dtype_of s' = TInt64 ∨ dtype_of s' = TFloat64) ∧
    (c ∉ names_in ic → c ∈ names_in dc →
       let parsed := map to_datetime (map strip_cell l) in
       ((∃ d, Some d ∈ parsed) → s' = SDate parsed ∧ dtype_of s' = TDate32) ∧
       (l ≠ [] → (∀ v, v ∈ parsed → v = None) →
          s' = SNaT (length l) ∧ dtype_of s' = TTimestamp)) ∧
    (c ∉ names_in ic → c ∉ names_in dc → s' = SStr (map strip_cell l)).
Proof.
  intros Hok%coerce_frame_columnwise Hcol.
  destruct (get_column_Forall2 (column_coercion dc ic) c (SStr l) df df'
              Hok Hcol) as (s' & Hs' & Hco).
  exists s'. split; [done|].
  unfold column_coercion in Hco. split; [|split].
  - intros Hi. rewrite (decide_True _ _ Hi) in Hco.
    by apply dtype_integer_series in Hco.
  - intros Hi Hd parsed.
    rewrite (decide_False _ _ Hi), (decide_True _ _ Hd) in Hco.
    injection Hco as <-. simpl. fold parsed.
    destruct (dt_date_cases parsed) as (Hdates & _ & Hnat).
    split; [done|]. intros Hne Hnull.
    destruct Hnat as [-> Ht]; [|done|].
    + unfold parsed. by destruct l.
    + unfold parsed. by rewrite !length_map.
  - intros Hi Hd.
    rewrite (decide_False _ _ Hi), (decide_False _ _ Hd) in Hco.
    by injection Hco as <-.
Qed.

End CoercionShape.

Lemma coerce_frame_types_witness :
  ∃ s', get_column "patent_date"
          [("patent_date", SDate [Some (Date 2020 1 5); None; None])] = Some s' ∧
        s' = SDate [Some (Date 2020 1 5); None; None] ∧
        dtype_of s' = TDate32.
Proof.
  destruct (coerce_frame_types (Some {["patent_date"]}) None Examples.date_chunk
              [("patent_date", SDate [Some (Date 2020 1 5); None; None])]
              "patent_date" ["2020-01-05"; "01/05/2020"; ""])
    as (s' & Hcol & _ & Hdate & _).
  - vm_compute. reflexivity.
  - reflexivity.
  - exists s'. split; [done|].
    apply Hdate.
    + apply not_elem_of_empty.
    + unfold names_in. simpl. by apply elem_of_singleton.
    + exists (Date 2020 1 5). vm_compute. left.
Defined.

(** ** The order of the declared names *)

Section LoopOrder.
Context `{PandasParsers}.

Lemma coercion_steps_in_order (f : Series → Series) (names : list string)
    (X : gset string) (df : DataFrame) :
  NoDup names →
  (∀ x, x ∈ names → x ∉ X) →
  foldl (λ acc col, coercion_step f col acc) (map_declared X f df) names
  = map_declared (list_to_set names ∪ X) f df.
Proof.
  revert X. induction names as [|x names IH]; intros X Hnd Hfresh; simpl.
  - by rewrite (left_id_L ∅ (∪)).
  - apply NoDup_cons in Hnd as [Hx Hnd].
    assert (HxX : x ∉ X) by (apply Hfresh; left).
    assert (Hstep : coercion_step f x (map_declared X f df)
                    = map_declared ({[x]} ∪ X) f df).
    { unfold coercion_step, has_column. rewrite columns_map_declared.
      case_bool_decide.
      - by apply set_column_map_declared.
      - by rewrite map_declared_absent. }
    rewrite Hstep, IH; [|done|].
    + f_equal. rewrite (assoc_L (∪)). f_equal. apply (comm_L (∪)).
    + intros y Hy Hin. apply elem_of_added in Hin as [->|Hin]; [done|].
      apply (Hfresh y); [by right | done].
Qed.

Lemma coercion_steps_try_in_order (f : Series → result Series)
    (names : list string) (X : gset string) (df : DataFrame)
    (r : result DataFrame) :
  NoDup names →
  (∀ x, x ∈ names → x ∉ X) →
  same_outcome r (try_map_declared X f df) →
  same_outcome (foldl (λ acc col, coercion_step_try f col acc) r names)
               (try_map_declared (list_to_set names ∪ X) f df).
Proof.
  revert X r. induction names as [|x names IH]; intros X r Hnd Hfresh Hr; simpl.
  - by rewrite (left_id_L ∅ (∪)).
  - apply NoDup_cons in Hnd as [Hx Hnd].
    assert (HxX : x ∉ X) by (apply Hfresh; left).
    replace ({[x]} ∪ list_to_set names ∪ X)
      with (list_to_set names ∪ ({[x]} ∪ X) : gset string).
    + apply IH; [done| |by apply coercion_step_try_spec].
      intros y Hy Hin. apply elem_of_added in Hin as [->|Hin]; [done|].
      apply (Hfresh y); [by right | done].
    + rewrite (assoc_L (∪)). f_equal. apply (comm_L (∪)).
Qed.

(** X7: the two coercion loops run over a Python set, whose order is not
    fixed.  Whatever order the declared names are visited in, one after
    the other and each once, the outcome is the same: the same frame, or,
    for the INTEGER loop, an error in the one order and in the other. *)
Theorem coercion_order_irrelevant (df : DataFrame) (cols : gset string)
    (names : list string) :
  NoDup names →
  (∀ x, x ∈ names ↔ x ∈ cols) →
  foldl (λ acc col, coercion_step date_series col acc) df names
    = _parse_date_columns df (Some cols) ∧
  same_outcome
    (foldl (λ acc col, coercion_step_try integer_series col acc) (Ok df) names)
    (_parse_integer_columns df (Some cols)).
Proof.
  intros Hnd Hsame.
  assert (Hset : list_to_set names ∪ ∅ = cols).
  { rewrite (right_id_L ∅ (∪)). apply set_eq. intros x.
    by rewrite elem_of_list_to_set, Hsame. }
  split.
  - rewrite _parse_date_columns_spec, <- Hset.
    rewrite <- (map_declared_empty date_series df) at 1.
    apply coercion_steps_in_order; [done|]. intros x _. apply not_elem_of_empty.
  - eapply same_outcome_trans;
      [|apply same_outcome_sym, _parse_integer_columns_spec].
    rewrite <- Hset.
    apply coercion_steps_try_in_order; [done| |].
    + intros x _. apply not_elem_of_empty.
    + by rewrite try_map_declared_empty.
Qed.

End LoopOrder.

Lemma coercion_order_irrelevant_witness :
  foldl (λ acc col, coercion_step date_series col acc) Examples.date_chunk
    ["patent_date"; "filing_date"]
  = _parse_date_columns Examples.date_chunk
      (Some ({["filing_date"]} ∪ {["patent_date"]})).
Proof.
  apply (coercion_order_irrelevant Examples.date_chunk
           ({["filing_date"]} ∪ {["patent_date"]})
           ["patent_date"; "filing_date"]).
  - apply NoDup_cons. split.
    + intros Hin. apply list_elem_of_singleton in Hin. discriminate.
    + apply NoDup_singleton.
  - intros x. rewrite elem_of_union, !elem_of_singleton, elem_of_cons,
      list_elem_of_singleton. tauto.
Defined.

(** ** INTEGER columns, case by case *)

Section IntegerDecision.
Context `{PandasParsers}.

Lemma fits_or_not (l : list (option float64)) :
  (∀ x, Some x ∈ l → is_Some (rounded_int64 x)) ∨
  (∃ x, Some x ∈ l ∧ rounded_int64 x = None).
Proof.
  induction l as [|v l IH].
  - left. intros x Hx. by apply elem_of_nil in Hx.
  - destruct IH as [Hall|(x & Hx & Hn)].
    + destruct v as [y|].
      * destruct (rounded_int64 y) as [z|] eqn:E.
        -- left. intros x [[= <-]|Hx]%elem_of_cons;
             [rewrite E; by eexists | by apply Hall].
        -- right. exists y. split; [left | done].
      * left. intros x [?|Hx]%elem_of_cons; [done | by apply Hall].
    + right. exists x. split; [by right | done].
Qed.

(** X17: what [_parse_integer_columns] makes of a declared column, in terms
    of the values [pd.to_numeric] gives for it.  When the loop returns: a
    column without a value that is not null comes out as nullable integers,
    all null; a column with a value that is not within [1e-10] of its
    rounded value, an infinity among them, comes out as floating point with
    the parsed values; a column whose values are all within the tolerance
    comes out as nullable integers, each value rounded, and then every
    rounded value is a 64-bit integer.  When the values are all within the
    tolerance and a rounded value is no 64-bit integer, the loop raises
    [TypeError].  The rounded value is a nearest integer. *)
Theorem integer_column_decision
    (df : DataFrame) (ic : gset string) (c : string) (s : Series) :
  c ∈ ic →
  get_column c df = Some s →
  let l := numeric_values (to_numeric s) in
  (∀ df', _parse_integer_columns df (Some ic) = Ok df' →
     ((∀ v, v ∈ l → v = None) →
        get_column c df' = Some (SInt64 (map (λ _, None) l))) ∧
     ((∃ x, Some x ∈ l ∧ ¬ near_integer x) →
        get_column c df' = Some (SFloat64 l)) ∧
     ((∀ x, Some x ∈ l → near_integer x) →
        get_column c df'
          = Some (SInt64 (map (λ v : option float64, v ≫= rounded_int64) l)) ∧
        (∀ x, Some x ∈ l → is_Some (rounded_int64 x)))) ∧
  ((∀ x, Some x ∈ l → near_integer x) →
   (∃ x, Some x ∈ l ∧ rounded_int64 x = None) →
     ∃ msg, _parse_integer_columns df (Some ic) = Raise (TypeError msg)) ∧
  (∀ q, rounded_int64 (Finite q)
        = if fits_int64 (round_half_even q)
          then Some (round_half_even q) else None) ∧
  (∀ q z, (Qabs (q - inject_Z (round_half_even q)) <= Qabs (q - inject_Z z))%Q).
Proof.
  intros Hc Hcol l.
  destruct (integer_series_spec s) as (Hnull & Hfloat & Hint & Hraise).
  fold l in Hnull, Hfloat, Hint, Hraise.
  split; [|split; [|split]].
  - intros df' Hok. apply _parse_integer_columns_Ok in Hok.
    destruct (get_column_try_map_declared_in integer_series c ic df df' s
                Hc Hcol Hok) as (s' & Hs & ->).
    split; [|split].
    + intros Hall. rewrite (Hnull Hall) in Hs. by injection Hs as <-.
    + intros Hex. rewrite (Hfloat Hex) in Hs. by injection Hs as <-.
    + intros Hall. destruct (fits_or_not l) as [Hfit|Hbad].
      * rewrite (Hint Hall Hfit) in Hs. by injection Hs as <-.
      * by rewrite (Hraise Hall Hbad) in Hs.
  - intros Hall Hbad.
    destruct (try_map_declared_raises integer_series c ic df s _ Hc Hcol
                (Hraise Hall Hbad)) as [e' He'].
    pose proof (_parse_integer_columns_spec df ic) as Hsame.
    rewrite He' in Hsame.
    destruct (_parse_integer_columns df (Some ic)) as [d|e1] eqn:Hloop; [done|].
    destruct (_parse_integer_columns_raise df (Some ic) e1 Hloop) as [msg ->].
    by exists msg.
  - apply rounded_int64_Finite.
  - apply round_half_even_nearest.
Qed.

End IntegerDecision.

Lemma integer_column_decision_witness :
  get_column "num_claims" [("num_claims", SInt64 [Some 1; Some 2; Some 3])]
    = Some (SInt64 (map (λ v : option float64, v ≫= rounded_int64)
                      [Some (Finite 1); Some (Finite 2); Some (Finite 3)])) ∧
  get_column "num_claims"
    [("num_claims",
      SFloat64 [Some (Finite 1); Some (Finite (5 # 2)); Some (Finite 3)])]
    = Some (SFloat64 [Some (Finite 1); Some (Finite (5 # 2)); Some (Finite 3)]).
Proof.
  assert (Hin : "num_claims" ∈ ({["num_claims"]} : gset string))
    by (by apply elem_of_singleton).
  split.
  - destruct (integer_column_decision Examples.whole_chunk {["num_claims"]}
                "num_claims" (SStr ["1"; "2"; "3"]) Hin eq_refl)
      as (Hok & _).
    destruct (Hok [("num_claims", SInt64 [Some 1; Some 2; Some 3])])
      as (_ & _ & Hint); [vm_compute; reflexivity|].
    apply Hint. intros x Hx.
    assert (Hall : Forall (λ v : option float64, ∀ x, v = Some x → near_integer x)
                     [Some (Finite 1); Some (Finite 2); Some (Finite 3)]).
    { repeat constructor; intros x' [= <-]; vm_compute; reflexivity. }
    exact (forall_of_Forall _ _ Hall _ Hx x eq_refl).
  - destruct (integer_column_decision Examples.fractional_chunk {["num_claims"]}
                "num_claims" (SStr ["1"; "2.5"; "3"]) Hin eq_refl)
      as (Hok & _).
    destruct (Hok [("num_claims",
                    SFloat64 [Some (Finite 1); Some (Finite (5 # 2));
                              Some (Finite 3)])])
      as (_ & Hfloat & _); [vm_compute; reflexivity|].
    apply Hfloat. exists (Finite (5 # 2)). split.
    + apply elem_of_cons. right. apply elem_of_cons. by left.
    + intros Hnear. vm_compute in Hnear. discriminate.
Defined.

(** ** What a streamed conversion that succeeds has written *)

Section StreamedOutput.
Context `{PandasParsers}.

Lemma write_table_ok (wr : ParquetWriter) (t : DataFrame) (w w1 : World) :
  write_table wr t w = (Ok tt, w1) →
  schema_of t = w_schema wr ∧
  parquet_files w1 = append_table (w_path wr) t (parquet_files w).
Proof.
  unfold write_table. case_decide as Hs; [|done].
  destruct (disk_quota w) as [[|n]|]; [done| |]; by intros [= <-].
Qed.

Lemma streaming_loop_ok (items : list item) (i : nat)
    (log_prefix : string) (dc ic : option (gset string))
    (wr : ParquetWriter) (w : World) (f : ParquetFile)
    (wr' : option ParquetWriter) (w' : World) :
  streaming_loop items i (w_path wr) log_prefix dc ic (Some wr) w
    = (Ok tt, wr', w') →
  parquet_files w !! w_path wr = Some f →
  ∃ ts, coerced_chunks dc ic items = Some ts ∧
        Forall (λ t, schema_of t = w_schema wr) ts ∧
        parquet_files w' !! w_path wr
          = Some {| pf_schema := pf_schema f; pf_tables := pf_tables f ++ ts |}.
Proof.
  Local Opaque coerce_frame write_table.
  revert i w f.
  induction items as [|[chunk|e] rest IH]; intros i w f Hloop Hf; simpl in *.
  - injection Hloop as _ <-. exists []. rewrite app_nil_r.
    split; [done|]. split; [done|]. by destruct f.
  - destruct (coerce_frame dc ic chunk) as [t|e]; [|done].
    match type of Hloop with
    | context [write_table wr t ?w0] =>
        destruct (write_table wr t w0) as [[[]|e] w1] eqn:Hw; [|done]
    end.
    apply write_table_ok in Hw as [Hschema Hfiles]. simpl in Hfiles.
    assert (Hf1 : parquet_files w1 !! w_path wr
                  = Some {| pf_schema := pf_schema f;
                            pf_tables := pf_tables f ++ [t] |}).
    { rewrite Hfiles. unfold append_table. rewrite Hf. apply lookup_insert_eq. }
    destruct (IH (S i) w1 _ Hloop Hf1) as (ts & Hts & Hall & Hfile).
    exists (t :: ts). rewrite Hts. split; [done|]. split; [by constructor|].
    rewrite Hfile. simpl. by rewrite <- app_assoc.
  - done.
Qed.
Local Transparent coerce_frame write_table.

(** What a normal return of [_write_parquet_streaming] says about the
    output file. *)
Lemma streaming_ok_tables (tsv_stream : Content)
    (parquet_path log_prefix : string) (chunksize : Z)
    (dc ic : option (gset string)) (w w' : World) :
  _write_parquet_streaming tsv_stream parquet_path log_prefix chunksize dc ic w
    = (Ok tt, w') →
  ∃ t ts,
    coerced_chunks dc ic (read_csv_chunks chunksize tsv_stream) = Some (t :: ts) ∧
    Forall (λ x, schema_of x = schema_of t) ts ∧
    parquet_files w' !! parquet_path
      = Some {| pf_schema := schema_of t; pf_tables := t :: ts |}.
Proof.
  unfold _write_parquet_streaming.
  destruct (chunksize <? 1)%Z; [done|].
  assert (Hne : read_csv_chunks chunksize tsv_stream ≠ []).
  { unfold read_csv_chunks. destruct (defect tsv_stream).
    - intros Hnil. by apply app_eq_nil in Hnil as [_ ?].
    - destruct (nrows (table tsv_stream) =? 0)%nat eqn:Hn; [done|].
      apply Nat.eqb_neq in Hn.
      destruct (nrows (table tsv_stream)) as [|n] eqn:Hrows; [done|].
      simpl. rewrite Hrows. done. }
  destruct (read_csv_chunks chunksize tsv_stream) as [|[chunk|e] rest]; [done| |].
  - Local Opaque write_table coerce_frame.
    simpl.
    destruct (coerce_frame dc ic chunk) as [t|e0]; [|done].
    unfold mkdir. simpl.
    destruct (denied w !! PyStr.path_parent parquet_path); [done|]. simpl.
    set (wr := {| w_path := parquet_path; w_schema := schema_of t |}).
    match goal with
    | |- context [write_table wr t ?w0] =>
        destruct (write_table wr t w0) as [[[]|e] w1] eqn:Hw
    end.
    + apply write_table_ok in Hw as [_ Hfiles]. simpl in Hfiles.
      destruct (streaming_loop rest 1 parquet_path log_prefix dc ic (Some wr) w1)
        as [[r wr'] w2] eqn:Hloop.
      intros Hret.
      assert (r = Ok tt ∧ parquet_files w' = parquet_files w2) as [-> Hw'].
      { destruct wr'; by injection Hret as -> <-. }
      assert (Hf1 : parquet_files w1 !! w_path wr
                    = Some {| pf_schema := schema_of t; pf_tables := [] ++ [t] |}).
      { rewrite Hfiles. unfold append_table. simpl.
        rewrite lookup_insert_eq. apply lookup_insert_eq. }
      destruct (streaming_loop_ok rest 1 log_prefix dc ic wr w1 _ wr' w2 Hloop Hf1)
        as (ts & Hts & Hall & Hfile).
      exists t, ts. rewrite Hts.
      split; [done|]. split; [done|]. by rewrite Hw'.
    + done.
    Local Transparent write_table coerce_frame.
  - done.
Qed.

Lemma coerced_chunks_length (dc ic : option (gset string)) (items : list item)
    (ts : list DataFrame) :
  coerced_chunks dc ic items = Some ts → length ts = length items.
Proof.
  revert ts. induction items as [|[chunk|e] rest IH]; intros ts; simpl.
  - by intros [= <-].
  - destruct (coerce_frame dc ic chunk) as [t|]; [|done].
    destruct (coerced_chunks dc ic rest) as [ts'|]; [|done].
    intros [= <-]. simpl. by rewrite (IH ts').
  - done.
Qed.

(** X8: when [_write_parquet_streaming] returns normally, every item of the
    chunked reader was a chunk, and the output file holds the schema of the
    first coerced chunk and all the coerced chunks, one table for each
    chunk, in the order they were read, each with that schema. *)
Theorem streaming_success_output (tsv_stream : Content)
    (parquet_path log_prefix : string) (chunksize : Z)
    (dc ic : option (gset string)) (w w' : World) :
  _write_parquet_streaming tsv_stream parquet_path log_prefix chunksize dc ic w
    = (Ok tt, w') →
  ∃ t ts,
    coerced_chunks dc ic (read_csv_chunks chunksize tsv_stream) = Some (t :: ts) ∧
    Forall (λ x, schema_of x = schema_of t) ts ∧
    parquet_files w' !! parquet_path
      = Some {| pf_schema := schema_of t; pf_tables := t :: ts |} ∧
    length (t :: ts) = length (read_csv_chunks chunksize tsv_stream).
Proof.
  intros Hrun.
  destruct (streaming_ok_tables _ _ _ _ _ _ _ _ Hrun) as (t & ts & Hc & Hall & Hf).
  exists t, ts. repeat split; try done. by apply (coerced_chunks_length dc ic).
Qed.

End StreamedOutput.

(** ** Chunks and the whole *)

Lemma series_app_take_drop (n : nat) (s : Series) :
  series_app (series_take n s) (series_drop n s) = s.
Proof. destruct s; simpl; rewrite ?take_drop; try done. f_equal. lia. Qed.

Lemma frame_app_take_drop (n : nat) (df : DataFrame) :
  frame_app (frame_take n df) (frame_drop n df) = df.
Proof.
  unfold frame_app, frame_take, frame_drop.
  induction df as [|[c s] df IH]; [done|].
  simpl. by rewrite series_app_take_drop, IH.
Qed.

Lemma series_take_all (n : nat) (s : Series) :
  (series_len s ≤ n)%nat → series_take n s = s.
Proof.
  destruct s; simpl; intros Hn; rewrite ?take_ge; try done. f_equal. lia.
Qed.

Lemma frame_take_all (n k : nat) (df : DataFrame) :
  uniform_len n df → (n ≤ k)%nat → frame_take k df = df.
Proof.
  unfold frame_take. induction 1 as [|[c s] df Hs _ IH]; intros Hk; [done|].
  simpl in *. rewrite series_take_all by lia. by rewrite IH.
Qed.

Lemma series_len_drop (k : nat) (s : Series) :
  series_len (series_drop k s) = (series_len s - k)%nat.
Proof. destruct s; simpl; by rewrite ?length_drop. Qed.

Lemma uniform_len_drop (n k : nat) (df : DataFrame) :
  uniform_len n df → uniform_len (n - k) (frame_drop k df).
Proof.
  unfold uniform_len, frame_drop. intros Hu. apply Forall_forall.
  intros cs Hin. apply list_elem_of_In, in_map_iff in Hin as ([c s] & <- & Hin).
  simpl. rewrite series_len_drop.
  rewrite (proj1 (Forall_forall _ _) Hu (c, s)); [done|].
  by apply list_elem_of_In.
Qed.

Lemma nrows_frame_drop (k : nat) (df : DataFrame) :
  nrows (frame_drop k df) = (nrows df - k)%nat.
Proof. destruct df as [|[c s] df]; [done|]. simpl. apply series_len_drop. Qed.

(** Joined in order, the chunks of a frame are the frame. *)
Lemma chunks_of_concat (fuel size n : nat) (df : DataFrame) :
  uniform_len n df → nrows df = n → (0 < n)%nat → (1 ≤ size)%nat →
  (n ≤ fuel)%nat →
  frame_concat (chunks_of fuel size df) = df ∧ chunks_of fuel size df ≠ [].
Proof.
  revert n df. induction fuel as [|fuel IH]; intros n df Hu Hn Hpos Hsize Hfuel;
    [lia|].
  simpl. rewrite Hn. destruct (n =? 0)%nat eqn:E; [apply Nat.eqb_eq in E; lia|].
  split; [|done].
  pose proof (uniform_len_drop n size df Hu) as Hu'.
  pose proof (nrows_frame_drop size df) as Hn'. rewrite Hn in Hn'.
  destruct (decide (n - size = 0)%nat) as [Hz|Hnz].
  - assert (chunks_of fuel size (frame_drop size df) = []) as ->.
    { destruct fuel; [done|]. simpl. by rewrite Hn', Hz. }
    simpl. apply (frame_take_all n); [done | lia].
  - destruct (IH (n - size)%nat (frame_drop size df) Hu' Hn') as [Hcat Hne];
      [lia | done | lia |].
    destruct (chunks_of fuel size (frame_drop size df)) as [|x r] eqn:Hch; [done|].
    change (frame_app (frame_take size df) (frame_concat (x :: r)) = df).
    rewrite Hcat. apply frame_app_take_drop.
Qed.

Section CoercionOfJoinedChunks.
Context `{PandasParsers}.

(** Without a declared INTEGER column in the header the coercion is a map
    over the columns and returns. *)
Lemma coerce_frame_no_integer (dc ic : option (gset string)) (df : DataFrame) :
  (∀ x, x ∈ names_in ic → x ∉ columns df) →
  coerce_frame dc ic df
  = Ok (map (λ cs, (cs.1, date_coercion dc cs.1 cs.2)) df).
Proof.
  intros Habs. unfold coerce_frame. simpl.
  assert (Hmap : _parse_date_columns (_strip_outer_quotes df) dc
                 = map (λ cs, (cs.1, date_coercion dc cs.1 cs.2)) df).
  { rewrite _parse_date_columns_names.
    unfold map_declared, _strip_outer_quotes. rewrite map_map.
    apply map_ext. intros [c s]. unfold date_coercion. simpl.
    by destruct (decide (c ∈ names_in dc)). }
  rewrite Hmap. destruct ic as [X|]; [|done].
  apply _parse_integer_columns_Ok, try_map_declared_all_absent.
  intros c Hc. unfold columns. rewrite map_map. simpl. by apply Habs.
Qed.

Lemma dt_date_app (a b : list (option date)) :
  dtype_of (dt_date a) = dtype_of (dt_date b) →
  dt_date (a ++ b) = series_app (dt_date a) (dt_date b).
Proof.
  destruct (dt_date_cases a) as (Ha1 & Ha2 & Ha3).
  destruct (dt_date_cases b) as (Hb1 & Hb2 & Hb3).
  destruct (dt_date_cases (a ++ b)) as (Hc1 & Hc2 & Hc3).
  destruct (existsb (λ v : option date, bool_decide (is_Some v)) a) eqn:Ea.
  - apply existsb_has_value in Ea. destruct (Ha1 Ea) as [-> Hta].
    rewrite Hta.
    destruct (existsb (λ v : option date, bool_decide (is_Some v)) b) eqn:Eb.
    + apply existsb_has_value in Eb. destruct (Hb1 Eb) as [-> _].
      intros _. destruct Hc1 as [-> _]; [|done].
      destruct Ea as [d Hd]. exists d. apply elem_of_app. by left.
    + assert (Hnull : ∀ v, v ∈ b → v = None).
      { intros [d|] Hv; [|done].
        assert (existsb (λ v : option date, bool_decide (is_Some v)) b = true)
          by (apply existsb_has_value; by exists d).
        congruence. }
      destruct b as [|v b]; [by destruct Hb2 as [-> ->]|].
      destruct Hb3 as [-> ->]; done.
  - assert (Hnull : ∀ v, v ∈ a → v = None).
    { intros [d|] Hv; [|done].
      assert (existsb (λ v : option date, bool_decide (is_Some v)) a = true)
        by (apply existsb_has_value; by exists d).
      congruence. }
    destruct a as [|va a].
    + destruct Ha2 as [-> ->]; [done|]. simpl app.
      destruct (existsb (λ v : option date, bool_decide (is_Some v)) b) eqn:Eb.
      * apply existsb_has_value in Eb. by destruct (Hb1 Eb) as [-> ->].
      * destruct b as [|v b]; [done|].
        assert (Hnullb : ∀ v', v' ∈ v :: b → v' = None).
        { intros [d|] Hv; [|done].
          assert (existsb (λ v : option date, bool_decide (is_Some v)) (v :: b)
                  = true) by (apply existsb_has_value; by exists d).
          congruence. }
        destruct Hb3 as [-> ->]; done.
    + destruct Ha3 as [-> ->]; [done..|].
      destruct (existsb (λ v : option date, bool_decide (is_Some v)) b) eqn:Eb.
      * apply existsb_has_value in Eb. by destruct (Hb1 Eb) as [-> ->].
      * assert (Hnullb : ∀ v, v ∈ b → v = None).
        { intros [d|] Hv; [|done].
          assert (existsb (λ v : option date, bool_decide (is_Some v)) b = true)
            by (apply existsb_has_value; by exists d).
          congruence. }
        destruct b as [|vb b]; [by destruct Hb2 as [-> ->]|].
        destruct Hb3 as [-> _]; [done..|]. intros _.
        destruct Hc3 as [-> _]; [done| |].
        -- intros v [Hv|Hv]%elem_of_app; [by apply Hnull | by apply Hnullb].
        -- simpl. by rewrite length_app.
Qed.

Lemma date_coercion_app (dc : option (gset string)) (c : string)
    (la lb : list string) :
  dtype_of (date_coercion dc c (SStr la))
    = dtype_of (date_coercion dc c (SStr lb)) →
  date_coercion dc c (SStr (la ++ lb))
  = series_app (date_coercion dc c (SStr la)) (date_coercion dc c (SStr lb)).
Proof.
  unfold date_coercion. simpl.
  destruct (decide (c ∈ names_in dc)); simpl.
  - rewrite !map_app. apply dt_date_app.
  - intros _. by rewrite map_app.
Qed.

Lemma dtype_series_app (a b : Series) :
  dtype_of a = dtype_of b → dtype_of (series_app a b) = dtype_of a.
Proof.
  destruct a as [la|la|na|la|la], b as [lb|lb|nb|lb|lb]; simpl; try done.
  - destruct la, lb; simpl; done.
  - rewrite existsb_app.
    destruct (existsb _ la), (existsb _ lb); simpl; done.
Qed.

(** The coercion of two frames of strings with one header, joined, when
    their coerced schemas agree. *)
Lemma coerce_frame_app (dc : option (gset string)) (a b : DataFrame) :
  all_str a → all_str b → columns a = columns b →
  schema_of (map (λ cs, (cs.1, date_coercion dc cs.1 cs.2)) a)
    = schema_of (map (λ cs, (cs.1, date_coercion dc cs.1 cs.2)) b) →
  map (λ cs, (cs.1, date_coercion dc cs.1 cs.2)) (frame_app a b)
  = frame_app (map (λ cs, (cs.1, date_coercion dc cs.1 cs.2)) a)
              (map (λ cs, (cs.1, date_coercion dc cs.1 cs.2)) b).
Proof.
  intros Ha. revert b.
  induction Ha as [|[c s] a [la Hs] _ IH]; intros b Hb Hcols Hschema;
    [done|].
  destruct Hb as [|[c' s'] b [lb Hs'] Hb]; [done|].
  cbn [fst snd] in *. subst s s'.
  injection Hcols as <- Hcols. injection Hschema as Hty Hschema.
  unfold frame_app in *. cbn [map zip_with fst snd].
  change (series_app (SStr la) (SStr lb)) with (SStr (la ++ lb)).
  rewrite date_coercion_app by done. f_equal. by apply IH.
Qed.

Lemma all_str_frame_app (a b : DataFrame) :
  all_str a → all_str b → columns a = columns b →
  all_str (frame_app a b) ∧ columns (frame_app a b) = columns a.
Proof.
  intros Ha. revert b.
  induction Ha as [|[c s] a [la Hs] _ IH]; intros b Hb Hcols;
    [by split; [constructor|]|].
  destruct Hb as [|[c' s'] b [lb Hs'] Hb]; [done|].
  simpl in *. subst s s'. injection Hcols as <- Hcols.
  destruct (IH b Hb Hcols) as [Hall Hc].
  unfold frame_app in *. simpl. split.
  - constructor; [by eexists | done].
  - by rewrite Hc.
Qed.

Lemma schema_of_frame_app (a b : DataFrame) :
  schema_of a = schema_of b → schema_of (frame_app a b) = schema_of a.
Proof.
  unfold schema_of, frame_app.
  revert b. induction a as [|[c s] a IH]; intros [|[c' s'] b] Hs; try done.
  cbn [zip_with map fst snd] in *. injection Hs as <- Hty Hs.
  rewrite dtype_series_app by done. f_equal. by apply IH.
Qed.

(** The coercion of the chunks of a frame of strings, joined, is the
    coercion of the joined chunks when the coerced chunks agree on one
    schema. *)
Lemma coerce_frame_concat (dc : option (gset string)) (cols : list string)
    (schema : Schema) (chunks : list DataFrame) :
  chunks ≠ [] →
  Forall (λ ch, all_str ch ∧ columns ch = cols) chunks →
  Forall (λ ch, schema_of (map (λ cs, (cs.1, date_coercion dc cs.1 cs.2)) ch)
                = schema) chunks →
  map (λ cs, (cs.1, date_coercion dc cs.1 cs.2)) (frame_concat chunks)
    = frame_concat (map (map (λ cs, (cs.1, date_coercion dc cs.1 cs.2))) chunks) ∧
  all_str (frame_concat chunks) ∧ columns (frame_concat chunks) = cols ∧
  schema_of (map (λ cs, (cs.1, date_coercion dc cs.1 cs.2))
               (frame_concat chunks)) = schema.
Proof.
  induction chunks as [|ch rest IH]; intros Hne Hstr Hsch; [done|].
  apply Forall_cons in Hstr as [[Hch Hcols] Hstr].
  apply Forall_cons in Hsch as [Hs Hsch].
  destruct rest as [|ch' rest']; [done|].
  destruct IH as (Heq & Hall & Hc & Hschema); [done..|].
  change (frame_concat (ch :: ch' :: rest'))
    with (frame_app ch (frame_concat (ch' :: rest'))).
  change (frame_concat (map ?g (ch :: ch' :: rest')))
    with (frame_app (g ch) (frame_concat (map g (ch' :: rest')))).
  destruct (all_str_frame_app ch (frame_concat (ch' :: rest')) Hch Hall)
    as [Hall' Hc']; [congruence|].
  assert (Happ := coerce_frame_app dc ch (frame_concat (ch' :: rest'))
                   Hch Hall ltac:(congruence) ltac:(congruence)).
  split; [by rewrite Happ, Heq|]. split; [done|]. split; [congruence|].
  rewrite Happ, schema_of_frame_app; congruence.
Qed.

End CoercionOfJoinedChunks.

Section StreamedAndBuffered.
Context `{PandasParsers}.

Lemma all_str_take_drop (n : nat) (df : DataFrame) :
  all_str df →
  (all_str (frame_take n df) ∧ columns (frame_take n df) = columns df) ∧
  (all_str (frame_drop n df) ∧ columns (frame_drop n df) = columns df).
Proof.
  unfold all_str, frame_take, frame_drop, columns.
  induction 1 as [|[c s] df [l Hs] _ IH]; [by repeat split; constructor|].
  destruct IH as [[Ht Hct] [Hd Hcd]]. simpl in *. subst s.
  repeat split; try (constructor; [by eexists | done]); simpl; congruence.
Qed.

Lemma chunks_of_all_str (fuel size : nat) (df : DataFrame) :
  all_str df →
  Forall (λ ch, all_str ch ∧ columns ch = columns df) (chunks_of fuel size df).
Proof.
  revert df. induction fuel as [|fuel IH]; intros df Hstr; simpl; [constructor|].
  destruct (nrows df =? 0)%nat; [constructor|].
  destruct (all_str_take_drop size df Hstr) as [[Ht Hct] [Hd Hcd]].
  constructor; [done|].
  rewrite <- Hcd. by apply IH.
Qed.

Lemma coerced_chunks_of_chunks (dc ic : option (gset string))
    (cols : list string) (chunks : list DataFrame) :
  (∀ x, x ∈ names_in ic → x ∉ cols) →
  Forall (λ ch, columns ch = cols) chunks →
  coerced_chunks dc ic (map Chunk chunks)
  = Some (map (map (λ cs, (cs.1, date_coercion dc cs.1 cs.2))) chunks).
Proof.
  intros Habs. induction 1 as [|ch rest Hch _ IH]; [done|].
  change (coerced_chunks dc ic (map Chunk (ch :: rest)))
    with (match coerce_frame dc ic ch with
          | Ok t => cons t <$> coerced_chunks dc ic (map Chunk rest)
          | Raise _ => None
          end).
  rewrite coerce_frame_no_integer, IH; [done|].
  by rewrite Hch.
Qed.

(** The tables of a streamed conversion, joined, against the one table of
    the buffered conversion. *)
Lemma streamed_tables_join (c : Content) (chunksize : Z)
    (dc ic : option (gset string)) (t : DataFrame) (ts : list DataFrame) :
  defect c = None →
  all_str (table c) → rectangular (table c) → 1 ≤ chunksize →
  (∀ x, x ∈ names_in ic → x ∉ columns (table c)) →
  coerced_chunks dc ic (read_csv_chunks chunksize c) = Some (t :: ts) →
  Forall (λ x, schema_of x = schema_of t) ts →
  ∃ T, coerce_frame dc ic (table c) = Ok T ∧
       schema_of T = schema_of t ∧ frame_concat (t :: ts) = T.
Proof.
  intros Hdef Hstr Hrect Hsize Habs Hchunks Hschemas.
  rewrite coerce_frame_no_integer by done. eexists. split; [done|].
  unfold read_csv_chunks in Hchunks. rewrite Hdef in Hchunks.
  destruct (nrows (table c) =? 0)%nat eqn:Hn.
  - change [Chunk (table c)] with (map Chunk [table c]) in Hchunks.
    rewrite (coerced_chunks_of_chunks dc ic (columns (table c))) in Hchunks;
      [|done|by constructor].
    injection Hchunks as <- <-. done.
  - apply Nat.eqb_neq in Hn.
    set (chunks := chunks_of (nrows (table c)) (Z.to_nat chunksize) (table c)) in *.
    pose proof (chunks_of_all_str (nrows (table c)) (Z.to_nat chunksize)
                  (table c) Hstr) as Hall. fold chunks in Hall.
    rewrite (coerced_chunks_of_chunks dc ic (columns (table c))) in Hchunks;
      [|done|].
    2: { eapply Forall_impl; [exact Hall|]. by intros ch [_ ?]. }
    injection Hchunks as Hchunks.
    destruct (chunks_of_concat (nrows (table c)) (Z.to_nat chunksize)
                (nrows (table c)) (table c)) as [Hcat Hne];
      [done | done | lia | lia | lia |]. fold chunks in Hcat, Hne.
    destruct (coerce_frame_concat dc (columns (table c)) (schema_of t) chunks)
      as (Heq & _ & _ & Hschema).
    + done.
    + done.
    + apply Forall_forall. intros ch Hch.
      assert (Hin : map (λ cs, (cs.1, date_coercion dc cs.1 cs.2)) ch ∈ t :: ts).
      { rewrite <- Hchunks. apply list_elem_of_In, in_map, list_elem_of_In, Hch. }
      apply elem_of_cons in Hin as [->|Hin]; [done|].
      by apply (proj1 (Forall_forall _ _) Hschemas).
    + rewrite Hcat in Heq, Hschema. split; [done|].
      by rewrite <- Hchunks, <- Heq.
Qed.

Lemma lower_chunksize_pos (table_name : string) : 1 ≤ lower_chunksize table_name.
Proof. unfold lower_chunksize, DEFAULT_CHUNKSIZE. case_match; lia. Qed.

Lemma convert_streaming_ok (member : Member)
    (table_name parquet_path log_file : string)
    (dc ic : option (gset string)) (w w1 : World) :
  convert_streaming member table_name parquet_path log_file dc ic w = (Ok tt, w1) →
  ∃ wa wb,
    _write_parquet_streaming (content member) parquet_path (filename member)
      (lower_chunksize table_name) dc ic wa = (Ok tt, wb) ∧
    parquet_files w1 = parquet_files wb.
Proof.
  unfold convert_streaming.
  cbv [mbind M_bind bind print log_write open_member]. simpl.
  destruct (open_error member); [done|].
  destruct (disk_quota w) as [[|n]|]; [done| |];
    (match goal with
     | |- context [_write_parquet_streaming ?c ?p ?l ?k ?d ?i ?w0] =>
         destruct (_write_parquet_streaming c p l k d i w0) as [[[]|e] wb] eqn:Hw;
           [|done]
     end;
     intros [= <-]; by eexists _, wb).
Qed.

Lemma convert_in_memory_ok (member : Member)
    (table_name parquet_path log_file : string)
    (dc ic : option (gset string)) (w w2 : World) :
  convert_in_memory member table_name parquet_path log_file dc ic w = (Ok tt, w2) →
  ∃ T, defect (content member) = None ∧
       coerce_frame dc ic (table (content member)) = Ok T ∧
       parquet_files w2 !! parquet_path
         = Some {| pf_schema := schema_of T; pf_tables := [T] |}.
Proof.
  unfold convert_in_memory, read_csv.
  cbv [mbind M_bind bind open_member].
  destruct (open_error member); [done|].
  destruct (defect (content member)) as [e|]; [done|].
  destruct (coerce_frame dc ic (table (content member))) as [T|e]; [|done].
  cbv [print log_write mkdir to_parquet]. simpl.
  destruct (denied w !! PyStr.path_parent parquet_path); [done|]. simpl.
  destruct (disk_quota w) as [[|[|n]]|]; simpl; try done; intros [= <-];
    (exists T; split; [done|]; split; [done|]; simpl; apply lookup_insert_eq).
Qed.

(** X9: take two members with the same rows, strings throughout and of one
    length, one at or above the threshold and one below it, converted from
    the same world, and let no column of theirs be declared INTEGER.
    Whenever both conversions return normally, the two files have the same
    schema and, read back, the same rows in the same order. *)
Theorem streamed_matches_buffered_on_success (m1 m2 : Member)
    (table_name parquet_path log_file dataset : string) (w w1 w2 : World) :
  content m1 = content m2 →
  use_streaming m1 = true →
  use_streaming m2 = false →
  all_str (table (content m1)) →
  rectangular (table (content m1)) →
  (∀ x, x ∈ names_in (_get_column_types table_name dataset w).2 →
        x ∉ columns (table (content m1))) →
  _convert_member_to_parquet m1 table_name parquet_path log_file dataset w
    = (Ok tt, w1) →
  _convert_member_to_parquet m2 table_name parquet_path log_file dataset w
    = (Ok tt, w2) →
  ∃ f1 f2,
    parquet_files w1 !! parquet_path = Some f1 ∧
    parquet_files w2 !! parquet_path = Some f2 ∧
    pf_schema f1 = pf_schema f2 ∧
    read_parquet f1 = read_parquet f2.
Proof.
  intros Hcontent Hs1 Hs2 Hstr Hrect. unfold _convert_member_to_parquet.
  destruct (_get_column_types table_name dataset w) as [dc ic].
  rewrite Hs1, Hs2. simpl. intros Habs Hrun1 Hrun2.
  apply convert_streaming_ok in Hrun1 as (wa & wb & Hstream & Hfiles1).
  apply convert_in_memory_ok in Hrun2 as (T & Hdef & HT & Hfile2).
  apply streaming_ok_tables in Hstream as (t & ts & Hchunks & Hall & Hfile1).
  rewrite <- Hcontent in Hdef, HT.
  destruct (streamed_tables_join (content m1) (lower_chunksize table_name)
              dc ic t ts Hdef Hstr Hrect (lower_chunksize_pos _) Habs
              Hchunks Hall)
    as (T' & HT' & Hschema & Hjoin).
  assert (T' = T) as -> by congruence.
  eexists _, _. rewrite Hfiles1. split; [exact Hfile1|]. split; [exact Hfile2|].
  split; [done|]. unfold read_parquet. simpl pf_tables. by rewrite Hjoin.
Qed.

End StreamedAndBuffered.

(** ** What a job touches *)

Section Footprint.
Context `{PandasParsers}.
Context (path log : string).

Lemma untouched_refl (w : World) : untouched_outside path log w w.
Proof. by repeat split. Qed.

Lemma untouched_trans (w1 w2 w3 : World) :
  untouched_outside path log w1 w2 → untouched_outside path log w2 w3 →
  untouched_outside path log w1 w3.
Proof.
  intros (Hz & Hs & Hp & Ht & Hl & Ho) (Hz' & Hs' & Hp' & Ht' & Hl' & Ho').
  split; [congruence|]. split; [congruence|].
  split; [intros p Hp0; rewrite Hp', Hp by done; done|].
  split; [intros p Hp0; rewrite Ht', Ht by done; done|].
  split; [by etrans|]. auto.
Qed.

Lemma keeps_bind {A B} (m : M A) (k : A → M B) :
  keeps path log m → (∀ a, keeps path log (k a)) → keeps path log (m ≫= k).
Proof.
  intros Hm Hk w. unfold mbind, M_bind, bind.
  specialize (Hm w). destruct (m w) as [[a|e] w1]; simpl in *; [|done].
  eapply untouched_trans; [done | apply Hk].
Qed.

Lemma keeps_ret {A} (a : A) : keeps path log (ret a).
Proof. intros w. apply untouched_refl. Qed.

Lemma keeps_raise {A} (e : exn) : keeps path log (raise e : M A).
Proof. intros w. apply untouched_refl. Qed.

Lemma keeps_print (line : string) : keeps path log (print line).
Proof. intros w. by repeat split. Qed.

Lemma keeps_mkdir (dir : string) : keeps path log (mkdir dir).
Proof. intros w. unfold mkdir. destruct (denied w !! dir); by repeat split. Qed.

Lemma keeps_open_member (member : Member) : keeps path log (open_member member).
Proof.
  intros w. unfold open_member. destruct (open_error member); by repeat split.
Qed.

Lemma keeps_open_append : keeps path log (open_append log).
Proof.
  intros w. unfold open_append.
  destruct (denied w !! log); [apply untouched_refl|].
  unfold untouched_outside. simpl.
  split; [done|]. split; [done|]. split; [done|].
  split; [|split; [|done]].
  - intros p Hp. simpl. destruct (text_files w !! log); [done|].
    by rewrite lookup_insert_ne.
  - simpl. destruct (text_files w !! log) eqn:E; [by rewrite E|].
    by rewrite lookup_insert_eq.
Qed.

Lemma keeps_log_write (line : string) : keeps path log (log_write log line).
Proof.
  intros w. unfold log_write.
  destruct (disk_quota w) as [[|n]|]; [apply untouched_refl| |];
    unfold untouched_outside; simpl;
    (split; [done|]; split; [done|]; split; [done|];
     split; [|split; [|done]];
     [intros p Hp; by rewrite lookup_insert_ne
     |rewrite lookup_insert_eq; simpl; by apply prefix_app_r]).
Qed.

Lemma keeps_to_parquet (df : DataFrame) : keeps path log (to_parquet df path).
Proof.
  intros w. unfold untouched_outside, to_parquet.
  destruct (disk_quota w) as [[|n]|]; simpl;
    (split; [done|]; split; [done|]; split; [|by repeat split]);
    intros p Hp; by rewrite ?lookup_delete_ne, ?lookup_insert_ne.
Qed.

Lemma keeps_open_zip (zip_path : string) : keeps path log (open_zip zip_path).
Proof.
  intros w. unfold untouched_outside, open_zip. simpl.
  destruct (zip_files w !! zip_path) as [[ms|]|]; by repeat split.
Qed.

(** Inside the loop nothing but the output file changes. *)
Lemma write_table_fields (wr : ParquetWriter) (t : DataFrame) (w : World) :
  w_path wr = path →
  let w' := (write_table wr t w).2 in
  zip_files w' = zip_files w ∧ schema_files w' = schema_files w ∧
  text_files w' = text_files w ∧
  (∀ p, p ≠ path → parquet_files w' !! p = parquet_files w !! p).
Proof.
  intros Hpath. unfold write_table. case_decide; [|done].
  destruct (disk_quota w) as [[|n]|]; simpl; [done| |];
    (split; [done|]; split; [done|]; split; [done|];
     intros p Hp; unfold append_table;
     destruct (parquet_files w !! w_path wr); [|done];
     by rewrite lookup_insert_ne by congruence).
Qed.

Lemma streaming_loop_fields (items : list item) (i : nat)
    (log_prefix : string) (dc ic : option (gset string))
    (writer : option ParquetWriter) (w : World) :
  (∀ wr, writer = Some wr → w_path wr = path) →
  let w' := (streaming_loop items i path log_prefix dc ic writer w).2 in
  zip_files w' = zip_files w ∧ schema_files w' = schema_files w ∧
  text_files w' = text_files w ∧
  (∀ p, p ≠ path → parquet_files w' !! p = parquet_files w !! p).
Proof.
  Local Opaque coerce_frame write_table.
  revert i writer w.
  induction items as [|[chunk|e] rest IH]; intros i writer w Hpath; simpl;
    [done| |done].
  destruct (coerce_frame dc ic chunk) as [t|e]; [|done].
  set (w0 := with_stdout _ w).
  destruct writer as [wr0|]; simpl.
  - pose proof (write_table_fields wr0 t w0 (Hpath wr0 eq_refl))
      as (Hz & Hs & Ht & Hp).
    destruct (write_table wr0 t w0) as [[[]|e] w1]; simpl in *; [|done].
    destruct (IH (S i) (Some wr0) w1) as (Hz2 & Hs2 & Ht2 & Hp2);
      [by intros ? [= <-]; apply Hpath|].
    split; [congruence|]. split; [congruence|]. split; [congruence|].
    intros p Hp0. by rewrite Hp2, Hp.
  - unfold mkdir. simpl.
    destruct (denied w !! PyStr.path_parent path); [done|]. simpl.
    set (wr := {| w_path := path; w_schema := schema_of t |}).
    match goal with
    | |- context [write_table wr t ?w2] =>
        pose proof (write_table_fields wr t w2 eq_refl) as (Hz & Hs & Ht & Hp);
        destruct (write_table wr t w2) as [[[]|e] w1]
    end; simpl in *.
    + destruct (IH (S i) (Some wr) w1) as (Hz2 & Hs2 & Ht2 & Hp2);
        [by intros ? [= <-]|].
      split; [congruence|]. split; [congruence|]. split; [congruence|].
      intros p Hp0. rewrite Hp2, Hp by done. by rewrite lookup_insert_ne.
    + split; [done|]. split; [done|]. split; [done|].
      intros p Hp0. rewrite Hp by done. by rewrite lookup_insert_ne.
Qed.
Local Transparent coerce_frame write_table.

End Footprint.

Section JobFootprint.
Context `{PandasParsers}.

(** The chunked writer changes no text file at all. *)
Lemma streaming_text_unchanged (tsv_stream : Content)
    (path log_prefix : string) (chunksize : Z)
    (dc ic : option (gset string)) (w : World) :
  text_files
    (_write_parquet_streaming tsv_stream path log_prefix chunksize dc ic w).2
  = text_files w.
Proof.
  unfold _write_parquet_streaming. destruct (chunksize <? 1); [done|].
  pose proof (streaming_loop_fields path (read_csv_chunks chunksize tsv_stream)
                0 log_prefix dc ic None w ltac:(done)) as (_ & _ & Ht & _).
  destruct (streaming_loop _ _ _ _ _ _ _ _) as [[r [wr|]] w1]; by simpl in *.
Qed.

Lemma keeps_write_parquet_streaming (path log : string) (tsv_stream : Content)
    (log_prefix : string) (chunksize : Z) (dc ic : option (gset string)) :
  keeps path log
    (_write_parquet_streaming tsv_stream path log_prefix chunksize dc ic).
Proof.
  intros w. unfold _write_parquet_streaming.
  destruct (chunksize <? 1); [apply untouched_refl|].
  pose proof (streaming_loop_fields path (read_csv_chunks chunksize tsv_stream)
                0 log_prefix dc ic None w ltac:(done)) as (Hz & Hs & Ht & Hp).
  pose proof (streaming_loop_handles (read_csv_chunks chunksize tsv_stream)
                0 path log_prefix dc ic None w) as Hh.
  destruct (streaming_loop _ _ _ _ _ _ _ _) as [[r writer] w1]. simpl in *.
  assert (Hsub : ∀ p,
            p ∈ open_writers (match writer with
                              | Some wr => (writer_close wr w1).2
                              | None => w1
                              end) → p ∈ open_writers w).
  { destruct Hh as [[-> Hsame] | (wr & -> & Hpath & Hopen)].
    - by rewrite Hsame.
    - unfold writer_close. simpl.
      rewrite Hpath, Hopen, list_difference_cons_same.
      intros p Hp0. by apply list_elem_of_difference in Hp0 as [Hp0 _]. }
  unfold untouched_outside.
  destruct writer as [wr|]; simpl in *; rewrite Ht;
    (split; [done|]; split; [done|]; split; [done|];
     split; [done|]; split; [done|]; done).
Qed.

Lemma keeps_convert_in_memory (path log : string) (member : Member)
    (table_name : string) (dc ic : option (gset string)) :
  keeps path log (convert_in_memory member table_name path log dc ic).
Proof.
  unfold convert_in_memory.
  apply keeps_bind; [apply keeps_open_member|]. intros _.
  destruct (read_csv (content member)) as [df|e]; [|apply keeps_raise].
  apply keeps_bind; [apply keeps_print|]. intros _.
  apply keeps_bind; [apply keeps_print|]. intros _.
  destruct (coerce_frame dc ic df) as [df'|e]; [|apply keeps_raise].
  apply keeps_bind; [apply keeps_mkdir|]. intros _.
  apply keeps_bind; [apply keeps_to_parquet|]. intros _.
  apply keeps_bind; [apply keeps_log_write|]. intros _.
  apply keeps_print.
Qed.

Lemma keeps_convert_streaming (path log : string) (member : Member)
    (table_name : string) (dc ic : option (gset string)) :
  keeps path log (convert_streaming member table_name path log dc ic).
Proof.
  unfold convert_streaming.
  apply keeps_bind; [apply keeps_open_member|]. intros _.
  apply keeps_bind; [apply keeps_print|]. intros _.
  apply keeps_bind; [apply keeps_log_write|]. intros _.
  apply keeps_bind; [apply keeps_write_parquet_streaming|]. intros _.
  apply keeps_print.
Qed.

Lemma keeps_convert_member (path log : string) (member : Member)
    (table_name dataset : string) :
  keeps path log (_convert_member_to_parquet member table_name path log dataset).
Proof.
  intros w. unfold _convert_member_to_parquet.
  destruct (_get_column_types table_name dataset w) as [dc ic].
  destruct (use_streaming member).
  - apply keeps_convert_streaming.
  - apply keeps_convert_in_memory.
Qed.

Lemma keeps_convert_members (path log : string) (members : list Member)
    (table_name dataset : string) :
  keeps path log (convert_members members table_name path log dataset).
Proof.
  induction members as [|m rest IH]; simpl; [apply keeps_ret|].
  apply keeps_bind; [apply keeps_convert_member | by intros _].
Qed.

Lemma keeps_convert_zip (zip_path table parquet dataset : string) :
  keeps parquet (conversion_log_path dataset)
    (convert_zip zip_path table parquet dataset).
Proof.
  intros w. unfold convert_zip.
  destruct (parquet_exists parquet w); [apply keeps_print|].
  apply keeps_bind; [apply keeps_mkdir|]. intros _.
  apply keeps_bind; [apply keeps_open_append|]. intros _.
  apply keeps_bind; [apply keeps_print|]. intros _.
  intros w0. unfold try_except_log.
  assert (Hbody : keeps parquet (conversion_log_path dataset)
            (convert_zip_body zip_path table parquet dataset
               (conversion_log_path dataset))).
  { unfold convert_zip_body.
    apply keeps_bind; [apply keeps_open_zip|]. intros infolist.
    apply keeps_bind; [|intros _; apply keeps_print].
    destruct (filter _ infolist); [apply keeps_raise|].
    apply keeps_convert_members. }
  specialize (Hbody w0).
  destruct (convert_zip_body _ _ _ _ _ w0) as [[[]|e] w1]; simpl in *; [done|].
  eapply untouched_trans; [exact Hbody|].
  match goal with
  | |- context [log_write ?l ?line w1] =>
      pose proof (keeps_log_write parquet l line w1) as Hlog;
      destruct (log_write l line w1) as [[[]|e'] w2]
  end; simpl in *; [|done].
  eapply untouched_trans; [exact Hlog|]. apply keeps_print.
Qed.

(** X10: a job changes no Parquet file other than its target, leaves every
    archive and every schema file as it found them, and leaves no writer
    handle open that was not open before, whether it returns or raises. *)
Theorem convert_zip_frame (zip_path table parquet dataset : string) (w : World) :
  let w' := (convert_zip zip_path table parquet dataset w).2 in
  (∀ p, p ≠ parquet → parquet_files w' !! p = parquet_files w !! p) ∧
  zip_files w' = zip_files w ∧
  schema_files w' = schema_files w ∧
  (∀ p, p ∈ open_writers w' → p ∈ open_writers w).
Proof.
  destruct (keeps_convert_zip zip_path table parquet dataset w)
    as (Hz & Hs & Hp & _ & _ & Ho).
  done.
Qed.

(** X11: the conversion log is append-only: whatever a job does, the
    entries that were in the log of its data set are still there, in place,
    as the first entries of the log, and no other text file is changed. *)
Theorem conversion_log_append_only
    (zip_path table parquet dataset : string) (w : World) :
  let w' := (convert_zip zip_path table parquet dataset w).2 in
  log_lines (conversion_log_path dataset) w
    `prefix_of` log_lines (conversion_log_path dataset) w' ∧
  (∀ p, p ≠ conversion_log_path dataset →
        text_files w' !! p = text_files w !! p).
Proof.
  destruct (keeps_convert_zip zip_path table parquet dataset w)
    as (_ & _ & _ & Ht & Hl & _).
  done.
Qed.

(** X12: a job raises only past the test for the target.  An error raised
    while the directory of the log is made or the log is opened, which is
    before the [try], goes up as it is and no text file has changed.  Past
    that, and unless the disk is full when the job ends, the last entry of
    the log of the data set is the error entry for the very error that is
    raised, whatever raised it: the archive, a member, the writer. *)
Theorem convert_zip_failure_logged
    (zip_path table parquet dataset : string) (e : exn) (w w' : World) :
  convert_zip zip_path table parquet dataset w = (Raise e, w') →
  parquet_exists parquet w = false ∧
  (denied w !! converted_dir dataset = None →
   denied w !! conversion_log_path dataset = None →
   disk_quota w' ≠ Some O →
   last (log_lines (conversion_log_path dataset) w')
     = Some (error_log_line zip_path e)) ∧
  (∀ e0, denied w !! converted_dir dataset = Some e0 ∨
         (denied w !! converted_dir dataset = None ∧
          denied w !! conversion_log_path dataset = Some e0) →
         e = e0 ∧ text_files w' = text_files w).
Proof.
  unfold convert_zip.
  destruct (parquet_exists parquet w); [done|]. intros Hrun. split; [done|].
  revert Hrun.
  cbv [mbind M_bind bind mkdir open_append print try_except_log].
  destruct (denied w !! converted_dir dataset) as [e1|] eqn:Hdir.
  { intros [= <- <-]. split; [done|].
    intros e0 [[= <-]|[? _]]; done. }
  simpl.
  destruct (denied w !! conversion_log_path dataset) as [e2|] eqn:Hlog.
  { intros [= <- <-]. split; [done|].
    intros e0 [?|[_ [= <-]]]; done. }
  simpl. intros Hrun. split; [|by intros e0 [?|[_ ?]]].
  intros _ _ Hdisk. revert Hrun.
  match goal with
  | |- context [convert_zip_body ?a ?b ?c ?d ?l ?w0] =>
      destruct (convert_zip_body a b c d l w0) as [[[]|e0] w1]; [done|]
  end.
  unfold log_write.
  destruct (disk_quota w1) as [[|n]|] eqn:Hq.
  - intros [= <- <-]. done.
  - intros [= <- <-]. unfold log_lines. simpl.
    rewrite lookup_insert_eq. simpl. apply last_snoc.
  - intros [= <- <-]. unfold log_lines. simpl.
    rewrite lookup_insert_eq. simpl. apply last_snoc.
Qed.

End JobFootprint.

Section JobOutcome.
Context `{PandasParsers}.

Lemma convert_member_ok_exists (member : Member)
    (table_name path log dataset : string) (w w' : World) :
  _convert_member_to_parquet member table_name path log dataset w = (Ok tt, w') →
  is_Some (parquet_files w' !! path).
Proof.
  unfold _convert_member_to_parquet.
  destruct (_get_column_types table_name dataset w) as [dc ic].
  destruct (use_streaming member); intros Hrun.
  - apply convert_streaming_ok in Hrun as (wa & wb & Hstream & ->).
    apply streaming_ok_tables in Hstream as (t & ts & _ & _ & ->).
    by eexists.
  - apply convert_in_memory_ok in Hrun as (T & _ & _ & ->). by eexists.
Qed.

Lemma bind_ok {A B} (m : M A) (k : A → M B) (w w' : World) (b : B) :
  (m ≫= k) w = (Ok b, w') → ∃ a w1, m w = (Ok a, w1) ∧ k a w1 = (Ok b, w').
Proof.
  unfold mbind, M_bind, bind. destruct (m w) as [[a|e] w1]; [|done].
  intros Hk. by exists a, w1.
Qed.

Lemma convert_members_ok_exists (members : list Member)
    (table_name path log dataset : string) (w w' : World) :
  members ≠ [] →
  convert_members members table_name path log dataset w = (Ok tt, w') →
  is_Some (parquet_files w' !! path).
Proof.
  revert w. induction members as [|m rest IH]; intros w Hne Hrun; [done|].
  simpl in Hrun. apply bind_ok in Hrun as ([] & w1 & Hm & Hrest).
  destruct rest as [|m' rest'].
  - injection Hrest as <-. by eapply convert_member_ok_exists.
  - by apply (IH w1).
Qed.

(** X13: a job that returns normally leaves its target in place, so the
    same job run again returns normally and does nothing but print that it
    skips the target. *)
Theorem convert_zip_rerun (zip_path table parquet dataset : string)
    (w w1 : World) :
  convert_zip zip_path table parquet dataset w = (Ok tt, w1) →
  parquet_exists parquet w1 = true ∧
  convert_zip zip_path table parquet dataset w1
    = (Ok tt, with_stdout
               (λ out, out ++ ["Skipping " +:+ PyStr.path_name parquet +:+
                               " (already converted)"]) w1).
Proof.
  intros Hrun.
  assert (Hex : parquet_exists parquet w1 = true).
  { revert Hrun. unfold convert_zip.
    destruct (parquet_exists parquet w) eqn:Hw.
    - intros [= <-]. exact Hw.
    - intros Hrun.
      apply bind_ok in Hrun as ([] & wa & _ & Hrun).
      apply bind_ok in Hrun as ([] & wb & _ & Hrun).
      apply bind_ok in Hrun as ([] & wc & _ & Hrun).
      unfold try_except_log in Hrun.
      destruct (convert_zip_body _ _ _ _ _ wc) as [[[]|e] wd] eqn:Hbody.
      2: { by destruct (log_write _ _ wd) as [[[]|?] ?]. }
      injection Hrun as <-.
      unfold convert_zip_body in Hbody.
      apply bind_ok in Hbody as (infolist & we & _ & Hbody).
      apply bind_ok in Hbody as ([] & wf & Hmembers & Hprint).
      injection Hprint as <-.
      destruct (filter _ infolist) as [|m ms] eqn:Hfilter; [done|].
      unfold parquet_exists. apply bool_decide_eq_true. simpl.
      by apply (convert_members_ok_exists (m :: ms) table parquet
                  (conversion_log_path dataset) dataset we wf). }
  split; [done|]. by rewrite (convert_zip_skip _ _ _ _ _ Hex).
Qed.

Lemma get_column_types_same (table_name dataset : string) (w1 w2 : World) :
  schema_files w1 = schema_files w2 →
  _get_column_types table_name dataset w1 = _get_column_types table_name dataset w2.
Proof. unfold _get_column_types. by intros ->. Qed.

Lemma convert_members_last (ms : list Member) (m : Member)
    (table_name path log dataset : string) (w w' : World) :
  convert_members (ms ++ [m]) table_name path log dataset w = (Ok tt, w') →
  ∃ wk, schema_files wk = schema_files w ∧
        _convert_member_to_parquet m table_name path log dataset wk = (Ok tt, w').
Proof.
  revert w. induction ms as [|m0 ms IH]; intros w Hrun; simpl in Hrun.
  - apply bind_ok in Hrun as ([] & w1 & Hm & Hret). injection Hret as <-.
    by exists w.
  - apply bind_ok in Hrun as ([] & w1 & Hm & Hrest).
    destruct (IH w1 Hrest) as (wk & Hs & Hlast).
    exists wk. split; [|done]. rewrite Hs.
    pose proof (keeps_convert_member path log m0 table_name dataset w) as Hk.
    rewrite Hm in Hk. by destruct Hk as (_ & ? & _).
Qed.

(** What the steps before the [try] leave of the archives and the schema
    files. *)
Lemma before_try_fields (dir log line : string) (w w' : World) :
  (mkdir dir;; open_append log;; print line) w = (Ok tt, w') →
  schema_files w' = schema_files w ∧ zip_files w' = zip_files w.
Proof.
  cbv [mbind M_bind bind mkdir open_append print].
  destruct (denied w !! dir); [done|]. simpl.
  destruct (denied w !! log); [done|]. simpl.
  by intros [= <-].
Qed.

(** X14: every [.tsv] member of an archive is written to the one target of
    the job.  When the job returns normally and the last member is below
    the threshold, the target holds that member alone: one table, the
    coerced rows of the last member, and nothing of the members before
    it. *)
Theorem convert_zip_last_member_wins
    (zip_path table_name parquet dataset : string)
    (infolist ms : list Member) (m : Member) (w w' : World) :
  parquet_exists parquet w = false →
  zip_files w !! zip_path = Some (Some infolist) →
  filter (λ x, PyStr.endswith ".tsv" (filename x) = true) infolist = ms ++ [m] →
  use_streaming m = false →
  convert_zip zip_path table_name parquet dataset w = (Ok tt, w') →
  ∃ T, coerce_frame (_get_column_types table_name dataset w).1
         (_get_column_types table_name dataset w).2 (table (content m)) = Ok T ∧
       parquet_files w' !! parquet
         = Some {| pf_schema := schema_of T; pf_tables := [T] |}.
Proof.
  intros Hex Hzip Hfilter Hsmall. unfold convert_zip. rewrite Hex. intros Hrun.
  apply bind_ok in Hrun as ([] & wa & Ha & Hrun).
  apply bind_ok in Hrun as ([] & wb & Hb & Hrun).
  apply bind_ok in Hrun as ([] & wc & Hc & Hrun).
  assert (Hwc : schema_files wc = schema_files w ∧ zip_files wc = zip_files w).
  { eapply before_try_fields.
    cbv [mbind M_bind bind]. rewrite Ha, Hb. exact Hc. }
  destruct Hwc as [Hsc Hzc].
  unfold try_except_log in Hrun.
  destruct (convert_zip_body _ _ _ _ _ wc) as [[[]|e] wd] eqn:Hbody.
  2: { by destruct (log_write _ _ wd) as [[[]|?] ?]. }
  injection Hrun as <-.
  unfold convert_zip_body in Hbody.
  apply bind_ok in Hbody as (infolist' & we & Hopen & Hbody).
  assert (infolist' = infolist ∧ schema_files we = schema_files w) as [-> Hse].
  { unfold open_zip in Hopen. simpl in Hopen. rewrite Hzc, Hzip in Hopen.
    injection Hopen as <- <-. done. }
  apply bind_ok in Hbody as ([] & wf & Hmembers & Hprint).
  injection Hprint as <-.
  rewrite Hfilter in Hmembers.
  assert (Hmembers' : convert_members (ms ++ [m]) table_name parquet
                        (conversion_log_path dataset) dataset we = (Ok tt, wf)).
  { destruct (ms ++ [m]) eqn:E; [by destruct ms | done]. }
  apply convert_members_last in Hmembers' as (wk & Hsk & Hlast).
  unfold _convert_member_to_parquet in Hlast.
  rewrite (get_column_types_same table_name dataset wk w) in Hlast by congruence.
  destruct (_get_column_types table_name dataset w) as [dc ic].
  rewrite Hsmall in Hlast.
  apply convert_in_memory_ok in Hlast as (T & _ & HT & Hfile).
  by exists T.
Qed.

(** The frame a coercion returns has the rows and the columns of the
    frame that went in. *)
Lemma coerced_size (dc ic : option (gset string)) (df T : DataFrame) :
  coerce_frame dc ic df = Ok T → nrows T = nrows df ∧ length T = length df.
Proof.
  intros Hok%coerce_frame_columnwise. split.
  - destruct Hok as [|[c s] [c' s'] df df' [_ Hs] _]; [done|].
    cbn [nrows fst snd] in *. by apply (series_len_column_coercion dc ic c).
  - symmetry. by eapply Forall2_length.
Qed.

(** X15: what one member adds to the log.  A member that the archive
    cannot hand out adds nothing and changes nothing.  A streamed member
    that opens adds its STREAMING entry before its first chunk is read, so,
    unless the disk is full, the entry is there whether the conversion then
    returns or raises.  A buffered member adds its IN_MEMORY entry only when
    it has been written, with the numbers of rows and columns of the member
    as it was read; when the buffered conversion raises it adds nothing. *)
Theorem member_log_entry (member : Member)
    (table_name path log dataset : string) (w : World) :
  let r := (_convert_member_to_parquet member table_name path log dataset w).1 in
  let w' := (_convert_member_to_parquet member table_name path log dataset w).2 in
  (∀ e, open_error member = Some e → r = Raise e ∧ w' = w) ∧
  (use_streaming member = true → open_error member = None →
   disk_quota w ≠ Some O →
     log_lines log w' = log_lines log w ++ [streaming_log_line table_name member]) ∧
  (use_streaming member = false → r = Ok tt →
     ∃ T, log_lines log w'
            = log_lines log w ++ [in_memory_log_line table_name member T] ∧
          nrows T = nrows (table (content member)) ∧
          length T = length (table (content member))) ∧
  (use_streaming member = false → r ≠ Ok tt → log_lines log w' = log_lines log w).
Proof.
  intros r w'. unfold r, w', _convert_member_to_parquet.
  destruct (_get_column_types table_name dataset w) as [dc ic].
  split.
  { intros e He.
    destruct (use_streaming member); unfold convert_streaming, convert_in_memory;
      cbv [mbind M_bind bind open_member]; by rewrite He. }
  destruct (use_streaming member).
  - split; [intros _ Hopen Hdisk|by split].
    unfold convert_streaming.
    cbv [mbind M_bind bind print log_write open_member]. rewrite Hopen. simpl.
    destruct (disk_quota w) as [[|n]|] eqn:Hq; [done| |];
      (match goal with
       | |- context [_write_parquet_streaming ?c ?p ?l ?k ?d ?i ?w0] =>
           pose proof (streaming_text_unchanged c p l k d i w0) as Ht;
           destruct (_write_parquet_streaming c p l k d i w0) as [[[]|e] wb]
       end; unfold log_lines; simpl in *; rewrite Ht; simpl;
       by rewrite lookup_insert_eq).
  - split; [done|].
    unfold convert_in_memory, read_csv.
    cbv [mbind M_bind bind open_member].
    destruct (open_error member); [by split|].
    destruct (defect (content member)) as [e|]; [by split|].
    destruct (coerce_frame dc ic (table (content member))) as [T|e] eqn:HT;
      [|by split].
    destruct (coerced_size dc ic _ T HT) as [Hrows Hlen].
    cbv [print log_write mkdir to_parquet]. simpl.
    destruct (denied w !! PyStr.path_parent path); [by split|]. simpl.
    destruct (disk_quota w) as [[|[|n]]|]; simpl.
    + split; [by intros _ Hr | by intros _ _].
    + split; [by intros _ Hr | by intros _ _].
    + split; [intros _ _ | by intros _ Hr].
      exists T. unfold log_lines. simpl. by rewrite lookup_insert_eq.
    + split; [intros _ _ | by intros _ Hr].
      exists T. unfold log_lines. simpl. by rewrite lookup_insert_eq.
Qed.

End JobOutcome.

(** ** Table names *)

Lemma chars_app (a b : string) : chars (a +:+ b) = chars a ++ chars b.
Proof.
  unfold chars. induction a as [|x a IH]; [done|].
  rewrite string_app_cons. simpl. by rewrite IH.
Qed.

Lemma string_of_chars (s : string) : String.string_of_list_ascii (chars s) = s.
Proof. apply String.string_of_list_ascii_of_string. Qed.

Lemma rfind_from_app (c : ascii) (l1 l2 : list ascii) (i : nat)
    (found : option nat) :
  OsPath.rfind_from c (l1 ++ l2) i found
  = OsPath.rfind_from c l2 (i + length l1) (OsPath.rfind_from c l1 i found).
Proof.
  revert i found. induction l1 as [|x l1 IH]; intros i found; simpl.
  - by rewrite Nat.add_0_r.
  - rewrite IH. f_equal. lia.
Qed.

Lemma rfind_from_absent (c : ascii) (l : list ascii) (i : nat)
    (found : option nat) :
  c ∉ l → OsPath.rfind_from c l i found = found.
Proof.
  revert i found. induction l as [|x l IH]; intros i found Hc; [done|].
  apply not_elem_of_cons in Hc as [Hne Hc]. simpl.
  rewrite IH by done.
  destruct (Ascii.eqb x c) eqn:E; [|done].
  apply Ascii.eqb_eq in E. congruence.
Qed.

Lemma existsb_is_not_dot (l : list ascii) :
  (∃ x, x ∈ l ∧ x ≠ "."%char) → existsb OsPath.is_not_dot l = true.
Proof.
  intros (x & Hx & Hne). apply existsb_exists. exists x.
  split; [by apply list_elem_of_In|].
  unfold OsPath.is_not_dot. apply negb_true_iff.
  by apply Ascii.eqb_neq.
Qed.

(** Splitting a plain name with one more extension. *)
Lemma splitext_extension (base tail : string) :
  plain_name base →
  ("."%char ∉ chars tail) → ("/"%char ∉ chars tail) →
  OsPath.splitext (base +:+ "." +:+ tail) = (base, "." +:+ tail).
Proof.
  intros [Hslash Hnondot] Hdot Htslash.
  unfold OsPath.splitext. fold (chars (base +:+ "." +:+ tail)).
  rewrite chars_app.
  change (chars ("." +:+ tail)) with ("."%char :: chars tail).
  assert (Hsep : OsPath.rfind "/" (chars base ++ "."%char :: chars tail) = -1).
  { unfold OsPath.rfind. rewrite rfind_from_absent; [done|].
    intros Hin. apply elem_of_app in Hin as [Hin|Hin]; [done|].
    apply elem_of_cons in Hin as [Hin|Hin]; [discriminate | done]. }
  assert (Hd : OsPath.rfind "." (chars base ++ "."%char :: chars tail)
               = Z.of_nat (length (chars base))).
  { unfold OsPath.rfind. rewrite rfind_from_app. simpl.
    by rewrite rfind_from_absent. }
  rewrite Hsep, Hd.
  assert ((-1 <? Z.of_nat (length (chars base))) = true) as ->
    by (apply Z.ltb_lt; lia).
  simpl Z.to_nat. rewrite Nat2Z.id, Nat.sub_0_r, drop_0.
  rewrite take_app_length, drop_app_length.
  rewrite existsb_is_not_dot by done.
  rewrite string_of_chars. f_equal.
  change ("."%char :: chars tail) with (chars ("." +:+ tail)).
  apply string_of_chars.
Qed.

Lemma endswith_app (a p : string) : PyStr.endswith p (a +:+ p) = true.
Proof.
  unfold PyStr.endswith. rewrite string_rev_app.
  generalize (String.rev p) (String.rev a). intros s r.
  induction s as [|x s IH].
  - by destruct r.
  - rewrite string_app_cons. simpl.
    destruct (ascii_dec x x); [apply IH | done].
Qed.

Lemma plain_name_app (base ext : string) :
  plain_name base → ("/"%char ∉ chars ext) → plain_name (base +:+ ext).
Proof.
  intros [Hslash (x & Hx & Hne)] Hext. split.
  - rewrite chars_app. intros Hin. by apply elem_of_app in Hin as [Hin|Hin].
  - exists x. split; [|done]. rewrite chars_app. apply elem_of_app. by left.
Qed.

(** X16: for a plain file name [base], the archive [base.tsv.zip] gives the
    table name [base], and so does the archive [base.zip] unless [base]
    itself ends in [.tsv]; the two archives therefore share one target. *)
Theorem table_name_of_zip_plain (version dataset base : string) :
  plain_name base →
  table_name_of_zip (base +:+ ".tsv.zip") = base ∧
  (PyStr.endswith ".tsv" base = false →
     table_name_of_zip (base +:+ ".zip") = base ∧
     parquet_path_of version dataset (base +:+ ".zip")
       = parquet_path_of version dataset (base +:+ ".tsv.zip")).
Proof.
  intros Hplain.
  assert (Hno : ∀ c : ascii, c ∈ chars "zip" → c ≠ "."%char ∧ c ≠ "/"%char).
  { intros c Hin. repeat (apply elem_of_cons in Hin as [->|Hin]; [done|]).
    by apply elem_of_nil in Hin. }
  assert (Hno' : ∀ c : ascii, c ∈ chars "tsv" → c ≠ "."%char ∧ c ≠ "/"%char).
  { intros c Hin. repeat (apply elem_of_cons in Hin as [->|Hin]; [done|]).
    by apply elem_of_nil in Hin. }
  assert (Hzip : ∀ b, plain_name b →
            OsPath.splitext (b +:+ ".zip") = (b, ".zip")).
  { intros b Hb. apply (splitext_extension b "zip" Hb);
      intros Hin; by destruct (Hno _ Hin). }
  assert (Htsv : OsPath.splitext (base +:+ ".tsv") = (base, ".tsv")).
  { apply (splitext_extension base "tsv" Hplain);
      intros Hin; by destruct (Hno' _ Hin). }
  assert (Hlong : table_name_of_zip (base +:+ ".tsv.zip") = base).
  { unfold table_name_of_zip.
    change (base +:+ ".tsv.zip") with (base +:+ (".tsv" +:+ ".zip")).
    rewrite <- string_app_assoc, Hzip.
    - simpl. by rewrite endswith_app, Htsv.
    - apply plain_name_app; [done|]. intros Hin.
      apply elem_of_cons in Hin as [Hin|Hin]; [discriminate|].
      by destruct (Hno' _ Hin). }
  split; [done|]. intros Hend.
  assert (Hshort : table_name_of_zip (base +:+ ".zip") = base).
  { unfold table_name_of_zip. rewrite Hzip by done. simpl. by rewrite Hend. }
  split; [done|]. unfold parquet_path_of. by rewrite Hshort, Hlong.
Qed.

Lemma table_name_of_zip_plain_witness :
  table_name_of_zip "g_patent.tsv.zip" = "g_patent" ∧
  table_name_of_zip "g_patent.zip" = "g_patent".
Proof.
  assert (Hplain : plain_name "g_patent").
  { split.
    - intros Hin. repeat (apply elem_of_cons in Hin as [Hin|Hin]; [discriminate|]).
      by apply elem_of_nil in Hin.
    - exists "g"%char. split; [by left | discriminate]. }
  destruct (table_name_of_zip_plain "20251209" "granted" "g_patent" Hplain)
    as [Hlong Hshort].
  split; [exact Hlong|]. by apply Hshort.
Defined.

(** ** The further properties on the examples *)

Lemma run_ok_eta {A} (x : result A * World) (a : A) :
  x.1 = Ok a → x = (Ok a, x.2).
Proof. destruct x as [r w]. simpl. by intros ->. Qed.

Lemma run_raise_eta {A} (x : result A * World) (e : exn) :
  x.1 = Raise e → x = (Raise e, x.2).
Proof. destruct x as [r w]. simpl. by intros ->. Qed.

Lemma single_column_all_str (c : string) (l : list string) :
  all_str [(c, SStr l)].
Proof. apply Forall_cons. split; [by exists l | apply Forall_nil_2]. Qed.

Lemma single_column_rectangular (c : string) (s : Series) :
  rectangular [(c, s)].
Proof. apply Forall_cons. split; [reflexivity | apply Forall_nil_2]. Qed.

Lemma resolver_sets_disjoint_witness :
  ¬ (declared_in (_get_column_types "g_patent" "granted"
                    MoreExamples.world_with_schema).1 "patent_date" ∧
     declared_in (_get_column_types "g_patent" "granted"
                    MoreExamples.world_with_schema).2 "patent_date").
Proof.
  apply (resolver_sets_disjoint "g_patent" "granted"
           MoreExamples.world_with_schema MoreExamples.patent_schema).
  - vm_compute. reflexivity.
  - simpl. repeat (apply NoDup_cons; split;
      [intros Hin; repeat (apply elem_of_cons in Hin as [Hin|Hin]; [discriminate|]);
       by apply elem_of_nil in Hin|]).
    apply NoDup_nil_2.
Defined.

Lemma streaming_success_output_witness :
  ∃ t ts,
    coerced_chunks None None (read_csv_chunks 2 MoreExamples.three_rows)
      = Some (t :: ts) ∧
    Forall (λ x, schema_of x = schema_of t) ts ∧
    parquet_files MoreExamples.three_rows_run.2 !! "out/t.parquet"
      = Some {| pf_schema := schema_of t; pf_tables := t :: ts |} ∧
    length (t :: ts) = 2%nat.
Proof.
  apply (streaming_success_output MoreExamples.three_rows "out/t.parquet"
           "t.tsv" 2 None None empty_world MoreExamples.three_rows_run.2).
  apply (run_ok_eta MoreExamples.three_rows_run). vm_compute. reflexivity.
Defined.

Lemma streamed_matches_buffered_on_success_witness :
  ∃ f1 f2,
    parquet_files MoreExamples.all_dated_streamed_run.2 !! Examples.abstract_parquet
      = Some f1 ∧
    parquet_files MoreExamples.all_dated_buffered_run.2 !! Examples.abstract_parquet
      = Some f2 ∧
    pf_schema f1 = pf_schema f2 ∧
    read_parquet f1 = read_parquet f2.
Proof.
  apply (streamed_matches_buffered_on_success
           MoreExamples.all_dated_streamed MoreExamples.all_dated_buffered
           Examples.abstract_table Examples.abstract_parquet
           Examples.abstract_log "granted" Examples.dated_world).
  - reflexivity.
  - vm_compute. reflexivity.
  - vm_compute. reflexivity.
  - apply single_column_all_str.
  - apply single_column_rectangular.
  - intros x Hx.
    assert (Hints : (_get_column_types Examples.abstract_table "granted"
                       Examples.dated_world).2 = None)
      by (vm_compute; reflexivity).
    rewrite Hints in Hx. simpl in Hx. by apply elem_of_empty in Hx.
  - apply (run_ok_eta MoreExamples.all_dated_streamed_run). vm_compute. reflexivity.
  - apply (run_ok_eta MoreExamples.all_dated_buffered_run). vm_compute. reflexivity.
Defined.

Lemma convert_zip_failure_logged_witness :
  last (log_lines (conversion_log_path Examples.dataset)
          MoreExamples.no_tsv_run.2)
  = Some (error_log_line Examples.zip_path
            (ValueError ("No TSV members found in " +:+ Examples.zip_path))) ∧
  MoreExamples.log_refused_run.1 = Raise (OSError "Permission denied") ∧
  text_files MoreExamples.log_refused_run.2
    = text_files MoreExamples.world_log_refused.
Proof.
  split.
  - destruct (convert_zip_failure_logged Examples.zip_path Examples.table_name
                Examples.parquet_path Examples.dataset
                (ValueError ("No TSV members found in " +:+ Examples.zip_path))
                Examples.world_without_tsv MoreExamples.no_tsv_run.2)
      as (_ & Hlogged & _).
    + apply (run_raise_eta MoreExamples.no_tsv_run). vm_compute. reflexivity.
    + apply Hlogged; [reflexivity | reflexivity | vm_compute; discriminate].
  - destruct (convert_zip_failure_logged Examples.zip_path Examples.table_name
                Examples.parquet_path Examples.dataset
                (OSError "Permission denied")
                MoreExamples.world_log_refused MoreExamples.log_refused_run.2)
      as (_ & _ & Hrefused).
    + apply (run_raise_eta MoreExamples.log_refused_run). vm_compute. reflexivity.
    + destruct (Hrefused (OSError "Permission denied")) as [_ Htext].
      * left. vm_compute. reflexivity.
      * split; [vm_compute; reflexivity | exact Htext].
Defined.

Lemma convert_zip_rerun_witness :
  parquet_exists Examples.parquet_path MoreExamples.two_members_run.2 = true.
Proof.
  apply (convert_zip_rerun Examples.zip_path Examples.table_name
           Examples.parquet_path Examples.dataset
           MoreExamples.world_two_members MoreExamples.two_members_run.2).
  apply (run_ok_eta MoreExamples.two_members_run). vm_compute. reflexivity.
Defined.

Lemma convert_zip_last_member_wins_witness :
  ∃ T, coerce_frame None None (table (content MoreExamples.second_member)) = Ok T ∧
       parquet_files MoreExamples.two_members_run.2 !! Examples.parquet_path
         = Some {| pf_schema := schema_of T; pf_tables := [T] |}.
Proof.
  apply (convert_zip_last_member_wins Examples.zip_path Examples.table_name
           Examples.parquet_path Examples.dataset
           [MoreExamples.first_member; Examples.readme; MoreExamples.second_member]
           [MoreExamples.first_member] MoreExamples.second_member
           MoreExamples.world_two_members MoreExamples.two_members_run.2).
  - vm_compute. reflexivity.
  - vm_compute. reflexivity.
  - vm_compute. reflexivity.
  - vm_compute. reflexivity.
  - apply (run_ok_eta MoreExamples.two_members_run). vm_compute. reflexivity.
Defined.

Lemma resolver_declares_witness :
  declared_in (_get_column_types "g_patent" "granted"
                 MoreExamples.world_with_schema).1 "patent_date" ∧
  _get_column_types "g_patent" "granted" empty_world = (None, None).
Proof.
  split.
  - pose proof (resolver_declares "g_patent" "granted"
                  MoreExamples.world_with_schema) as H.
    cbv zeta in H. destruct H as (Hdate & _). apply Hdate.
    exists MoreExamples.patent_schema. split; [vm_compute; reflexivity|].
    eexists. split; [apply list_elem_of_here|]. split; reflexivity.
  - pose proof (resolver_declares "g_patent" "granted" empty_world) as H.
    cbv zeta in H. destruct H as (_ & _ & _ & _ & Hnone). apply Hnone.
    left. reflexivity.
Defined.

Lemma convert_zip_frame_witness :
  parquet_files MoreExamples.two_members_run.2 !! "converted/other.parquet"
  = parquet_files MoreExamples.world_two_members !! "converted/other.parquet".
Proof.
  pose proof (convert_zip_frame Examples.zip_path Examples.table_name
                Examples.parquet_path Examples.dataset
                MoreExamples.world_two_members) as H.
  cbv zeta in H. destruct H as (Hother & _). apply Hother.
  vm_compute. discriminate.
Defined.

Lemma conversion_log_append_only_witness :
  text_files MoreExamples.no_tsv_run.2 !! "notes.txt"
  = text_files Examples.world_without_tsv !! "notes.txt".
Proof.
  pose proof (conversion_log_append_only Examples.zip_path Examples.table_name
                Examples.parquet_path Examples.dataset
                Examples.world_without_tsv) as H.
  cbv zeta in H. destruct H as (_ & Hother). apply Hother.
  vm_compute. discriminate.
Defined.

Lemma member_log_entry_witness :
  (∃ T, log_lines "log.txt"
          (_convert_member_to_parquet MoreExamples.first_member "a"
             "out/a.parquet" "log.txt" "granted" empty_world).2
        = log_lines "log.txt" empty_world
            ++ [in_memory_log_line "a" MoreExamples.first_member T] ∧
        nrows T = 2%nat ∧ length T = 1%nat) ∧
  _convert_member_to_parquet MoreExamples.damaged_member "a"
    "out/a.parquet" "log.txt" "granted" empty_world
  = (Raise (BadZipFile "Bad magic number for file header"), empty_world).
Proof.
  split.
  - pose proof (member_log_entry MoreExamples.first_member "a" "out/a.parquet"
                  "log.txt" "granted" empty_world) as H.
    cbv zeta in H. destruct H as (_ & _ & Hbuf & _).
    apply Hbuf; vm_compute; reflexivity.
  - pose proof (member_log_entry MoreExamples.damaged_member "a" "out/a.parquet"
                  "log.txt" "granted" empty_world) as H.
    cbv zeta in H. destruct H as (Hopen & _).
    destruct (Hopen _ eq_refl) as [Hr Hw].
    rewrite (surjective_pairing (_convert_member_to_parquet _ _ _ _ _ _)).
    by rewrite Hr, Hw.
Defined.

Lemma coerce_frame_keeps_shape_witness :
  (∃ df', coerce_frame (Some {["filing_date"]}) (Some {["num_claims"]})
            Examples.date_chunk = Ok df') ∧
  (∀ df', coerce_frame None (Some {["num_claims"]}) Examples.whole_chunk = Ok df' →
          columns df' = ["num_claims"] ∧ nrows df' = 3%nat).
Proof.
  split.
  - apply (coerce_frame_keeps_shape (Some {["filing_date"]})
             (Some {["num_claims"]}) Examples.date_chunk).
    intros c Hc Hin. simpl in Hc. apply elem_of_singleton in Hc. subst c.
    apply elem_of_cons in Hin as [Hin|Hin]; [discriminate|].
    by apply elem_of_nil in Hin.
  - intros df' Hok.
    destruct (coerce_frame_keeps_shape None (Some {["num_claims"]})
                Examples.whole_chunk) as (Hshape & _).
    destruct (Hshape df' Hok) as (Hcols & _ & Hrows).
    split; [exact Hcols | exact Hrows].
Defined.
